(** * Simple Stop Loss Optimizer

    A shallow embedding of [Simple_Stop_Loss_Optimizer.py]: the analysis
    [analyze_stop_loss], the loader [load_trade_data] and the entry
    point [main], with the properties the design document states about
    the analysis and further properties of the three functions.

    Floating-point numbers are IEEE 754 binary64 values, as in the
    program: the percentiles are Python floats and a column that holds
    a number with a decimal point or a missing value is a pandas
    float64 series, whose values are numpy float64 scalars.  They are
    modelled by Rocq's primitive [float], whose operations are the
    binary64 ones (round to nearest, ties to even) and are total: as for
    numpy scalars, dividing by zero yields an infinity or a NaN and does
    not raise.  A column of whole numbers is an int64 series, whose
    values are numpy int64 scalars: integers that wrap around at 2^63.

    The table is the one [pd.read_csv] returns: row labels and column
    labels are unique, so that reading a series by label reads one
    cell.

    The analysis is embedded in three layers.  The first is the
    computation on four float64 columns, without what is printed.  The
    module [Np] follows the replay loop and the baseline on columns of
    either dtype.  The module [Console] adds the two calls of [print]
    that can raise, and takes the configuration as a parameter.  The
    layers agree where they overlap: on float64 columns, and on a
    standard output that encodes every text.

    The first part holds the definitions: the Python primitives, the
    data, the analysis, the library's reduction, the numpy scalars, the
    loader, the entry point, standard output, the design's descriptions,
    the integer line on which binary64 values are compared and rounded,
    and the example data.  The second part holds the properties. *)

From Stdlib Require Import Ascii String.
From Stdlib Require Import ZArith List Bool Lia.
From Stdlib Require Import Floats Uint63.
From Stdlib Require Import Permutation Sorted.
Import ListNotations.

(** ** Python primitives used by the program *)

Module Py.

(** The exceptions the analysed code can raise. *)
Inductive exn : Type :=
| MissingColumns (missing available : list string)  (* ValueError raised by the analysis *)
| NanToInteger                                      (* ValueError of int(nan) *)
| OverflowError                                     (* int(inf), int(-inf) *)
| IndexError                                        (* iloc out of bounds *)
| EmptyMax                                          (* ValueError of max([]) *)
| UnicodeEncodeError.                               (* print of a text stdout cannot encode *)

(** A computation either returns or raises. *)
Inductive result (A : Type) : Type :=
| Ok (a : A)
| Raise (e : exn).

Arguments Ok {A} a.
Arguments Raise {A} e.

Definition bind {A B : Type} (c : result A) (k : A -> result B) : result B :=
  match c with
  | Ok a => k a
  | Raise e => Raise e
  end.

(** [int(x)] on a float: truncation toward zero; NaN and the
    infinities raise. *)
Definition int_of_float (x : float) : result Z :=
  match Prim2SF x with
  | S754_nan => Raise NanToInteger
  | S754_infinity _ => Raise OverflowError
  | S754_zero _ => Ok 0%Z
  | S754_finite s m e => Ok (cond_Zopp s (Z.shiftl (Zpos m) e))
  end.

(** The float a length is converted to when it meets a float in an
    arithmetic operation (exact below 2^53). *)
Definition float_of_len (n : nat) : float :=
  PrimFloat.of_uint63 (Uint63.of_Z (Z.of_nat n)).

(** [x > y] on floats. *)
Definition gt (x y : float) : bool := PrimFloat.ltb y x.

(** [x >= y] on floats. *)
Definition ge (x y : float) : bool := PrimFloat.leb y x.

(** The loop of the builtin [max(items, key=key)]: the first item is
    the running maximum and a later item replaces it only when its key
    is strictly greater. *)
Fixpoint max_loop {A : Type} (key : A -> float) (maxitem : A) (rest : list A) : A :=
  match rest with
  | [] => maxitem
  | item :: rest' =>
      if gt (key item) (key maxitem)
      then max_loop key item rest'
      else max_loop key maxitem rest'
  end.

Definition max_by {A : Type} (key : A -> float) (items : list A) : result A :=
  match items with
  | [] => Raise EmptyMax
  | first :: rest => Ok (max_loop key first rest)
  end.

End Py.

Notation "x <- c ;; k" := (Py.bind c (fun x => k))
  (at level 61, c at next level, right associativity).

(** ** Data model *)

(** One valid row of four float64 columns: the four numeric fields the
    analysis reads. *)
Record Trade : Type := mkTrade {
  MAE : float;
  Shares : float;
  Price : float;
  Profit : float
}.

(** A cell of the loaded table. *)
Inductive cell : Type :=
| Numeric (x : float)
| Text (s : string)
| Blank.

(** The loaded table: column labels and rows of cells in column order. *)
Record DataFrame : Type := mkDataFrame {
  df_columns : list string;
  df_rows : list (list cell)
}.

(** The entry appended for one percentile. *)
Record ThresholdResult : Type := mkResult {
  mae_threshold : float;
  percentile : float;
  total_profit : float;
  delta : float;
  stopped_count : nat;
  win_rate : float
}.

(** The accumulators of the replay loop. *)
Record Replay : Type := mkReplay {
  simulated_profit_total : float;
  replay_stopped_count : nat;
  win_count : nat
}.

(** The baseline block. *)
Record Baseline : Type := mkBaseline {
  baseline_total_profit : float;
  baseline_win_rate : float;
  baseline_avg_profit : float;
  baseline_trade_count : nat
}.

(** What one call of the analysis leaves behind when it returns. *)
Inductive Report : Type :=
| NoValidData (message : string)
| Analysis (base : Baseline) (stop_loss_results : list ThresholdResult)
           (best_result : ThresholdResult) (improvement_pct : float).

(** ** The analysis *)

Definition required_cols : list string :=
  ["MAE"; "Shares"; "Price"; "Profit"]%string.

Definition no_valid_data_message : string :=
  "ERROR: No valid data found. Check that MAE, Shares, Ex. Price, and Profit columns contain numeric data."%string.

Fixpoint column_position (name : string) (cols : list string) : option nat :=
  match cols with
  | [] => None
  | c :: cols' =>
      if String.eqb c name then Some 0
      else option_map S (column_position name cols')
  end.

Definition has_column (cols : list string) (name : string) : bool :=
  match column_position name cols with
  | Some _ => true
  | None => false
  end.

Definition missing_cols (df : DataFrame) : list string :=
  filter (fun col => negb (has_column (df_columns df) col)) required_cols.

(** [x.notna()] on a float64 value. *)
Definition notna (x : float) : bool := negb (PrimFloat.is_nan x).

(** Left-to-right accumulation from [0.0], the way the replay loop adds. *)
Definition seq_sum (xs : list float) : float :=
  fold_left PrimFloat.add xs 0%float.

(** Number of [True] entries of a boolean series. *)
Definition count_true (mask : list bool) : nat :=
  fold_left (fun k (b : bool) => if b then S k else k) mask 0.

(** [mask.mean()] on a boolean series: the count of [True] (exact in
    float64) over the length. *)
Definition bool_mean (mask : list bool) : float :=
  (Py.float_of_len (count_true mask) / Py.float_of_len (length mask))%float.

(** [sort_values()]: ascending; there is no NaN in the valid values.
    Values that compare equal are left in row order; the library's sort
    may order them otherwise, which can show only in the sign of a
    zero. *)
Fixpoint insert_sorted (x : float) (l : list float) : list float :=
  match l with
  | [] => [x]
  | y :: l' => if PrimFloat.leb x y then x :: l else y :: insert_sorted x l'
  end.

Definition sort_values (l : list float) : list float :=
  fold_right insert_sorted [] l.

(** [series.iloc[i]] for a non-negative position. *)
Definition iloc (l : list float) (i : Z) : Py.result float :=
  match nth_error l (Z.to_nat i) with
  | Some x => Py.Ok x
  | None => Py.Raise Py.IndexError
  end.

(** [max(0, int(len(mae_sorted) * (pct / 100.0)) - 1)]. *)
Definition threshold_idx (n : nat) (pct : float) : Py.result Z :=
  k <- Py.int_of_float (Py.float_of_len n * (pct / 100))%float ;;
  Py.Ok (Z.max 0 (k - 1)).

(** The threshold of one percentile: [mae_sorted.iloc[threshold_idx]]. *)
Definition resolve_threshold (mae_sorted : list float) (pct : float) : Py.result float :=
  i <- threshold_idx (length mae_sorted) pct ;;
  iloc mae_sorted i.

(** The stop-loss amount of a stopped trade, on float64 scalars (see
    [Np.simulated_loss] for columns of either dtype). *)
Definition simulated_loss (mae_threshold : float) (t : Trade) : float :=
  (Shares t * Price t * mae_threshold / 100)%float.

(** One iteration of [for idx in valid_indices]. *)
Definition replay_step (mae_threshold : float) (st : Replay) (t : Trade) : Replay :=
  if PrimFloat.ltb (MAE t) mae_threshold then
    let loss := simulated_loss mae_threshold t in
    mkReplay (simulated_profit_total st + loss)%float
             (S (replay_stopped_count st))
             (if Py.gt loss 0 then S (win_count st) else win_count st)
  else
    mkReplay (simulated_profit_total st + Profit t)%float
             (replay_stopped_count st)
             (if Py.gt (Profit t) 0 then S (win_count st) else win_count st).

(** The whole inner loop, from the three zero accumulators. *)
Definition replay (mae_threshold : float) (trades : list Trade) : Replay :=
  fold_left (replay_step mae_threshold) trades (mkReplay 0%float 0 0).

(** [pd.to_numeric(..., errors='coerce')] on one cell.  [parse_number]
    is the library's reading of a text cell as a number. *)
Definition to_numeric (parse_number : string -> option float) (c : cell) : float :=
  match c with
  | Numeric x => x
  | Text s => match parse_number s with Some x => x | None => nan end
  | Blank => nan
  end.

Section Analysis.

(** pandas' reading of text as a number, and pandas' float64
    reduction [Series.sum()]; the source fixes neither the parser nor
    the order in which the reduction adds. *)
Variable parse_number : string -> option float.
Variable series_sum : list float -> float.

Definition numeric_field (df : DataFrame) (name : string) (row : list cell) : float :=
  match column_position name (df_columns df) with
  | Some i => to_numeric parse_number (nth i row Blank)
  | None => nan
  end.

(** The four coerced series, read row by row. *)
Definition coerced_row (df : DataFrame) (row : list cell) : Trade :=
  mkTrade (numeric_field df "MAE" row) (numeric_field df "Shares" row)
          (numeric_field df "Price" row) (numeric_field df "Profit" row).

Definition valid_mask (t : Trade) : bool :=
  notna (MAE t) && notna (Shares t) && notna (Price t) && notna (Profit t).

(** The rows kept by [valid_indices], in row order. *)
Definition valid_trades (df : DataFrame) : list Trade :=
  filter valid_mask (map (coerced_row df) (df_rows df)).

Definition baseline (trades : list Trade) : Baseline :=
  let profit_valid := map Profit trades in
  mkBaseline
    (series_sum profit_valid)
    (bool_mean (map (fun x => Py.gt x 0) profit_valid) * 100)%float
    (series_sum profit_valid / Py.float_of_len (length trades))%float
    (length trades).

(** The body of [for pct in threshold_pcts] up to the appended entry. *)
Definition simulate (trades : list Trade) (mae_sorted : list float)
    (base : Baseline) (pct : float) : Py.result ThresholdResult :=
  thr <- resolve_threshold mae_sorted pct ;;
  let r := replay thr trades in
  let n := Py.float_of_len (baseline_trade_count base) in
  Py.Ok (mkResult thr pct
           (simulated_profit_total r)
           (simulated_profit_total r - baseline_total_profit base)%float
           (replay_stopped_count r)
           (Py.float_of_len (win_count r) / n * 100)%float).

Fixpoint simulate_all (trades : list Trade) (mae_sorted : list float)
    (base : Baseline) (threshold_pcts : list float) : Py.result (list ThresholdResult) :=
  match threshold_pcts with
  | [] => Py.Ok []
  | pct :: rest =>
      r <- simulate trades mae_sorted base pct ;;
      rs <- simulate_all trades mae_sorted base rest ;;
      Py.Ok (r :: rs)
  end.

(** [best_result['delta']/abs(baseline_total_profit)*100]. *)
Definition improvement (best : ThresholdResult) (base : Baseline) : float :=
  (delta best / abs (baseline_total_profit base) * 100)%float.

Definition analyze_stop_loss (df : DataFrame) (threshold_pcts : list float)
    : Py.result Report :=
  match missing_cols df with
  | _ :: _ => Py.Raise (Py.MissingColumns (missing_cols df) (df_columns df))
  | [] =>
      let trades := valid_trades df in
      match trades with
      | [] => Py.Ok (NoValidData no_valid_data_message)
      | _ :: _ =>
          let base := baseline trades in
          let mae_sorted := sort_values (map MAE trades) in
          results <- simulate_all trades mae_sorted base threshold_pcts ;;
          best <- Py.max_by total_profit results ;;
          Py.Ok (Analysis base results best (improvement best base))
      end
  end.

End Analysis.

(** The test that colours the row of a result, [delta_vs_base > 0]. *)
Definition improves (r : ThresholdResult) : bool := Py.gt (delta r) 0.

(** ** The library's reduction

    numpy reduces a contiguous float64 array by pairwise summation:
    fewer than eight elements are added in order; up to 128 elements
    are added into eight running lanes that are then combined in pairs,
    the remaining elements being added in order; longer arrays are
    split in two parts (the first a multiple of eight) that are summed
    separately.  Its order of additions is not the row order of the
    replay loop. *)

Fixpoint add_lanes (r block : list float) : list float :=
  match r, block with
  | x :: r', y :: block' => (x + y)%float :: add_lanes r' block'
  | _, _ => r
  end.

Fixpoint unrolled_blocks (fuel : nat) (r a : list float) : list float * list float :=
  match fuel with
  | O => (r, a)
  | S fuel' =>
      if (8 <=? length a)%nat
      then unrolled_blocks fuel' (add_lanes r (firstn 8 a)) (skipn 8 a)
      else (r, a)
  end.

Definition block_sum (a : list float) : float :=
  match unrolled_blocks (length a) (firstn 8 a) (skipn 8 a) with
  | ([r0; r1; r2; r3; r4; r5; r6; r7], rest) =>
      fold_left PrimFloat.add rest
        (((r0 + r1) + (r2 + r3)) + ((r4 + r5) + (r6 + r7)))%float
  | _ => nan
  end.

Fixpoint pairwise_sum (fuel : nat) (a : list float) : float :=
  let n := length a in
  if (n <? 8)%nat then fold_left PrimFloat.add a (-0)%float
  else if (n <=? 128)%nat then block_sum a
  else
    match fuel with
    | O => nan
    | S fuel' =>
        let n2 := (n / 2 - (n / 2) mod 8)%nat in
        (pairwise_sum fuel' (firstn n2 a) + pairwise_sum fuel' (skipn n2 a))%float
    end.

(** [add.reduce] over the whole array: the reduction starts from the
    identity [0.0], to which the pairwise sum is added. *)
Definition numpy_sum (a : list float) : float :=
  (0 + pairwise_sum (length a) a)%float.

(** ** numpy scalars

    [pd.to_numeric] leaves a column of whole numbers, each of them an
    int64 value, with the dtype int64, and gives a column that holds a
    number with a decimal point or a missing value the dtype float64.
    The values the analysis reads from the four series are numpy
    scalars of these two dtypes, and the values of one column share the
    dtype of the column; columns of other dtypes (whole numbers beyond
    the range of int64, the words True and False) are not modelled.

    The definitions above are the analysis of four float64 columns.
    This module follows the replay loop and the baseline on both
    dtypes: the product of two int64 scalars is an int64 scalar, reduced
    modulo 2^64 into [-2^63, 2^63); an operation with a float64 operand
    converts the other operand to float64; the sum of an int64 column
    is taken in int64. *)

Module Np.

Inductive scalar : Type :=
| int64 (z : Z)
| float64 (x : float).

(** The int64 value congruent to [z] modulo 2^64. *)
Definition wrap (z : Z) : Z := ((z + 2 ^ 63) mod 2 ^ 64 - 2 ^ 63)%Z.

(** The float64 nearest to an int64 value (ties to even). *)
Definition to_float64 (z : Z) : float :=
  if (z =? - 2 ^ 63)%Z then (-0x1p+63)%float
  else if (z <? 0)%Z then (- PrimFloat.of_uint63 (Uint63.of_Z (- z)))%float
  else PrimFloat.of_uint63 (Uint63.of_Z z).

Definition as_float (a : scalar) : float :=
  match a with
  | int64 z => to_float64 z
  | float64 x => x
  end.

(** [a * b]. *)
Definition mul (a b : scalar) : scalar :=
  match a, b with
  | int64 x, int64 y => int64 (wrap (x * y))
  | _, _ => float64 (as_float a * as_float b)
  end.

(** [a / d] for a Python float [d]. *)
Definition truediv (a : scalar) (d : float) : float :=
  (as_float a / d)%float.

(** [a < b]. *)
Definition lt (a b : scalar) : bool :=
  match a, b with
  | int64 x, int64 y => (x <? y)%Z
  | _, _ => PrimFloat.ltb (as_float a) (as_float b)
  end.

(** [a > 0]. *)
Definition positive (a : scalar) : bool :=
  match a with
  | int64 z => (0 <? z)%Z
  | float64 x => Py.gt x 0
  end.

(** The four scalars the loop reads for one valid index. *)
Record Row : Type := mkRow {
  actual_mae : scalar;
  shares : scalar;
  entry_price : scalar;
  actual_profit : scalar
}.

(** [shares * entry_price * mae_threshold / 100.0]. *)
Definition simulated_loss (mae_threshold : scalar) (r : Row) : float :=
  truediv (mul (mul (shares r) (entry_price r)) mae_threshold) 100.

(** One iteration of [for idx in valid_indices]; the running total is
    a float64 from the first addition on. *)
Definition replay_step (mae_threshold : scalar) (st : Replay) (r : Row) : Replay :=
  if lt (actual_mae r) mae_threshold then
    let loss := simulated_loss mae_threshold r in
    mkReplay (simulated_profit_total st + loss)%float
             (S (replay_stopped_count st))
             (if Py.gt loss 0 then S (win_count st) else win_count st)
  else
    mkReplay (simulated_profit_total st + as_float (actual_profit r))%float
             (replay_stopped_count st)
             (if positive (actual_profit r) then S (win_count st) else win_count st).

Definition replay (mae_threshold : scalar) (rows : list Row) : Replay :=
  fold_left (replay_step mae_threshold) rows (mkReplay 0%float 0 0).

(** The values of a column when its dtype is int64. *)
Fixpoint int64_values (column : list scalar) : option (list Z) :=
  match column with
  | [] => Some []
  | int64 z :: column' => option_map (cons z) (int64_values column')
  | float64 _ :: _ => None
  end.

(** [Series.sum()]: the int64 sum of an int64 column, the pairwise
    float64 sum of a float64 column. *)
Definition sum (column : list scalar) : scalar :=
  match int64_values column with
  | Some zs => int64 (fold_left (fun acc z => wrap (acc + z)) zs 0%Z)
  | None => float64 (numpy_sum (map as_float column))
  end.

(** [float(profit_valid.sum())]. *)
Definition baseline_total_profit (rows : list Row) : float :=
  as_float (sum (map actual_profit rows)).

(** [float((profit_valid > 0).mean()) * 100]. *)
Definition baseline_win_rate (rows : list Row) : float :=
  (bool_mean (map (fun r => positive (actual_profit r)) rows) * 100)%float.

End Np.

(** ** Loading the table *)

(** The two string methods the loader calls, for a one-character
    argument. *)
Module Str.

(** [s.endswith(c)]. *)
Fixpoint endswith (c : Ascii.ascii) (s : string) : bool :=
  match s with
  | EmptyString => false
  | String a EmptyString => Ascii.eqb a c
  | String _ s' => endswith c s'
  end.

(** [s.rstrip(c)]: every trailing [c] is removed. *)
Fixpoint rstrip (c : Ascii.ascii) (s : string) : string :=
  match s with
  | EmptyString => EmptyString
  | String a s' =>
      match rstrip c s' with
      | EmptyString => if Ascii.eqb a c then EmptyString else String a EmptyString
      | rest => String a rest
      end
  end.

End Str.

(** [l] with [f] applied at position [i] (unchanged when it has no such
    position). *)
Fixpoint map_at {A : Type} (i : nat) (f : A -> A) (l : list A) : list A :=
  match l with
  | [] => []
  | x :: l' =>
      match i with
      | O => f x :: l'
      | S i' => x :: map_at i' f l'
      end
  end.

(** The cells of the column at position [i], in row order. *)
Definition column_cells (df : DataFrame) (i : nat) : list cell :=
  map (fun row => nth i row Blank) (df_rows df).

(** [df[col] = f(df[col])] for an element-wise [f]. *)
Definition assign_cells (f : cell -> cell) (df : DataFrame) (i : nat) : DataFrame :=
  mkDataFrame (df_columns df) (map (map_at i f) (df_rows df)).

Definition is_text (c : cell) : bool :=
  match c with
  | Text _ => true
  | _ => false
  end.

(** [is_numeric_dtype(df[col])]: a column read from a file has a numeric
    dtype exactly when none of its cells was kept as text. *)
Definition is_numeric_dtype (series : list cell) : bool :=
  forallb (fun c => negb (is_text c)) series.

Definition isna (c : cell) : bool :=
  match c with
  | Blank => true
  | Numeric x => PrimFloat.is_nan x
  | Text _ => false
  end.

Definition dropna (series : list cell) : list cell :=
  filter (fun c => negb (isna c)) series.

Section Loader.

(** pandas' reading of text as a number, and [str(x)] for a float kept
    in a column of objects. *)
Variable parse_number : string -> option float.
Variable float_str : float -> string.

(** [astype(str)] on one cell; a missing value becomes the text nan. *)
Definition astype_str (c : cell) : string :=
  match c with
  | Text s => s
  | Numeric x => float_str x
  | Blank => "nan"
  end.

(** [sample.astype(str).str.endswith('%').sum() > len(sample) * 0.5]. *)
Definition mostly_percent (sample : list cell) : bool :=
  Py.gt (Py.float_of_len (count_true (map (fun c => Str.endswith "%"%char (astype_str c)) sample)))
        (Py.float_of_len (length sample) * 0.5)%float.

(** [astype(str).str.rstrip('%').replace('', pd.NA)] on one cell. *)
Definition strip_percent (c : cell) : cell :=
  let s := Str.rstrip "%"%char (astype_str c) in
  if String.eqb s "" then Blank else Text s.

(** [pd.to_numeric(..., errors='coerce')] on one cell, as a cell of the
    float64 column it yields. *)
Definition coerce (c : cell) : cell := Numeric (to_numeric parse_number c).

(** One iteration of [for col in df.columns]. *)
Definition convert_column (df : DataFrame) (col : string) : DataFrame :=
  match column_position col (df_columns df) with
  | None => df
  | Some i =>
      let series := column_cells df i in
      if is_numeric_dtype series then df
      else
        let sample := firstn 100 (dropna series) in
        match sample with
        | [] => df
        | _ :: _ =>
            if mostly_percent sample
            then assign_cells coerce (assign_cells strip_percent df i) i
            else df
        end
  end.

(** The conversion loop of [load_trade_data]. *)
Definition convert_percent_columns (df : DataFrame) : DataFrame :=
  fold_left convert_column (df_columns df) df.

End Loader.

(** ** The entry point *)

(** The configuration as distributed in [config_template.py], which
    the setup copies to [config_local.py]. *)
Module config.

Definition PATH_TO_CSV : string := "data/trades.csv".

Definition DEFAULT_THRESHOLDS : list float :=
  [ 1; 3; 5;
    10; 15; 20; 25; 30; 35; 40;
    45; 50; 55; 60; 65; 70; 75;
    80; 85; 90; 95 ]%float.

End config.

(** What the [try] block of [main] can catch. *)
Inductive caught : Type :=
| FileNotFoundError (csv_path : string)   (* raised by load_trade_data *)
| ReadCsvError                            (* whatever pd.read_csv raised *)
| AnalysisError (e : Py.exn).             (* raised by analyze_stop_loss *)

(** [sorted(xs)] on floats none of which is a NaN: ascending, equal
    values in their order of arrival. *)
Definition sorted (xs : list float) : list float :=
  fold_right insert_sorted [] xs.

Section Main.

(** The file system and the CSV reader: whether a path exists, and the
    table read from it ([None] when the reader raises). *)
Variable path_exists : string -> bool.
Variable read_csv : string -> option DataFrame.
Variable parse_number : string -> option float.
Variable float_str : float -> string.
Variable series_sum : list float -> float.

Definition load_trade_data (csv_path : string) : caught + DataFrame :=
  if negb (path_exists csv_path) then inl (FileNotFoundError csv_path)
  else
    match read_csv csv_path with
    | None => inl ReadCsvError
    | Some df => inr (convert_percent_columns parse_number float_str df)
    end.

(** The body of the [try] block: what it raised, or the report of the
    analysis. *)
Definition try_block (csv_path : string) (thresholds : list float) : caught + Report :=
  match load_trade_data csv_path with
  | inl e => inl e
  | inr df =>
      match analyze_stop_loss parse_number series_sum df (sorted thresholds) with
      | Py.Raise e => inl (AnalysisError e)
      | Py.Ok report => inr report
      end
  end.

(** [main] after the arguments are parsed, under the configuration of
    the template: an absent argument takes its default from the
    configuration; the value returned is the exit status. *)
Definition main (csv_file : option string) (thresholds : option (list float)) : Z :=
  let csv_path := match csv_file with Some p => p | None => config.PATH_TO_CSV end in
  let thresholds := match thresholds with Some t => t | None => config.DEFAULT_THRESHOLDS end in
  match try_block csv_path thresholds with
  | inl _ => 1
  | inr _ => 0
  end.

End Main.

(** ** Standard output and the configuration

    The definitions above are the computation of the program, without
    what it prints.  The program also prints, and [print] raises [UnicodeEncodeError] when
    the encoding of standard output cannot encode the text; standard
    output is taken to be open and writable, so that this is the only
    way a [print] fails.  Two of the texts printed can hold a character
    outside ASCII: the line that names the file, printed by [main]
    before its [try] block, and the header of the results table,
    printed by the analysis once there is a valid row.  Every other
    line printed on standard output is fixed ASCII text or a formatted
    number, which the encoding of a standard stream can encode, and the
    message of a caught exception goes to standard error, which escapes
    what it cannot encode; these are left out.

    The configuration is the module [config_local], which the user
    writes from [config_template.py]; its two values are parameters
    here. *)

Module Console.

(** The two values read from [config_local]. *)
Record Config : Type := mkConfig {
  PATH_TO_CSV : string;
  DEFAULT_THRESHOLDS : list float
}.

(** The header of the results table, with its leading newline; the
    sixth title starts with the Greek capital delta. *)
Definition results_header : string :=
  String "010"%char
    "MAE %      Thresh %   Trades     Stopped    Total $         Δ vs Base       $/Trade      Win%    ".

(** [f"Loading trade data from: {csv_path}"]. *)
Definition loading_line (csv_path : string) : string :=
  ("Loading trade data from: " ++ csv_path)%string.

Section Run.

(** Whether standard output can encode a text. *)
Variable stdout_encodes : string -> bool.
Variable config_local : Config.
Variable path_exists : string -> bool.
Variable read_csv : string -> option DataFrame.
Variable parse_number : string -> option float.
Variable float_str : float -> string.
Variable series_sum : list float -> float.

Definition print (text : string) : Py.result unit :=
  if stdout_encodes text then Py.Ok tt else Py.Raise Py.UnicodeEncodeError.

Definition analyze_stop_loss (df : DataFrame) (threshold_pcts : list float)
    : Py.result Report :=
  match missing_cols df with
  | _ :: _ => Py.Raise (Py.MissingColumns (missing_cols df) (df_columns df))
  | [] =>
      let trades := valid_trades parse_number df in
      match trades with
      | [] => Py.Ok (NoValidData no_valid_data_message)
      | _ :: _ =>
          let base := baseline series_sum trades in
          let mae_sorted := sort_values (map MAE trades) in
          printed <- print results_header ;;
          results <- simulate_all trades mae_sorted base threshold_pcts ;;
          best <- Py.max_by total_profit results ;;
          Py.Ok (Analysis base results best (improvement best base))
      end
  end.

(** The body of the [try] block. *)
Definition try_block (csv_path : string) (thresholds : list float) : caught + Report :=
  match load_trade_data path_exists read_csv parse_number float_str csv_path with
  | inl e => inl e
  | inr df =>
      match analyze_stop_loss df (sorted thresholds) with
      | Py.Raise e => inl (AnalysisError e)
      | Py.Ok report => inr report
      end
  end.

(** [main] after the arguments are parsed; a path is identified with
    its text.  The line that names the file is printed before the [try]
    block, so that an error of this [print] is not caught; otherwise
    the value returned is the exit status. *)
Definition main (csv_file : option string) (thresholds : option (list float))
    : Py.result Z :=
  let csv_path := match csv_file with Some p => p | None => PATH_TO_CSV config_local end in
  let thresholds :=
    match thresholds with Some t => t | None => DEFAULT_THRESHOLDS config_local end in
  printed <- print (loading_line csv_path) ;;
  Py.Ok (match try_block csv_path thresholds with
         | inl _ => 1%Z
         | inr _ => 0%Z
         end).

End Run.

End Console.

(** ** The design's descriptions *)

(** The design's description of one trade under a threshold: stopped
    when its adverse excursion is strictly below the threshold, and then
    worth the stop amount; otherwise worth its actual profit. *)
Definition is_stopped (mae_threshold : float) (t : Trade) : bool :=
  PrimFloat.ltb (MAE t) mae_threshold.

Definition simulated_outcome (mae_threshold : float) (t : Trade) : float :=
  if is_stopped mae_threshold t
  then (Shares t * Price t * mae_threshold / 100)%float
  else Profit t.

Definition is_win (mae_threshold : float) (t : Trade) : bool :=
  Py.gt (simulated_outcome mae_threshold t) 0.

(** The number of trades with a strictly positive actual profit. *)
Definition winners (trades : list Trade) : nat :=
  length (filter (fun t => PrimFloat.ltb 0 (Profit t)) trades).

(** The index the design states, [max(0, floor(n * p / 100) - 1)],
    computed exactly on the value of [p]. *)
Definition nearest_rank_index (n : nat) (p : float) : option Z :=
  match Prim2SF p with
  | S754_zero _ => Some (Z.max 0 (0 - 1))
  | S754_finite s m e =>
      let np := cond_Zopp s (Z.of_nat n * Zpos m) in
      let q := if (0 <=? e)%Z then (np * 2 ^ e / 100)%Z else (np / (100 * 2 ^ (- e)))%Z in
      Some (Z.max 0 (q - 1))
  | _ => None
  end.

(** [main]: the exit status is 1 when the analysis raised and 0 when it
    returned. *)
Definition exit_status (r : Py.result Report) : Z :=
  match r with
  | Py.Ok _ => 0
  | Py.Raise _ => 1
  end.

(** *** On numpy scalars *)

(** The design's stop amount is its formula on the numbers the scalars
    hold, as Python evaluates it: the product of two whole numbers is
    their product, whatever its size, and a whole number that meets a
    float is converted to the nearest float (ties to even).  In these
    three definitions an [int64] holds any integer. *)
Definition float_of_int (z : Z) : float :=
  SF2Prim (binary_normalize prec emax z 0 false).

Definition number_value (a : Np.scalar) : float :=
  match a with
  | Np.int64 z => float_of_int z
  | Np.float64 x => x
  end.

Definition product (a b : Np.scalar) : Np.scalar :=
  match a, b with
  | Np.int64 x, Np.int64 y => Np.int64 (x * y)
  | _, _ => Np.float64 (number_value a * number_value b)
  end.

(** [shares * entry_price * mae_threshold / 100.0]. *)
Definition stop_amount (mae_threshold : Np.scalar) (r : Np.Row) : float :=
  (number_value (product (product (Np.shares r) (Np.entry_price r)) mae_threshold) / 100)%float.

(** The design's description of one row under a threshold: stopped
    when its adverse excursion is strictly below the threshold, and then
    worth the stop amount; otherwise worth its actual profit. *)
Definition is_stopped_row (mae_threshold : Np.scalar) (r : Np.Row) : bool :=
  Np.lt (Np.actual_mae r) mae_threshold.

Definition row_outcome (mae_threshold : Np.scalar) (r : Np.Row) : Np.scalar :=
  if is_stopped_row mae_threshold r
  then Np.float64 (stop_amount mae_threshold r)
  else Np.actual_profit r.

(** An integer that an int64 holds. *)
Definition int64_range (z : Z) : Prop := (- 2 ^ 63 <= z < 2 ^ 63)%Z.

Definition int64_scalar (a : Np.scalar) : Prop :=
  match a with
  | Np.int64 z => int64_range z
  | Np.float64 _ => True
  end.

(** No int64 product of the stop amount leaves the range of int64. *)
Definition no_overflow (mae_threshold : Np.scalar) (r : Np.Row) : Prop :=
  int64_scalar mae_threshold /\
  int64_scalar (Np.shares r) /\
  int64_scalar (Np.entry_price r) /\
  match Np.shares r, Np.entry_price r with
  | Np.int64 s, Np.int64 p =>
      int64_range (s * p) /\
      match mae_threshold with
      | Np.int64 t => int64_range (s * p * t)
      | Np.float64 _ => True
      end
  | _, _ => True
  end.

(** [a < 0]. *)
Definition negative (a : Np.scalar) : bool :=
  match a with
  | Np.int64 z => (z <? 0)%Z
  | Np.float64 x => PrimFloat.ltb x 0
  end.

(** The number of rows with a strictly positive actual profit. *)
Definition winning_rows (rows : list Np.Row) : nat :=
  length (filter (fun r => Np.positive (Np.actual_profit r)) rows).

(** A trade of float64 columns as a row of scalars. *)
Definition row_of_trade (t : Trade) : Np.Row :=
  Np.mkRow (Np.float64 (MAE t)) (Np.float64 (Shares t))
           (Np.float64 (Price t)) (Np.float64 (Profit t)).

(** *** Of the texts printed *)

(** A text that holds ASCII characters only. *)
Fixpoint is_ascii (s : string) : bool :=
  match s with
  | EmptyString => true
  | String c s' => (Ascii.nat_of_ascii c <? 128)%nat && is_ascii s'
  end.

(** ** Descriptions of the loader *)

(** The conversion rule by counts: a column is converted when it holds
    text and strictly more than half of its first hundred non-missing
    cells end with a percent sign. *)
Definition percent_majority (float_str : float -> string) (series : list cell) : bool :=
  let sample := firstn 100 (dropna series) in
  existsb is_text series &&
  (length sample <?
   2 * length (filter (fun c => Str.endswith "%"%char (astype_str float_str c)) sample))%nat.

(** A table is rectangular when every row has one cell per column. *)
Definition rectangular (df : DataFrame) : Prop :=
  Forall (fun row => length row = length (df_columns df)) (df_rows df).

(** ** Positions of binary64 values

    Every float that is not a NaN sits at an integer position on the
    line of multiples of 2^-1074 (the infinities beyond every finite
    value); the comparisons of the program are the comparisons of these
    positions. *)

Module F64.

Local Open Scope Z_scope.

Definition digits (m : positive) : Z := Zpos (digits2_pos m).

(** The exponent of the infinities on the scale of [ord]. *)
Definition top : Z := 2 ^ 2098.

(** The position of a float on the line of multiples of 2^-1074. *)
Definition ord (x : spec_float) : Z :=
  match x with
  | S754_zero _ => 0
  | S754_infinity s => cond_Zopp s top
  | S754_nan => 0
  | S754_finite s m e => cond_Zopp s (Zpos m * 2 ^ (e + 1074))
  end.

Definition is_nan (x : spec_float) : bool :=
  match x with S754_nan => true | _ => false end.

(** Primitive floats on the same line. *)
Definition nanb (x : float) : bool := is_nan (Prim2SF x).
Definition pos (x : float) : Z := ord (Prim2SF x).

End F64.

(** Ascending order of two values that are not NaN. *)
Definition ascending (a b : float) : Prop := (F64.pos a <= F64.pos b)%Z.

(** ** Rounding to nearest, on the integer line *)

Module Rounding.

Local Open Scope Z_scope.

(** Where the fraction [r / D] (with [0 <= r < D]) lies in the unit interval. *)
Definition loc_of (r D : Z) : location :=
  if r =? 0 then loc_Exact else loc_Inexact (2 * r ?= D).

(** The record holds the integer part of [X / D] and the location of the
    fractional part. *)
Definition represents (mrs : shr_record) (X D : Z) : Prop :=
  shr_m mrs = X / D /\ loc_of_shr_record mrs = loc_of (X mod D) D.

(** Rounding [X / D] to the nearest integer, ties to even. *)
Definition rne (X D : Z) : Z :=
  match 2 * (X mod D) ?= D with
  | Lt => X / D
  | Eq => if Z.even (X / D) then X / D else X / D + 1
  | Gt => X / D + 1
  end.

Definition fexp64 (x : Z) : Z := Z.max (x - 53) (-1074).

(** The position, on the line of multiples of 2^-1074, of the binary64
    value nearest to [X / D * 2^e] (ties to even), capped at the
    position of the infinities. *)
Definition rnd (X D e : Z) : Z :=
  let E := fexp64 (Zdigits2 (X / D) + e) in
  Z.min (rne X (D * 2 ^ (E - e)) * 2 ^ (E + 1074)) F64.top.

(** [X1 / D1 * 2^e1 <= X2 / D2 * 2^e2], cross-multiplied. *)
Definition val_le (X1 D1 e1 X2 D2 e2 : Z) : Prop :=
  X1 * D2 * 2 ^ (e1 - Z.min e1 e2) <= X2 * D1 * 2 ^ (e2 - Z.min e1 e2).

(** The exponent and the left shift chosen by [SFdiv_core_binary]. *)
Definition div_exp (m1 e1 m2 e2 : Z) : Z :=
  Z.min (fexp64 (Zdigits2 m1 + e1 - (Zdigits2 m2 + e2))) (e1 - e2).

Definition div_shift (m1 e1 m2 e2 : Z) : Z :=
  e1 - e2 - div_exp m1 e1 m2 e2.

(** What is known of a factor between 0 and 1. *)
Definition unit_factor (x : float) : Prop :=
  F64.nanb x = false /\ 0 <= F64.pos x <= 2 ^ 1074.

End Rounding.

(** ** Whole numbers *)

(** The float [x] is the whole number [k]. *)
Definition whole (x : float) (k : Z) : Prop :=
  F64.nanb x = false /\ F64.pos x = (k * 2 ^ 1074)%Z /\ (Z.abs k < 2 ^ 1024)%Z.

(** The whole number a float holds when it holds one. *)
Definition whole_part (x : float) : Z := (F64.pos x / 2 ^ 1074)%Z.

Definition is_whole (x : float) : Prop := whole x (whole_part x).

(** The sum of the whole numbers a list of floats holds, and the sum of
    their absolute values. *)
Definition whole_total (xs : list float) : Z :=
  fold_right Z.add 0%Z (map whole_part xs).

Definition whole_budget (xs : list float) : Z :=
  fold_right Z.add 0%Z (map (fun x => Z.abs (whole_part x)) xs).

(** The scalar [a] is the whole number [k]. *)
Definition whole_scalar (a : Np.scalar) (k : Z) : Prop :=
  match a with
  | Np.int64 z => z = k
  | Np.float64 x => whole x k
  end.

(** Exact sums of integers. *)
Definition exact_sum (ks : list Z) : Z := fold_right Z.add 0%Z ks.

(** ** Example data *)

(** The three trades of the design's worked scenario. *)
Definition scenario_trades : list Trade :=
  [ mkTrade (-1) 100 50 (-30);
    mkTrade (-5) 100 50 (-250);
    mkTrade (-0.5) 50 20 15 ]%float.

(** A table with exactly the four required columns, all cells numeric. *)
Definition frame_of (trades : list Trade) : DataFrame :=
  mkDataFrame required_cols
    (map (fun t => [Numeric (MAE t); Numeric (Shares t); Numeric (Price t); Numeric (Profit t)])
         trades).

(** A text parser that recognises nothing. *)
Definition no_text (s : string) : option float := None.

(** The results of the design's scenario at percentiles 50 and 100. *)
Definition scenario_results : list ThresholdResult :=
  match simulate_all scenario_trades (sort_values (map MAE scenario_trades))
          (baseline seq_sum scenario_trades) [50; 100]%float with
  | Py.Ok rs => rs
  | Py.Raise _ => []
  end.

(** Ten trades that each made 0.1, and a threshold below all of them. *)
Definition ten_dimes : list Trade :=
  repeat (mkTrade (-1) 1 1 (1 / 10))%float 10.

(** Two trades whose profits are the two infinities. *)
Definition runaway_trades : list Trade :=
  [ mkTrade (-1) 1 1 infinity; mkTrade (-2) 1 1 neg_infinity ]%float.

(** A winner and a loser of equal size: the baseline total is zero. *)
Definition balanced_trades : list Trade :=
  [ mkTrade (-1) 100 10 50; mkTrade (-5) 100 10 (-50) ]%float.

(** A table whose only row has a text cell where a number is needed. *)
Definition unreadable_frame : DataFrame :=
  mkDataFrame required_cols
    [[Numeric (-1)%float; Text "n/a"; Numeric 50%float; Numeric 15%float]].

(** Ninety trades whose adverse excursions are -1, -2, ..., -90. *)
Definition ninety_trades : list Trade :=
  map (fun k => mkTrade (- Py.float_of_len k) 100 10 0) (seq 1 90).

(** The scenario's table with the adverse excursions written as
    percentages, and a parser that reads the three numbers. *)
Definition percent_frame : DataFrame :=
  mkDataFrame required_cols
    [ [Text "-1.0%"; Numeric 100; Numeric 50; Numeric (-30)];
      [Text "-5.0%"; Numeric 100; Numeric 50; Numeric (-250)];
      [Text "-0.5%"; Numeric 50; Numeric 20; Numeric 15] ]%float.

Definition scenario_parser (s : string) : option float :=
  if String.eqb s "-1.0" then Some (-1)%float
  else if String.eqb s "-5.0" then Some (-5)%float
  else if String.eqb s "-0.5" then Some (-0.5)%float
  else None.

(** A float printer that is never consulted by the examples. *)
Definition no_repr (x : float) : string := "".

(** A file system holding one file, the scenario's table. *)
Definition scenario_exists (path : string) : bool := String.eqb path "trades.csv".

Definition scenario_read_csv (path : string) : option DataFrame :=
  if String.eqb path "trades.csv" then Some percent_frame else None.

(** The two results of the scenario at percentiles 50 and 100. *)
Definition scenario_result_50 : ThresholdResult :=
  mkResult (-5) 50 (-265) (-265 - -265) 0 (Py.float_of_len 1 / Py.float_of_len 3 * 100).

Definition scenario_result_100 : ThresholdResult :=
  mkResult (-0.5) 100 (-35) (-35 - -265) 2 (Py.float_of_len 1 / Py.float_of_len 3 * 100).

(** Two rows of int64 shares and prices; in the first their product
    exceeds 2^63. *)
Definition oversized_rows : list Np.Row :=
  [ Np.mkRow (Np.float64 (-2)) (Np.int64 3037000500) (Np.int64 3037000500) (Np.float64 (-1));
    Np.mkRow (Np.float64 (-1)) (Np.int64 1) (Np.int64 1) (Np.float64 0) ].

(** The scenario with whole shares, prices and profits in int64 columns. *)
Definition scenario_rows : list Np.Row :=
  [ Np.mkRow (Np.float64 (-1)) (Np.int64 100) (Np.int64 50) (Np.int64 (-30));
    Np.mkRow (Np.float64 (-5)) (Np.int64 100) (Np.int64 50) (Np.int64 (-250));
    Np.mkRow (Np.float64 (-0.5)) (Np.int64 50) (Np.int64 20) (Np.int64 15) ].

(** Three profits of 0.1, 0.2 and 0.3. *)
Definition three_profits : list Np.Row :=
  [ Np.mkRow (Np.float64 (-1)) (Np.int64 1) (Np.int64 1) (Np.float64 (1 / 10));
    Np.mkRow (Np.float64 (-1)) (Np.int64 1) (Np.int64 1) (Np.float64 (1 / 5));
    Np.mkRow (Np.float64 (-1)) (Np.int64 1) (Np.int64 1) (Np.float64 (3 / 10)) ].

(** The configuration of the template as the value of [config_local]. *)
Definition template_config : Console.Config :=
  Console.mkConfig config.PATH_TO_CSV config.DEFAULT_THRESHOLDS.

(** A standard output that encodes every text (UTF-8), and one that
    encodes ASCII only. *)
Definition utf8_stdout (text : string) : bool := true.

Definition ascii_stdout (text : string) : bool := is_ascii text.

(** * Properties *)

(** ** The order of binary64 values

    Every float that is not a NaN sits at an integer position on the
    line of multiples of 2^-1074 (the infinities beyond every finite
    value); the comparisons of the program are the comparisons of these
    positions. *)

Module F64Facts.

Import F64.
Local Open Scope Z_scope.

Lemma digits2_size m : digits2_pos m = Pos.size m.
Proof. induction m; simpl; congruence. Qed.

Lemma digits_pos m : 0 < digits m.
Proof. unfold digits; lia. Qed.

Lemma digits_upper m : Zpos m < 2 ^ digits m.
Proof.
  unfold digits. rewrite digits2_size.
  generalize (Pos.size_gt m). rewrite <- Pos2Z.inj_pow. lia.
Qed.

Lemma digits_lower m : 2 ^ (digits m - 1) <= Zpos m.
Proof.
  unfold digits. rewrite digits2_size.
  generalize (Pos.size_le m). intros H.
  assert (H' : 2 ^ Zpos (Pos.size m) <= 2 * Zpos m).
  { rewrite <- Pos2Z.inj_pow. change (2 * Zpos m) with (Zpos m~0). lia. }
  replace (Zpos (Pos.size m)) with (Z.succ (Zpos (Pos.size m) - 1)) in H' by lia.
  rewrite Z.pow_succ_r in H' by lia. lia.
Qed.

Lemma bounded_inv m e :
  bounded prec emax m e = true ->
  -1074 <= e <= 971 /\ digits m <= 53 /\ (digits m = 53 \/ e = -1074).
Proof.
  unfold bounded, canonical_mantissa, fexp, SpecFloat.emin, prec, emax, digits.
  rewrite andb_true_iff, Z.eqb_eq, Z.leb_le. lia.
Qed.

Lemma finite_range m e :
  bounded prec emax m e = true -> 0 < Zpos m * 2 ^ (e + 1074) < top.
Proof.
  intros H. apply bounded_inv in H. destruct H as (He & Hd & _).
  assert (Hu := digits_upper m).
  assert (Hp : 0 < 2 ^ (e + 1074)) by (apply Z.pow_pos_nonneg; lia).
  split; [lia|].
  unfold top.
  apply Z.lt_le_trans with (2 ^ 53 * 2 ^ (e + 1074)).
  - apply Z.mul_lt_mono_pos_r; auto.
    apply Z.lt_le_trans with (2 ^ digits m); auto.
    apply Z.pow_le_mono_r; lia.
  - rewrite <- Z.pow_add_r by lia. apply Z.pow_le_mono_r; lia.
Qed.

Lemma finite_lt m1 e1 m2 e2 :
  bounded prec emax m1 e1 = true -> bounded prec emax m2 e2 = true ->
  e1 < e2 -> Zpos m1 * 2 ^ (e1 + 1074) < Zpos m2 * 2 ^ (e2 + 1074).
Proof.
  intros H1 H2 Hlt.
  apply bounded_inv in H1, H2.
  destruct H1 as (He1 & Hd1 & _), H2 as (He2 & Hd2 & Hn2).
  assert (Hd : digits m2 = 53) by lia.
  assert (Hu := digits_upper m1). assert (Hl := digits_lower m2).
  rewrite Hd in Hl.
  assert (Hm1 : Zpos m1 < 2 ^ 53).
  { apply Z.lt_le_trans with (2 ^ digits m1); auto. apply Z.pow_le_mono_r; lia. }
  replace (e2 + 1074) with ((e2 - e1 - 1) + 1 + (e1 + 1074)) by lia.
  rewrite (Z.pow_add_r 2 (e2 - e1 - 1 + 1) (e1 + 1074)) by lia.
  rewrite (Z.pow_add_r 2 (e2 - e1 - 1) 1) by lia.
  assert (Hp : 0 < 2 ^ (e1 + 1074)) by (apply Z.pow_pos_nonneg; lia).
  assert (Hq : 1 <= 2 ^ (e2 - e1 - 1)).
  { apply (Z.pow_le_mono_r 2 0); lia. }
  rewrite Z.mul_assoc. apply Z.mul_lt_mono_pos_r; auto.
  change (2 ^ 1) with 2. change (53 - 1) with 52 in Hl.
  change (2 ^ 53) with (2 * 2 ^ 52) in Hm1.
  nia.
Qed.

Lemma finite_compare m1 e1 m2 e2 :
  bounded prec emax m1 e1 = true -> bounded prec emax m2 e2 = true ->
  match e1 ?= e2 with
  | Lt => Lt
  | Gt => Gt
  | Eq => Pos.compare_cont Eq m1 m2
  end = (Zpos m1 * 2 ^ (e1 + 1074) ?= Zpos m2 * 2 ^ (e2 + 1074)).
Proof.
  intros H1 H2. destruct (Z.compare_spec e1 e2) as [->|Hlt|Hgt].
  - assert (Hp : 0 < 2 ^ (e2 + 1074)).
    { apply bounded_inv in H2. apply Z.pow_pos_nonneg; lia. }
    rewrite <- Zmult_compare_compat_r by lia. reflexivity.
  - symmetry. apply Z.compare_lt_iff. now apply finite_lt.
  - symmetry. apply Z.compare_gt_iff. now apply finite_lt.
Qed.

Lemma compare_ord x y :
  valid_binary x = true -> valid_binary y = true ->
  is_nan x = false -> is_nan y = false ->
  SFcompare x y = Some (ord x ?= ord y).
Proof.
  intros Vx Vy Nx Ny.
  destruct x as [sx|sx| |sx mx ex], y as [sy|sy| |sy my ey];
    try discriminate; simpl in Vx, Vy; simpl SFcompare; unfold ord.
  all: try (assert (Rx := finite_range _ _ Vx)).
  all: try (assert (Ry := finite_range _ _ Vy)).
  all: assert (Ht : 0 < top) by (unfold top; apply Z.pow_pos_nonneg; lia).
  all: try (destruct sx; try destruct sy; cbv beta iota delta [cond_Zopp]; f_equal; symmetry;
       (reflexivity || (apply Z.compare_lt_iff; lia) || (apply Z.compare_gt_iff; lia)
        || (apply Z.compare_eq_iff; lia))).
  (* finite, finite *)
  destruct sx, sy; cbv beta iota delta [cond_Zopp]; f_equal.
  - rewrite Z.compare_opp. rewrite <- (finite_compare my ey mx ex) by assumption.
    rewrite (Z.compare_antisym ey ex). rewrite ZC4.
    destruct (ey ?= ex); simpl; try reflexivity.
    now rewrite CompOpp_involutive.
  - symmetry. apply Z.compare_lt_iff. lia.
  - symmetry. apply Z.compare_gt_iff. lia.
  - now apply finite_compare.
Qed.

Lemma compare_pos x y :
  nanb x = false -> nanb y = false ->
  SFcompare (Prim2SF x) (Prim2SF y) = Some (pos x ?= pos y).
Proof. intros; apply compare_ord; auto using Prim2SF_valid. Qed.

Lemma compare_nan x y :
  nanb x = true \/ nanb y = true -> SFcompare (Prim2SF x) (Prim2SF y) = None.
Proof.
  unfold nanb. destruct (Prim2SF x), (Prim2SF y); simpl; intuition discriminate.
Qed.

Lemma ltb_pos x y :
  PrimFloat.ltb x y = negb (nanb x) && negb (nanb y) && (pos x <? pos y).
Proof.
  rewrite FloatAxioms.ltb_spec. unfold SFltb.
  destruct (nanb x) eqn:Nx; [rewrite compare_nan by auto; reflexivity|].
  destruct (nanb y) eqn:Ny; [rewrite compare_nan by auto; reflexivity|].
  rewrite compare_pos by assumption. unfold Z.ltb. simpl.
  destruct (pos x ?= pos y); reflexivity.
Qed.

Lemma leb_pos x y :
  PrimFloat.leb x y = negb (nanb x) && negb (nanb y) && (pos x <=? pos y).
Proof.
  rewrite FloatAxioms.leb_spec. unfold SFleb.
  destruct (nanb x) eqn:Nx; [rewrite compare_nan by auto; reflexivity|].
  destruct (nanb y) eqn:Ny; [rewrite compare_nan by auto; reflexivity|].
  rewrite compare_pos by assumption. unfold Z.leb. simpl.
  destruct (pos x ?= pos y); reflexivity.
Qed.

Lemma is_nan_nanb x : PrimFloat.is_nan x = nanb x.
Proof.
  unfold PrimFloat.is_nan. rewrite FloatAxioms.eqb_spec. unfold SFeqb.
  destruct (nanb x) eqn:Nx; [rewrite compare_nan by auto; reflexivity|].
  rewrite compare_pos by assumption. now rewrite Z.compare_refl.
Qed.

End F64Facts.

(** ** Rounding to nearest in binary64

    The two operations applied to a percentile, a division and a
    multiplication, return the binary64 value nearest to the exact
    result.  This part derives that from the definitions of the
    standard library's specification of the format, on the integer line
    of [F64.ord], and concludes that both operations are monotone on
    positive values. *)

Module RoundingFacts.

Import Rounding.
Local Open Scope Z_scope.

Lemma represents_of_loc m r D :
  0 <= r < D -> represents (shr_record_of_loc m (loc_of r D)) (m * D + r) D.
Proof.
  intros Hr. unfold represents.
  assert (Hq : (m * D + r) / D = m).
  { rewrite Z.add_comm, Z.div_add by lia. rewrite Z.div_small by lia. lia. }
  assert (Hm : (m * D + r) mod D = r).
  { rewrite Z.add_comm, Z.mod_add by lia. apply Z.mod_small; lia. }
  rewrite Hq, Hm. unfold loc_of.
  destruct (r =? 0); [simpl; auto|].
  destruct (2 * r ?= D); simpl; auto.
Qed.

Lemma shr_1_represents mrs X D :
  0 <= X -> 0 < D -> represents mrs X D -> represents (shr_1 mrs) X (2 * D).
Proof.
  intros HX HD [Hm Hl].
  assert (Hq := Z.div_pos X D HX HD).
  assert (Hr := Z.mod_pos_bound X D HD).
  assert (Hdiv : X / (2 * D) = (X / D) / 2).
  { rewrite Z.div_div by lia. f_equal. lia. }
  assert (Hmod : X mod (2 * D) = X mod D + D * ((X / D) mod 2)).
  { rewrite (Z.mul_comm 2 D). apply Z.rem_mul_r; lia. }
  assert (Hpar := Z.mod_pos_bound (X / D) 2 eq_refl).
  assert (Hq2 := Z.div_mod (X / D) 2 ltac:(lia)).
  unfold represents. rewrite Hdiv, Hmod. clear Hdiv Hmod.
  destruct mrs as [m r s]. simpl in Hm, Hl. rewrite <- Hm in *.
  unfold loc_of in *.
  set (rho := X mod D) in *.
  assert (Hs : (r || s) = negb (rho =? 0)).
  { destruct (rho =? 0); destruct r, s; simpl in Hl; try discriminate; try reflexivity;
    destruct (2 * rho ?= D); discriminate. }
  destruct m as [|p|p]; [| |lia].
  - (* m = 0 *)
    change (0 mod 2) with 0 in *. change (0 / 2) with 0.
    rewrite Z.mul_0_r, Z.add_0_r. cbn [shr_1 shr_m loc_of_shr_record].
    rewrite Hs. split; [reflexivity|].
    destruct (Z.eqb_spec rho 0); cbn [negb]; [reflexivity|].
    replace (2 * rho ?= 2 * D) with Lt; [reflexivity|].
    symmetry. apply Z.compare_lt_iff. lia.
  - destruct p as [p|p|].
    + (* odd *)
      assert (Hodd : Z.pos p~1 mod 2 = 1).
      { rewrite Pos2Z.inj_xI. rewrite Z.add_comm, Z.mul_comm, Z.mod_add by lia. reflexivity. }
      assert (Hhalf : Z.pos p~1 / 2 = Z.pos p).
      { rewrite Pos2Z.inj_xI. rewrite Z.add_comm, Z.mul_comm, Z.div_add by lia. reflexivity. }
      rewrite Hodd, Hhalf. cbn [shr_1 shr_m loc_of_shr_record].
      rewrite Hs. split; [reflexivity|].
      destruct (Z.eqb_spec (rho + D * 1) 0) as [E|E]; [lia|].
      destruct (Z.eqb_spec rho 0) as [E0|E0]; cbn [negb].
      * replace (2 * (rho + D * 1) ?= 2 * D) with Eq; [reflexivity|].
        symmetry. apply Z.compare_eq_iff. lia.
      * replace (2 * (rho + D * 1) ?= 2 * D) with Gt; [reflexivity|].
        symmetry. apply Z.compare_gt_iff. lia.
    + (* even *)
      assert (Heven : Z.pos p~0 mod 2 = 0).
      { rewrite Pos2Z.inj_xO. rewrite Z.mul_comm, Z.mod_mul by lia. reflexivity. }
      assert (Hhalf : Z.pos p~0 / 2 = Z.pos p).
      { rewrite Pos2Z.inj_xO. rewrite Z.mul_comm, Z.div_mul by lia. reflexivity. }
      rewrite Heven, Hhalf. rewrite Z.mul_0_r, Z.add_0_r.
      cbn [shr_1 shr_m loc_of_shr_record]. rewrite Hs. split; [reflexivity|].
      destruct (Z.eqb_spec rho 0); cbn [negb]; [reflexivity|].
      replace (2 * rho ?= 2 * D) with Lt; [reflexivity|].
      symmetry. apply Z.compare_lt_iff. lia.
    + (* one *)
      change (1 mod 2) with 1. change (1 / 2) with 0.
      cbn [shr_1 shr_m loc_of_shr_record]. rewrite Hs. split; [reflexivity|].
      destruct (Z.eqb_spec (rho + D * 1) 0) as [E|E]; [lia|].
      destruct (Z.eqb_spec rho 0) as [E0|E0]; cbn [negb].
      * replace (2 * (rho + D * 1) ?= 2 * D) with Eq; [reflexivity|].
        symmetry. apply Z.compare_eq_iff. lia.
      * replace (2 * (rho + D * 1) ?= 2 * D) with Gt; [reflexivity|].
        symmetry. apply Z.compare_gt_iff. lia.
Qed.

Lemma pow2_xO p : 2 ^ Z.pos p~0 = 2 ^ Z.pos p * 2 ^ Z.pos p.
Proof.
  replace (Z.pos p~0) with (Z.pos p + Z.pos p) by lia. apply Z.pow_add_r; lia.
Qed.

Lemma pow2_xI p : 2 ^ Z.pos p~1 = 2 * (2 ^ Z.pos p * 2 ^ Z.pos p).
Proof.
  replace (Z.pos p~1) with (1 + (Z.pos p + Z.pos p)) by lia.
  rewrite !Z.pow_add_r by lia. reflexivity.
Qed.

Lemma iter_shr_1_represents p : forall mrs X D,
  0 <= X -> 0 < D -> represents mrs X D ->
  represents (iter_pos shr_1 p mrs) X (D * 2 ^ Zpos p).
Proof.
  induction p as [p IH|p IH|]; intros mrs X D HX HD H; simpl iter_pos.
  - assert (0 < 2 ^ Z.pos p) by (apply Z.pow_pos_nonneg; lia).
    apply shr_1_represents in H; try assumption.
    apply IH in H; try lia. apply IH in H; try nia.
    replace (D * 2 ^ Z.pos p~1) with (2 * D * 2 ^ Z.pos p * 2 ^ Z.pos p); [assumption|].
    rewrite pow2_xI. ring.
  - assert (0 < 2 ^ Z.pos p) by (apply Z.pow_pos_nonneg; lia).
    apply IH in H; try lia. apply IH in H; try nia.
    replace (D * 2 ^ Z.pos p~0) with (D * 2 ^ Z.pos p * 2 ^ Z.pos p); [assumption|].
    rewrite pow2_xO. ring.
  - apply shr_1_represents in H; try assumption.
    change (2 ^ 1) with 2. now rewrite Z.mul_comm.
Qed.

Lemma round_represented mrs X D :
  0 < D -> represents mrs X D ->
  round_nearest_even (shr_m mrs) (loc_of_shr_record mrs) = rne X D.
Proof.
  intros HD [Hm Hl]. rewrite Hm, Hl. unfold rne, loc_of, round_nearest_even.
  destruct (Z.eqb_spec (X mod D) 0) as [E|E].
  - rewrite E. destruct (Z.compare_spec (2 * 0) D); lia.
  - destruct (2 * (X mod D) ?= D); reflexivity.
Qed.

Lemma rne_floor X D : 0 < D -> X / D <= rne X D <= X / D + 1.
Proof.
  intros HD. unfold rne.
  destruct (2 * (X mod D) ?= D); [destruct (Z.even (X / D))|..]; lia.
Qed.

(** [z <= rne X D] exactly when [z - 1/2] is below [X / D], or equal to
    it with [z] even. *)
Lemma rne_ge_iff X D z :
  0 < D ->
  z <= rne X D <->
  (2 * z - 1) * D < 2 * X \/ ((2 * z - 1) * D = 2 * X /\ Z.even z = true).
Proof.
  intros HD.
  assert (Hdm := Z.div_mod X D ltac:(lia)).
  assert (Hr := Z.mod_pos_bound X D HD).
  unfold rne. set (q := X / D) in *. set (r := X mod D) in *.
  destruct (Z.compare_spec (2 * r) D) as [He|Hlt|Hgt].
  - destruct (Z.even q) eqn:Hev.
    + split.
      * intros Hz. left. nia.
      * intros [H|[H Hz]]; [nia|].
        assert (z = q + 1) by nia. subst z.
        rewrite Z.even_add, Hev in Hz. discriminate.
    + split.
      * intros Hz. destruct (Z.eq_dec z (q + 1)) as [->|Hne].
        -- right. split; [nia|]. rewrite Z.even_add, Hev. reflexivity.
        -- left. nia.
      * intros [H|[H Hz]]; nia.
  - split.
    + intros Hz. left. nia.
    + intros [H|[H Hz]]; nia.
  - split.
    + intros Hz. left. nia.
    + intros [H|[H Hz]]; nia.
Qed.

Lemma rne_monotone X1 D1 X2 D2 :
  0 < D1 -> 0 < D2 -> X1 * D2 <= X2 * D1 -> rne X1 D1 <= rne X2 D2.
Proof.
  intros H1 H2 Hle.
  apply rne_ge_iff; [assumption|].
  assert (H := proj1 (rne_ge_iff X1 D1 (rne X1 D1) H1) (Z.le_refl _)).
  set (z := rne X1 D1) in *.
  destruct H as [H|[H Hz]].
  - left. nia.
  - destruct (Z.eq_dec (X1 * D2) (X2 * D1)) as [E|E].
    + right. split; [nia|assumption].
    + left. nia.
Qed.

Lemma rne_exact m D : 0 < D -> rne (m * D) D = m.
Proof.
  intros HD. unfold rne. rewrite Z.mod_mul, Z.div_mul by lia.
  destruct (Z.compare_spec (2 * 0) D); lia.
Qed.

Lemma fexp_fexp64 x : fexp prec emax x = fexp64 x.
Proof. reflexivity. Qed.

Lemma pow2_pos k : 0 <= k -> 0 < 2 ^ k.
Proof. intros. apply Z.pow_pos_nonneg; lia. Qed.

Lemma Zdigits2_nonneg z : 0 <= Zdigits2 z.
Proof. destruct z; simpl; lia. Qed.

Lemma Zdigits2_bounds z : 0 < z -> 2 ^ (Zdigits2 z - 1) <= z < 2 ^ Zdigits2 z.
Proof.
  destruct z as [|p|p]; try lia. intros _. simpl Zdigits2.
  split; [apply F64Facts.digits_lower|apply F64Facts.digits_upper].
Qed.

Lemma Zdigits2_unique z k :
  2 ^ (k - 1) <= z < 2 ^ k -> 0 < k -> Zdigits2 z = k.
Proof.
  intros [Hl Hu] Hk.
  assert (Hz : 0 < z).
  { apply Z.lt_le_trans with (2 ^ (k - 1)); [apply pow2_pos; lia|assumption]. }
  destruct (Zdigits2_bounds z Hz) as [Hl' Hu'].
  assert (Hd := Zdigits2_nonneg z).
  destruct (Z.lt_trichotomy (Zdigits2 z) k) as [H|[H|H]]; [|assumption|].
  - assert (2 ^ Zdigits2 z <= 2 ^ (k - 1)) by (apply Z.pow_le_mono_r; lia). lia.
  - assert (2 ^ k <= 2 ^ (Zdigits2 z - 1)) by (apply Z.pow_le_mono_r; lia). lia.
Qed.

Lemma Zdigits2_le z k : 0 <= z < 2 ^ k -> 0 <= k -> Zdigits2 z <= k.
Proof.
  intros [Hz Hu] Hk. destruct (Z.eq_dec z 0) as [->|Hne]; [simpl; lia|].
  destruct (Zdigits2_bounds z ltac:(lia)) as [Hl' _].
  destruct (Z.le_gt_cases (Zdigits2 z) k) as [H|H]; [assumption|].
  assert (2 ^ k <= 2 ^ (Zdigits2 z - 1)) by (apply Z.pow_le_mono_r; lia). lia.
Qed.

(** The first shift of [binary_round_aux]. *)
Lemma shr_represents m r D e k :
  0 <= m -> 0 <= r < D -> 0 <= k ->
  exists mrs, shr (shr_record_of_loc m (loc_of r D)) e k = (mrs, e + k) /\
              represents mrs (m * D + r) (D * 2 ^ k).
Proof.
  intros Hm Hr Hk.
  assert (H0 := represents_of_loc m r D Hr).
  destruct k as [|p|p]; [| |lia].
  - exists (shr_record_of_loc m (loc_of r D)). simpl shr.
    rewrite Z.add_0_r, Z.mul_1_r. auto.
  - exists (iter_pos shr_1 p (shr_record_of_loc m (loc_of r D))). simpl shr.
    split; [reflexivity|]. apply iter_shr_1_represents; try assumption; nia.
Qed.

Lemma top_pow : F64.top = 2 ^ 2098.
Proof. reflexivity. Qed.

(** The last steps of [binary_round_aux] on a rounded mantissa. *)
Lemma renormalize_ord s m E :
  -1074 <= E ->
  (2 ^ 52 <= m <= 2 ^ 53 \/ (E = -1074 /\ 0 <= m <= 2 ^ 52)) ->
  let '(mrs, e') := shr_fexp prec emax m E loc_Exact in
  let res := match shr_m mrs with
             | Z0 => S754_zero s
             | Zpos p => if e' <=? emax - prec then S754_finite s p e' else S754_infinity s
             | Zneg _ => S754_nan
             end in
  F64.is_nan res = false /\
  F64.ord res = cond_Zopp s (Z.min (m * 2 ^ (E + 1074)) F64.top).
Proof.
  intros HE Hm. unfold shr_fexp. rewrite fexp_fexp64.
  assert (Hp : 0 < 2 ^ (E + 1074)) by (apply pow2_pos; lia).
  assert (Htop : F64.top = 2 ^ 53 * 2 ^ (971 + 1074)).
  { rewrite top_pow, <- Z.pow_add_r by lia. reflexivity. }
  assert (Hcases : (m = 2 ^ 53 /\ -1074 <= E) \/
                   (0 <= m < 2 ^ 53 /\ fexp64 (Zdigits2 m + E) = E)).
  { destruct Hm as [[Hl Hu]|[-> [Hl Hu]]].
    - destruct (Z.eq_dec m (2 ^ 53)) as [->|Hne]; [left; auto|right].
      split; [lia|]. rewrite (Zdigits2_unique m 53) by (change (53 - 1) with 52; lia).
      unfold fexp64. lia.
    - right. split; [lia|].
      assert (Zdigits2 m <= 53).
      { destruct (Z.eq_dec m (2 ^ 52)) as [->|Hne]; [reflexivity|].
        assert (Zdigits2 m <= 52) by (apply Zdigits2_le; lia). lia. }
      assert (Hd := Zdigits2_nonneg m). unfold fexp64. lia. }
  destruct Hcases as [[-> HE']|[[Hl Hu] Hf]].
  - (* carry: the mantissa is 2^53 and is shifted once *)
    change (Zdigits2 (2 ^ 53)) with 54.
    replace (fexp64 (54 + E) - E) with 1 by (unfold fexp64; lia).
    change (shr (shr_record_of_loc (2 ^ 53) loc_Exact) E 1)
      with (Build_shr_record (Z.pos 4503599627370496) false false, E + 1).
    cbv beta iota delta [shr_m].
    change (emax - prec) with 971.
    change (Z.pos 4503599627370496) with (2 ^ 52).
    destruct (Z.leb_spec (E + 1) 971) as [Hfin|Hinf];
      cbv beta iota delta [F64.is_nan F64.ord];
      (split; [reflexivity|]); f_equal.
    + rewrite Z.min_l.
      * replace (E + 1 + 1074) with (1 + (E + 1074)) by lia.
        rewrite Z.pow_add_r by lia. change (2 ^ 53) with (2 ^ 52 * 2 ^ 1).
        change (Z.pos 4503599627370496) with (2 ^ 52). ring.
      * rewrite Htop. apply Z.mul_le_mono_nonneg_l; [lia|].
        apply Z.pow_le_mono_r; lia.
    + rewrite Z.min_r; [reflexivity|].
      rewrite Htop. apply Z.mul_le_mono_nonneg_l; [lia|].
      apply Z.pow_le_mono_r; lia.
  - (* no further shift *)
    rewrite Hf, Z.sub_diag. cbn [shr shr_record_of_loc shr_m].
    change (emax - prec) with 971.
    destruct m as [|p|p]; [| |lia].
    + cbn [F64.is_nan F64.ord]. split; [reflexivity|].
      rewrite Z.mul_0_l, Z.min_l; [destruct s; reflexivity|].
      rewrite top_pow. apply Z.lt_le_incl, pow2_pos. lia.
    + destruct (Z.leb_spec E 971) as [Hfin|Hinf]; cbn [F64.is_nan F64.ord];
        (split; [reflexivity|]); f_equal.
      * rewrite Z.min_l; [reflexivity|].
        rewrite Htop. apply Z.lt_le_incl.
        apply Z.lt_le_trans with (2 ^ 53 * 2 ^ (E + 1074)).
        -- apply Z.mul_lt_mono_pos_r; assumption.
        -- apply Z.mul_le_mono_nonneg_l; [lia|]. apply Z.pow_le_mono_r; lia.
      * rewrite Z.min_r; [reflexivity|].
        destruct Hm as [[Hl' Hu']|[-> _]]; [|lia].
        apply Z.le_trans with (2 ^ 52 * 2 ^ (972 + 1074)).
        -- rewrite top_pow, <- Z.pow_add_r by lia. apply Z.pow_le_mono_r; lia.
        -- apply Z.le_trans with (Z.pos p * 2 ^ (972 + 1074)).
           ++ apply Z.mul_le_mono_nonneg_r; [|assumption].
              apply Z.lt_le_incl, pow2_pos. lia.
           ++ apply Z.mul_le_mono_nonneg_l; [lia|]. apply Z.pow_le_mono_r; lia.
Qed.

Lemma shifted_mantissa_bounds m e :
  0 <= m -> e <= fexp64 (Zdigits2 m + e) ->
  let E := fexp64 (Zdigits2 m + e) in
  2 ^ 52 <= m / 2 ^ (E - e) < 2 ^ 53 \/ (E = -1074 /\ 0 <= m / 2 ^ (E - e) < 2 ^ 52).
Proof.
  intros Hm Hk E. assert (Hd := Zdigits2_nonneg m).
  assert (Hp : 0 < 2 ^ (E - e)) by (apply pow2_pos; lia).
  destruct (Z.le_gt_cases (-1074) (Zdigits2 m + e - 53)) as [Hn|Hs].
  - left. assert (HE : E = Zdigits2 m + e - 53) by (unfold E, fexp64; lia).
    assert (Hpos : 0 < m).
    { destruct (Z.eq_dec m 0) as [->|]; [simpl in *; unfold fexp64 in *; lia|lia]. }
    destruct (Zdigits2_bounds m Hpos) as [Hl Hu].
    replace (E - e) with (Zdigits2 m - 53) in * by lia.
    split.
    + apply Z.div_le_lower_bound; [assumption|].
      rewrite <- Z.pow_add_r by lia.
      replace (Zdigits2 m - 53 + 52) with (Zdigits2 m - 1) by lia. assumption.
    + apply Z.div_lt_upper_bound; [assumption|].
      rewrite <- Z.pow_add_r by lia.
      replace (Zdigits2 m - 53 + 53) with (Zdigits2 m) by lia. assumption.
  - right. assert (HE : E = -1074) by (unfold E, fexp64; lia).
    split; [assumption|]. split; [apply Z.div_pos; lia|].
    apply Z.div_lt_upper_bound; [assumption|].
    rewrite <- Z.pow_add_r by lia.
    destruct (Z.eq_dec m 0) as [->|Hne]; [apply pow2_pos; lia|].
    destruct (Zdigits2_bounds m ltac:(lia)) as [_ Hu].
    apply Z.lt_le_trans with (2 ^ Zdigits2 m); [assumption|].
    apply Z.pow_le_mono_r; lia.
Qed.

(** What [binary_round_aux] returns, for a mantissa [m], the location
    of a fraction [r / D] and an exponent that asks for no left shift. *)
Theorem binary_round_aux_ord s m r D e :
  0 <= m -> 0 <= r < D -> e <= fexp64 (Zdigits2 m + e) ->
  F64.is_nan (binary_round_aux prec emax s m e (loc_of r D)) = false /\
  F64.ord (binary_round_aux prec emax s m e (loc_of r D)) =
    cond_Zopp s (rnd (m * D + r) D e).
Proof.
  intros Hm Hr Hk.
  assert (HD : 0 < D) by lia.
  assert (Hq : (m * D + r) / D = m).
  { rewrite Z.add_comm, Z.div_add by lia. rewrite Z.div_small by lia. lia. }
  unfold rnd. rewrite Hq.
  set (E := fexp64 (Zdigits2 m + e)) in *.
  assert (HE : -1074 <= E) by (unfold E, fexp64; lia).
  assert (Hp : 0 < 2 ^ (E - e)) by (apply pow2_pos; lia).
  destruct (shr_represents m r D e (E - e) Hm Hr ltac:(lia)) as (mrs & Hshr & Hrep).
  replace (e + (E - e)) with E in Hshr by lia.
  assert (Hres : binary_round_aux prec emax s m e (loc_of r D) =
                 let '(mrs'', e'') :=
                   shr_fexp prec emax (rne (m * D + r) (D * 2 ^ (E - e))) E loc_Exact in
                 match shr_m mrs'' with
                 | Z0 => S754_zero s
                 | Zpos p => if e'' <=? emax - prec then S754_finite s p e''
                             else S754_infinity s
                 | Zneg _ => S754_nan
                 end).
  { unfold binary_round_aux. unfold shr_fexp at 1. rewrite fexp_fexp64.
    fold E. rewrite Hshr.
    rewrite (round_represented mrs (m * D + r) (D * 2 ^ (E - e))) by (assumption || nia).
    reflexivity. }
  rewrite Hres. clear Hres.
  set (m'' := rne (m * D + r) (D * 2 ^ (E - e))).
  assert (Hfl := rne_floor (m * D + r) (D * 2 ^ (E - e)) ltac:(nia)).
  fold m'' in Hfl.
  rewrite <- Z.div_div in Hfl by lia. rewrite Hq in Hfl.
  assert (Hb := shifted_mantissa_bounds m e Hm Hk). fold E in Hb. cbv zeta in Hb.
  assert (Hm'' : 2 ^ 52 <= m'' <= 2 ^ 53 \/ (E = -1074 /\ 0 <= m'' <= 2 ^ 52)) by lia.
  pose proof (renormalize_ord s m'' E HE Hm'') as H.
  destruct (shr_fexp prec emax m'' E loc_Exact) as [mrs'' e''].
  exact H.
Qed.

Lemma val_le_scale X1 D1 e1 X2 D2 e2 a b :
  val_le X1 D1 e1 X2 D2 e2 -> 0 <= a -> 0 <= b -> a - b = e1 - e2 ->
  X1 * D2 * 2 ^ a <= X2 * D1 * 2 ^ b.
Proof.
  unfold val_le. intros H Ha Hb Hab.
  set (c := Z.min e1 e2) in *.
  set (t := a - (e1 - c)).
  assert (Ht : 0 <= t) by (unfold t, c; lia).
  replace a with ((e1 - c) + t) by (unfold t; lia).
  replace b with ((e2 - c) + t) by (unfold t; lia).
  rewrite !Z.pow_add_r by (unfold c; lia).
  assert (0 < 2 ^ t) by (apply pow2_pos; lia).
  rewrite !Z.mul_assoc. apply Z.mul_le_mono_nonneg_r; lia.
Qed.

Lemma rne_times_pow_monotone X1 D1 e1 X2 D2 e2 E :
  0 < D1 -> 0 < D2 -> e1 <= E -> e2 <= E ->
  val_le X1 D1 e1 X2 D2 e2 ->
  rne X1 (D1 * 2 ^ (E - e1)) <= rne X2 (D2 * 2 ^ (E - e2)).
Proof.
  intros H1 H2 He1 He2 Hle.
  assert (0 < 2 ^ (E - e1)) by (apply pow2_pos; lia).
  assert (0 < 2 ^ (E - e2)) by (apply pow2_pos; lia).
  apply rne_monotone; try nia.
  assert (H' := val_le_scale X1 D1 e1 X2 D2 e2 (E - e2) (E - e1) Hle
                  ltac:(lia) ltac:(lia) ltac:(lia)).
  lia.
Qed.

Theorem rnd_monotone X1 D1 e1 X2 D2 e2 :
  0 <= X1 -> 0 < D1 -> 0 <= X2 -> 0 < D2 ->
  e1 <= fexp64 (Zdigits2 (X1 / D1) + e1) ->
  e2 <= fexp64 (Zdigits2 (X2 / D2) + e2) ->
  val_le X1 D1 e1 X2 D2 e2 ->
  rnd X1 D1 e1 <= rnd X2 D2 e2.
Proof.
  intros HX1 HD1 HX2 HD2 Hk1 Hk2 Hle. unfold rnd.
  set (m1 := X1 / D1) in *. set (m2 := X2 / D2) in *.
  assert (Hm1 : 0 <= m1) by (apply Z.div_pos; lia).
  assert (Hm2 : 0 <= m2) by (apply Z.div_pos; lia).
  set (E1 := fexp64 (Zdigits2 m1 + e1)) in *.
  set (E2 := fexp64 (Zdigits2 m2 + e2)) in *.
  assert (HE1 : -1074 <= E1) by (unfold E1, fexp64; lia).
  assert (HE2 : -1074 <= E2) by (unfold E2, fexp64; lia).
  assert (Hp1 : 0 < 2 ^ (E1 - e1)) by (apply pow2_pos; lia).
  assert (Hp2 : 0 < 2 ^ (E2 - e2)) by (apply pow2_pos; lia).
  assert (Hb1 := shifted_mantissa_bounds m1 e1 Hm1 Hk1). fold E1 in Hb1. cbv zeta in Hb1.
  assert (Hb2 := shifted_mantissa_bounds m2 e2 Hm2 Hk2). fold E2 in Hb2. cbv zeta in Hb2.
  assert (Hf1 := rne_floor X1 (D1 * 2 ^ (E1 - e1)) ltac:(nia)).
  assert (Hf2 := rne_floor X2 (D2 * 2 ^ (E2 - e2)) ltac:(nia)).
  rewrite <- Z.div_div in Hf1, Hf2 by lia. fold m1 in Hf1. fold m2 in Hf2.
  apply Z.min_le_compat_r.
  destruct (Z.lt_trichotomy E1 E2) as [Hlt|[Heq|Hgt]].
  - (* the second value has a larger exponent *)
    apply Z.le_trans with (2 ^ 53 * 2 ^ (E1 + 1074)).
    + apply Z.mul_le_mono_nonneg_r; [apply Z.lt_le_incl, pow2_pos; lia|]. lia.
    + apply Z.le_trans with (2 ^ 52 * 2 ^ (E2 + 1074)).
      * replace (E2 + 1074) with ((E2 - E1 - 1) + 1 + (E1 + 1074)) by lia.
        rewrite (Z.pow_add_r 2 (E2 - E1 - 1 + 1) (E1 + 1074)) by lia.
        rewrite (Z.pow_add_r 2 (E2 - E1 - 1) 1) by lia.
        assert (1 <= 2 ^ (E2 - E1 - 1)) by (apply (Z.pow_le_mono_r 2 0); lia).
        assert (0 < 2 ^ (E1 + 1074)) by (apply pow2_pos; lia).
        change (2 ^ 53) with (2 ^ 52 * 2). change (2 ^ 1) with 2.
        assert (0 < 2 ^ 52) by reflexivity. nia.
      * apply Z.mul_le_mono_nonneg_r; [apply Z.lt_le_incl, pow2_pos; lia|]. lia.
  - (* same exponent *)
    rewrite <- Heq. apply Z.mul_le_mono_nonneg_r; [apply Z.lt_le_incl, pow2_pos; lia|].
    rewrite <- Heq in *. apply rne_times_pow_monotone; assumption.
  - (* impossible: the first value would be the larger *)
    exfalso.
    assert (Hd2 := Zdigits2_nonneg m2).
    assert (HE1n : E1 = Zdigits2 m1 + e1 - 53) by (unfold E1, fexp64 in *; lia).
    assert (HE2n : Zdigits2 m2 + e2 - 53 <= E2) by (unfold E2, fexp64; lia).
    assert (Hpos1 : 0 < m1).
    { destruct (Z.eq_dec m1 0) as [E0|]; [|lia].
      rewrite E0 in HE1n. simpl in HE1n. lia. }
    destruct (Zdigits2_bounds m1 Hpos1) as [Hl1 _].
    assert (Hu2 : m2 < 2 ^ Zdigits2 m2).
    { destruct (Z.eq_dec m2 0) as [->|]; [reflexivity|].
      apply Zdigits2_bounds. lia. }
    assert (HX1' : m1 * D1 <= X1).
    { unfold m1. rewrite Z.mul_comm. apply Z.mul_div_le. lia. }
    assert (HX2' : X2 < (m2 + 1) * D2).
    { unfold m2. assert (Hdm := Z.div_mod X2 D2 ltac:(lia)).
      assert (Hr := Z.mod_pos_bound X2 D2 HD2). nia. }
    unfold val_le in Hle. set (c := Z.min e1 e2) in *.
    assert (Hc1 : 0 <= e1 - c) by (unfold c; lia).
    assert (Hc2 : 0 <= e2 - c) by (unfold c; lia).
    assert (Hq1 : 0 < 2 ^ (e1 - c)) by (apply pow2_pos; lia).
    assert (Hq2 : 0 < 2 ^ (e2 - c)) by (apply pow2_pos; lia).
    (* lower bound of the left side *)
    assert (HL : D1 * D2 * 2 ^ (Zdigits2 m1 - 1 + (e1 - c)) <= X1 * D2 * 2 ^ (e1 - c)).
    { rewrite Z.pow_add_r by lia.
      assert (D1 * 2 ^ (Zdigits2 m1 - 1) <= X1) by nia.
      replace (D1 * D2 * (2 ^ (Zdigits2 m1 - 1) * 2 ^ (e1 - c)))
        with (D1 * 2 ^ (Zdigits2 m1 - 1) * (D2 * 2 ^ (e1 - c))) by ring.
      replace (X1 * D2 * 2 ^ (e1 - c)) with (X1 * (D2 * 2 ^ (e1 - c))) by ring.
      apply Z.mul_le_mono_nonneg_r; nia. }
    (* upper bound of the right side *)
    assert (HR : X2 * D1 * 2 ^ (e2 - c) < D1 * D2 * 2 ^ (Zdigits2 m2 + (e2 - c))).
    { rewrite Z.pow_add_r by lia.
      assert (X2 < D2 * 2 ^ Zdigits2 m2) by nia.
      replace (D1 * D2 * (2 ^ Zdigits2 m2 * 2 ^ (e2 - c)))
        with (D2 * 2 ^ Zdigits2 m2 * (D1 * 2 ^ (e2 - c))) by ring.
      replace (X2 * D1 * 2 ^ (e2 - c)) with (X2 * (D1 * 2 ^ (e2 - c))) by ring.
      apply Z.mul_lt_mono_pos_r; nia. }
    assert (Hpow : 2 ^ (Zdigits2 m2 + (e2 - c)) <= 2 ^ (Zdigits2 m1 - 1 + (e1 - c))).
    { apply Z.pow_le_mono_r; lia. }
    assert (0 < D1 * D2) by nia.
    assert (D1 * D2 * 2 ^ (Zdigits2 m2 + (e2 - c)) <=
            D1 * D2 * 2 ^ (Zdigits2 m1 - 1 + (e1 - c))).
    { apply Z.mul_le_mono_nonneg_l; lia. }
    lia.
Qed.

Lemma fexp64_monotone a b : a <= b -> fexp64 a <= fexp64 b.
Proof. unfold fexp64. lia. Qed.

Lemma Zdigits2_lower z k : 0 <= k -> 2 ^ k <= z -> k + 1 <= Zdigits2 z.
Proof.
  intros Hk Hz.
  assert (Hpos : 0 < z).
  { apply Z.lt_le_trans with (2 ^ k); [apply pow2_pos; lia|assumption]. }
  destruct (Zdigits2_bounds z Hpos) as [_ Hu].
  destruct (Z.le_gt_cases (k + 1) (Zdigits2 z)) as [H|H]; [assumption|].
  assert (2 ^ Zdigits2 z <= 2 ^ k).
  { apply Z.pow_le_mono_r; [lia|]. lia. }
  lia.
Qed.

(** *** Multiplication *)

Lemma mul_no_left_shift mx ex my ey :
  bounded prec emax mx ex = true -> bounded prec emax my ey = true ->
  ex + ey <= fexp64 (Zdigits2 (Zpos (mx * my)) + (ex + ey)).
Proof.
  intros Hx Hy. apply F64Facts.bounded_inv in Hx, Hy.
  destruct Hx as (Hex & Hdx & Hnx), Hy as (Hey & Hdy & Hny).
  assert (Hlx := F64Facts.digits_lower mx). assert (Hly := F64Facts.digits_lower my).
  assert (Hpx := F64Facts.digits_pos mx). assert (Hpy := F64Facts.digits_pos my).
  assert (Hd : F64.digits mx + F64.digits my - 1 <= Zdigits2 (Zpos (mx * my))).
  { replace (F64.digits mx + F64.digits my - 1)
      with ((F64.digits mx - 1) + (F64.digits my - 1) + 1) by lia.
    apply Zdigits2_lower; [lia|].
    rewrite Z.pow_add_r by lia. rewrite Pos2Z.inj_mul.
    apply Z.mul_le_mono_nonneg; try assumption;
      apply Z.lt_le_incl, pow2_pos; lia. }
  unfold fexp64. lia.
Qed.

Theorem SFmul_ord sx mx ex sy my ey :
  bounded prec emax mx ex = true -> bounded prec emax my ey = true ->
  F64.is_nan (SFmul prec emax (S754_finite sx mx ex) (S754_finite sy my ey)) = false /\
  F64.ord (SFmul prec emax (S754_finite sx mx ex) (S754_finite sy my ey)) =
    cond_Zopp (xorb sx sy) (rnd (Zpos mx * Zpos my) 1 (ex + ey)).
Proof.
  intros Hx Hy. cbn [SFmul].
  change loc_Exact with (loc_of 0 1).
  replace (Zpos mx * Zpos my) with (Zpos (mx * my) * 1 + 0) by (rewrite Pos2Z.inj_mul; ring).
  apply binary_round_aux_ord; try lia.
  now apply mul_no_left_shift.
Qed.

(** *** Division *)

Lemma new_location_loc_of D r :
  0 < D -> 0 <= r < D -> new_location D r = loc_of r D.
Proof.
  intros HD Hr. unfold new_location, new_location_even, new_location_odd, loc_of.
  destruct (Z.even D) eqn:Hev; [reflexivity|].
  destruct (Z.eqb_spec r 0); [reflexivity|]. f_equal.
  assert (Hodd : Z.odd D = true) by (rewrite <- Z.negb_even, Hev; reflexivity).
  apply Z.odd_spec in Hodd. destruct Hodd as [h Hh].
  destruct (Z.compare_spec (2 * r + 1) D), (Z.compare_spec (2 * r) D);
    try reflexivity; lia.
Qed.

Lemma div_shift_nonneg m1 e1 m2 e2 : 0 <= div_shift m1 e1 m2 e2.
Proof. unfold div_shift, div_exp. lia. Qed.

Lemma SFdiv_core_binary_spec m1 e1 m2 e2 :
  0 < m1 -> 0 < m2 ->
  let X := m1 * 2 ^ div_shift m1 e1 m2 e2 in
  SFdiv_core_binary prec emax m1 e1 m2 e2 =
    (X / m2, div_exp m1 e1 m2 e2, loc_of (X mod m2) m2).
Proof.
  intros H1 H2 X. unfold SFdiv_core_binary.
  rewrite fexp_fexp64. fold (div_exp m1 e1 m2 e2).
  fold (div_shift m1 e1 m2 e2).
  assert (Hs := div_shift_nonneg m1 e1 m2 e2).
  assert (HX : match div_shift m1 e1 m2 e2 with
               | Z0 => m1
               | Zpos _ => Z.shiftl m1 (div_shift m1 e1 m2 e2)
               | Zneg _ => 0
               end = X).
  { unfold X. destruct (div_shift m1 e1 m2 e2) eqn:E; [|rewrite Z.shiftl_mul_pow2|]; lia. }
  rewrite HX.
  assert (Hdiv : Z.div_eucl X m2 = (X / m2, X mod m2)).
  { unfold Z.div, Z.modulo. destruct (Z.div_eucl X m2); reflexivity. }
  rewrite Hdiv. rewrite new_location_loc_of; [reflexivity|lia|].
  apply Z.mod_pos_bound. lia.
Qed.

Lemma div_no_left_shift m1 e1 m2 e2 :
  0 < m1 -> 0 < m2 ->
  let X := m1 * 2 ^ div_shift m1 e1 m2 e2 in
  div_exp m1 e1 m2 e2 <= fexp64 (Zdigits2 (X / m2) + div_exp m1 e1 m2 e2).
Proof.
  intros H1 H2 X.
  assert (Hs := div_shift_nonneg m1 e1 m2 e2).
  set (s := div_shift m1 e1 m2 e2) in *.
  set (e' := div_exp m1 e1 m2 e2).
  assert (Hps : 0 < 2 ^ s) by (apply pow2_pos; lia).
  destruct (Zdigits2_bounds m1 H1) as [Hl1 _].
  destruct (Zdigits2_bounds m2 H2) as [_ Hu2].
  assert (Hd1 : 1 <= Zdigits2 m1) by (destruct m1; simpl; lia).
  assert (Hd2 := Zdigits2_nonneg m2).
  assert (Hq0 : 0 <= X / m2) by (apply Z.div_pos; unfold X; nia).
  assert (Hdq := Zdigits2_nonneg (X / m2)).
  assert (Hd : Zdigits2 m1 + s - Zdigits2 m2 <= Zdigits2 (X / m2)).
  { destruct (Z.le_gt_cases (Zdigits2 m1 + s - Zdigits2 m2) 0) as [Hsmall|Hbig]; [lia|].
    replace (Zdigits2 m1 + s - Zdigits2 m2)
      with ((Zdigits2 m1 - 1 + s - Zdigits2 m2) + 1) by lia.
    apply Zdigits2_lower; [lia|].
    apply Z.div_le_lower_bound; [lia|].
    apply Z.le_trans with (2 ^ Zdigits2 m2 * 2 ^ (Zdigits2 m1 - 1 + s - Zdigits2 m2)).
    - apply Z.mul_le_mono_nonneg_r; [apply Z.lt_le_incl, pow2_pos; lia|lia].
    - rewrite <- Z.pow_add_r by lia.
      replace (Zdigits2 m2 + (Zdigits2 m1 - 1 + s - Zdigits2 m2))
        with ((Zdigits2 m1 - 1) + s) by lia.
      rewrite Z.pow_add_r by lia. unfold X.
      apply Z.mul_le_mono_nonneg_r; lia. }
  apply Z.le_trans with (fexp64 (Zdigits2 m1 + e1 - (Zdigits2 m2 + e2))).
  - unfold e', div_exp. lia.
  - apply fexp64_monotone. unfold s, div_shift in Hd. fold e' in Hd. lia.
Qed.

Theorem SFdiv_ord sx mx ex sy my ey :
  let s := div_shift (Zpos mx) ex (Zpos my) ey in
  let e' := div_exp (Zpos mx) ex (Zpos my) ey in
  F64.is_nan (SFdiv prec emax (S754_finite sx mx ex) (S754_finite sy my ey)) = false /\
  F64.ord (SFdiv prec emax (S754_finite sx mx ex) (S754_finite sy my ey)) =
    cond_Zopp (xorb sx sy) (rnd (Zpos mx * 2 ^ s) (Zpos my) e').
Proof.
  intros s e'. cbn [SFdiv].
  rewrite SFdiv_core_binary_spec by lia. fold s. fold e'.
  set (X := Zpos mx * 2 ^ s).
  assert (Hs : 0 <= s) by apply div_shift_nonneg.
  assert (HX : 0 <= X) by (unfold X; assert (0 < 2 ^ s) by (apply pow2_pos; lia); nia).
  assert (Hdm := Z.div_mod X (Zpos my) ltac:(lia)).
  assert (Hr := Z.mod_pos_bound X (Zpos my) ltac:(lia)).
  pose proof (binary_round_aux_ord (xorb sx sy) (X / Zpos my) (X mod Zpos my)
                (Zpos my) e') as H.
  replace (X / Zpos my * Zpos my + X mod Zpos my) with X in H by lia.
  apply H; try lia.
  - apply Z.div_pos; lia.
  - apply div_no_left_shift; lia.
Qed.

(** *** Values that are already binary64 values *)

Lemma rnd_exact m e :
  0 <= m -> fexp64 (Zdigits2 m + e) = e -> m * 2 ^ (e + 1074) <= F64.top ->
  rnd m 1 e = m * 2 ^ (e + 1074).
Proof.
  intros Hm Hc Ht. unfold rnd. rewrite Z.div_1_r, Hc, Z.sub_diag.
  change (1 * 2 ^ 0) with 1.
  replace m with (m * 1) at 1 by lia. rewrite rne_exact by lia.
  apply Z.min_l. assumption.
Qed.

Lemma rnd_nonneg X D e : 0 <= X -> 0 < D -> 0 <= rnd X D e.
Proof.
  intros HX HD. unfold rnd.
  set (E := fexp64 (Zdigits2 (X / D) + e)).
  assert (HE : -1074 <= E) by (unfold E, fexp64; lia).
  apply Z.min_glb; [|rewrite top_pow; apply Z.lt_le_incl, pow2_pos; lia].
  apply Z.mul_nonneg_nonneg; [|apply Z.lt_le_incl, pow2_pos; lia].
  destruct (Z.le_gt_cases 0 (E - e)) as [Hk|Hk].
  - assert (0 < 2 ^ (E - e)) by (apply pow2_pos; lia).
    assert (H' := rne_floor X (D * 2 ^ (E - e)) ltac:(nia)).
    assert (0 <= X / (D * 2 ^ (E - e))) by (apply Z.div_pos; nia). lia.
  - rewrite Z.pow_neg_r by lia. rewrite Z.mul_0_r.
    unfold rne. rewrite Z.div_0_r, Z.mod_0_r by lia.
    destruct (2 * X ?= 0); simpl; lia.
Qed.

Lemma canonical_fexp64 m e :
  bounded prec emax m e = true -> fexp64 (Zdigits2 (Zpos m) + e) = e.
Proof.
  unfold bounded, canonical_mantissa. rewrite andb_true_iff, Z.eqb_eq.
  intros [H _]. exact H.
Qed.

Lemma pow_scale_le a b u v u' v' :
  0 <= u -> 0 <= v -> 0 <= u' -> 0 <= v' -> u - v = u' - v' ->
  a * 2 ^ u <= b * 2 ^ v -> a * 2 ^ u' <= b * 2 ^ v'.
Proof.
  intros Hu Hv Hu' Hv' Hd H.
  destruct (Z.le_gt_cases u u') as [Hle|Hgt].
  - replace u' with (u + (u' - u)) by lia. replace v' with (v + (u' - u)) by lia.
    rewrite !Z.pow_add_r by lia. rewrite !Z.mul_assoc.
    apply Z.mul_le_mono_nonneg_r; [apply Z.lt_le_incl, pow2_pos; lia|assumption].
  - replace u with (u' + (u - u')) in H by lia.
    replace v with (v' + (u - u')) in H by lia.
    rewrite !Z.pow_add_r in H by lia. rewrite !Z.mul_assoc in H.
    apply Z.mul_le_mono_pos_r in H; [assumption|apply pow2_pos; lia].
Qed.

(** *** Monotonicity of division and multiplication on positive values *)

Theorem SFdiv_monotone m1 e1 m2 e2 my ey :
  -1074 <= e1 -> -1074 <= e2 ->
  Zpos m1 * 2 ^ (e1 + 1074) <= Zpos m2 * 2 ^ (e2 + 1074) ->
  F64.ord (SFdiv prec emax (S754_finite false m1 e1) (S754_finite false my ey)) <=
  F64.ord (SFdiv prec emax (S754_finite false m2 e2) (S754_finite false my ey)).
Proof.
  intros He1 He2 Hle.
  destruct (SFdiv_ord false m1 e1 false my ey) as [_ ->].
  destruct (SFdiv_ord false m2 e2 false my ey) as [_ ->].
  cbn [xorb cond_Zopp].
  set (s1 := div_shift (Zpos m1) e1 (Zpos my) ey).
  set (s2 := div_shift (Zpos m2) e2 (Zpos my) ey).
  set (f1 := div_exp (Zpos m1) e1 (Zpos my) ey).
  set (f2 := div_exp (Zpos m2) e2 (Zpos my) ey).
  assert (Hs1 : 0 <= s1) by apply div_shift_nonneg.
  assert (Hs2 : 0 <= s2) by apply div_shift_nonneg.
  assert (Hp1 : 0 < 2 ^ s1) by (apply pow2_pos; lia).
  assert (Hp2 : 0 < 2 ^ s2) by (apply pow2_pos; lia).
  apply rnd_monotone; try nia.
  - apply div_no_left_shift; lia.
  - apply div_no_left_shift; lia.
  - unfold val_le. set (c := Z.min f1 f2).
    assert (Hc1 : 0 <= f1 - c) by (unfold c; lia).
    assert (Hc2 : 0 <= f2 - c) by (unfold c; lia).
    replace (Zpos m1 * 2 ^ s1 * Zpos my * 2 ^ (f1 - c))
      with (Zpos my * (Zpos m1 * 2 ^ (s1 + (f1 - c))))
      by (rewrite Z.pow_add_r by lia; ring).
    replace (Zpos m2 * 2 ^ s2 * Zpos my * 2 ^ (f2 - c))
      with (Zpos my * (Zpos m2 * 2 ^ (s2 + (f2 - c))))
      by (rewrite Z.pow_add_r by lia; ring).
    apply Z.mul_le_mono_nonneg_l; [lia|].
    apply (pow_scale_le _ _ (e1 + 1074) (e2 + 1074)); try lia.
    unfold s1, s2, div_shift. fold f1 f2. lia.
Qed.

Theorem SFmul_monotone mn en m1 e1 m2 e2 :
  bounded prec emax mn en = true ->
  bounded prec emax m1 e1 = true -> bounded prec emax m2 e2 = true ->
  Zpos m1 * 2 ^ (e1 + 1074) <= Zpos m2 * 2 ^ (e2 + 1074) ->
  F64.ord (SFmul prec emax (S754_finite false mn en) (S754_finite false m1 e1)) <=
  F64.ord (SFmul prec emax (S754_finite false mn en) (S754_finite false m2 e2)).
Proof.
  intros Hn H1 H2 Hle.
  destruct (SFmul_ord false mn en false m1 e1 Hn H1) as [_ ->].
  destruct (SFmul_ord false mn en false m2 e2 Hn H2) as [_ ->].
  cbn [xorb cond_Zopp].
  assert (He1 := F64Facts.bounded_inv _ _ H1). assert (He2 := F64Facts.bounded_inv _ _ H2).
  apply rnd_monotone; try lia.
  - rewrite Z.div_1_r, <- Pos2Z.inj_mul. now apply mul_no_left_shift.
  - rewrite Z.div_1_r, <- Pos2Z.inj_mul. now apply mul_no_left_shift.
  - unfold val_le. set (c := Z.min (en + e1) (en + e2)).
    rewrite !Z.mul_1_r.
    replace (Zpos mn * Zpos m1 * 2 ^ (en + e1 - c))
      with (Zpos mn * (Zpos m1 * 2 ^ (en + e1 - c))) by ring.
    replace (Zpos mn * Zpos m2 * 2 ^ (en + e2 - c))
      with (Zpos mn * (Zpos m2 * 2 ^ (en + e2 - c))) by ring.
    apply Z.mul_le_mono_nonneg_l; [lia|].
    apply (pow_scale_le _ _ (e1 + 1074) (e2 + 1074)); unfold c; lia.
Qed.

(** Multiplying by a value that is at most one does not increase. *)
Theorem SFmul_le_one mn en m1 e1 :
  bounded prec emax mn en = true -> bounded prec emax m1 e1 = true ->
  Zpos m1 * 2 ^ (e1 + 1074) <= 2 ^ 1074 ->
  F64.ord (SFmul prec emax (S754_finite false mn en) (S754_finite false m1 e1)) <=
  Zpos mn * 2 ^ (en + 1074).
Proof.
  intros Hn H1 Hle.
  destruct (SFmul_ord false mn en false m1 e1 Hn H1) as [_ ->].
  cbn [xorb cond_Zopp].
  assert (Hen := F64Facts.bounded_inv _ _ Hn). assert (He1 := F64Facts.bounded_inv _ _ H1).
  rewrite <- (rnd_exact (Zpos mn) en); try lia.
  - apply rnd_monotone; try lia.
    + rewrite Z.div_1_r, <- Pos2Z.inj_mul. now apply mul_no_left_shift.
    + rewrite Z.div_1_r, (canonical_fexp64 _ _ Hn). lia.
    + unfold val_le. set (c := Z.min (en + e1) en).
      rewrite !Z.mul_1_r.
      replace (Zpos mn * Zpos m1 * 2 ^ (en + e1 - c))
        with (Zpos mn * (Zpos m1 * 2 ^ (en + e1 - c))) by ring.
      apply Z.mul_le_mono_nonneg_l; [lia|].
      rewrite <- (Z.mul_1_l (2 ^ (en - c))).
      apply (pow_scale_le _ 1 (e1 + 1074) 1074); unfold c; lia.
  - now apply canonical_fexp64.
  - apply Z.lt_le_incl. now apply F64Facts.finite_range.
Qed.

Theorem SFmul_ge_one mn en m1 e1 :
  bounded prec emax mn en = true -> bounded prec emax m1 e1 = true ->
  2 ^ 1074 <= Zpos m1 * 2 ^ (e1 + 1074) ->
  Zpos mn * 2 ^ (en + 1074) <=
  F64.ord (SFmul prec emax (S754_finite false mn en) (S754_finite false m1 e1)).
Proof.
  intros Hn H1 Hle.
  destruct (SFmul_ord false mn en false m1 e1 Hn H1) as [_ ->].
  cbn [xorb cond_Zopp].
  assert (Hen := F64Facts.bounded_inv _ _ Hn). assert (He1 := F64Facts.bounded_inv _ _ H1).
  rewrite <- (rnd_exact (Zpos mn) en); try lia.
  - apply rnd_monotone; try lia.
    + rewrite Z.div_1_r, (canonical_fexp64 _ _ Hn). lia.
    + rewrite Z.div_1_r, <- Pos2Z.inj_mul. now apply mul_no_left_shift.
    + unfold val_le. set (c := Z.min en (en + e1)).
      rewrite !Z.mul_1_r.
      replace (Zpos mn * Zpos m1 * 2 ^ (en + e1 - c))
        with (Zpos mn * (Zpos m1 * 2 ^ (en + e1 - c))) by ring.
      apply Z.mul_le_mono_nonneg_l; [lia|].
      rewrite <- (Z.mul_1_l (2 ^ (en - c))).
      apply (pow_scale_le 1 _ 1074 (e1 + 1074)); unfold c; lia.
  - now apply canonical_fexp64.
  - apply Z.lt_le_incl. now apply F64Facts.finite_range.
Qed.

End RoundingFacts.

(** ** The index of a percentile

    For a percentile in (0, 100] and fewer than 2^53 values, the
    product [len * (pct / 100.0)] is a finite binary64 value between 0
    and [len], and it does not decrease when the percentile grows. *)

Module Percentile.

Import Rounding RoundingFacts.
Local Open Scope Z_scope.

(** The shapes a valid value can take, by its position. *)
Lemma positive_finite x :
  valid_binary x = true -> F64.is_nan x = false -> 0 < F64.ord x < F64.top ->
  exists m e, x = S754_finite false m e /\ bounded prec emax m e = true.
Proof.
  intros Hv Hn Ho.
  assert (Ht : 0 < F64.top) by (rewrite top_pow; apply pow2_pos; lia).
  destruct x as [s|s| |s m e]; cbn [F64.ord F64.is_nan valid_binary] in *;
    try discriminate; try lia.
  - destruct s; cbn [cond_Zopp] in Ho; lia.
  - destruct s; cbn [cond_Zopp] in Ho.
    + assert (0 < Zpos m * 2 ^ (e + 1074)) by (apply F64Facts.finite_range; assumption). lia.
    + eauto.
Qed.

Lemma nonneg_zero_or_finite x :
  valid_binary x = true -> F64.is_nan x = false -> 0 <= F64.ord x < F64.top ->
  (exists s, x = S754_zero s) \/
  (exists m e, x = S754_finite false m e /\ bounded prec emax m e = true).
Proof.
  intros Hv Hn Ho. destruct (Z.eq_dec (F64.ord x) 0) as [E|E].
  - left. destruct x as [s|s| |s m e]; cbn [F64.ord F64.is_nan valid_binary] in *;
      try discriminate; eauto.
    + assert (0 < F64.top) by (rewrite top_pow; apply pow2_pos; lia).
      destruct s; cbn [cond_Zopp] in E; lia.
    + assert (0 < Zpos m * 2 ^ (e + 1074)) by (apply F64Facts.finite_range; assumption).
      destruct s; cbn [cond_Zopp] in E; lia.
  - right. apply positive_finite; auto. lia.
Qed.

Lemma Pos_iter_xO m d : Zpos (Pos.iter xO m d) = Zpos m * 2 ^ Zpos d.
Proof.
  induction d as [|d IH] using Pos.peano_ind.
  - simpl. lia.
  - rewrite Pos.iter_succ, Pos2Z.inj_xO, IH, Pos2Z.inj_succ, Z.pow_succ_r by lia. ring.
Qed.

Lemma shl_align_spec mx ex ex' :
  ex' <= ex ->
  Zpos (fst (shl_align mx ex ex')) = Zpos mx * 2 ^ (ex - ex') /\
  snd (shl_align mx ex ex') = ex'.
Proof.
  intros H. unfold shl_align. destruct (ex' - ex) as [|d|d] eqn:E; try lia; simpl.
  - replace (ex - ex') with 0 by lia. rewrite Z.pow_0_r. split; lia.
  - rewrite Pos_iter_xO. replace (ex - ex') with (Zpos d) by lia. auto.
Qed.

(** Converting an integer below 2^53 to binary64 is exact. *)
Lemma binary_normalize_ord p :
  Zpos p < 2 ^ 53 ->
  F64.is_nan (binary_normalize prec emax (Zpos p) 0 false) = false /\
  F64.ord (binary_normalize prec emax (Zpos p) 0 false) = Zpos p * 2 ^ 1074.
Proof.
  intros Hp. cbn [binary_normalize]. unfold binary_round.
  rewrite fexp_fexp64.
  assert (Hd : 1 <= F64.digits p <= 53).
  { split; [apply Z.lt_pred_le, F64Facts.digits_pos|].
    apply (Zdigits2_le (Zpos p) 53); lia. }
  fold (F64.digits p).
  assert (Hf : fexp64 (F64.digits p + 0) = F64.digits p - 53) by (unfold fexp64; lia).
  rewrite Hf.
  destruct (shl_align_spec p 0 (F64.digits p - 53) ltac:(lia)) as [Hm He].
  destruct (shl_align p 0 (F64.digits p - 53)) as [mz ez]. cbn [fst snd] in Hm, He.
  subst ez. replace (0 - (F64.digits p - 53)) with (53 - F64.digits p) in Hm by lia.
  assert (Hlo := F64Facts.digits_lower p). assert (Hup := F64Facts.digits_upper p).
  assert (Hq : 0 < 2 ^ (53 - F64.digits p)) by (apply pow2_pos; lia).
  assert (Hdz : Zdigits2 (Zpos mz) = 53).
  { apply Zdigits2_unique; [|lia]. rewrite Hm.
    assert (H52 : 2 ^ (53 - 1) = 2 ^ (F64.digits p - 1) * 2 ^ (53 - F64.digits p)).
    { rewrite <- Z.pow_add_r by lia. f_equal. lia. }
    assert (H53 : 2 ^ 53 = 2 ^ F64.digits p * 2 ^ (53 - F64.digits p)).
    { rewrite <- Z.pow_add_r by lia. f_equal. lia. }
    rewrite H52, H53. split.
    - apply Z.mul_le_mono_nonneg_r; lia.
    - apply Z.mul_lt_mono_pos_r; lia. }
  change loc_Exact with (loc_of 0 1).
  assert (Hside : F64.digits p - 53 <= fexp64 (Zdigits2 (Zpos mz) + (F64.digits p - 53))).
  { rewrite Hdz. unfold fexp64. lia. }
  destruct (binary_round_aux_ord false (Zpos mz) 0 1 (F64.digits p - 53)
              ltac:(lia) ltac:(lia) Hside) as [Hn Ho].
  split; [assumption|]. rewrite Ho. cbn [cond_Zopp].
  replace (Zpos mz * 1 + 0) with (Zpos mz) by lia.
  rewrite rnd_exact; try lia.
  - rewrite Hm, <- Z.mul_assoc, <- Z.pow_add_r by lia. f_equal. f_equal. lia.
  - rewrite Hdz. unfold fexp64. lia.
  - rewrite Hm, <- Z.mul_assoc, <- Z.pow_add_r by lia.
    replace (53 - F64.digits p + (F64.digits p - 53 + 1074)) with 1074 by lia.
    rewrite top_pow. change 2098 with (53 + 2045).
    rewrite (Z.pow_add_r 2 53 2045) by lia.
    apply Z.mul_le_mono_nonneg; lia.
Qed.

Lemma float_of_len_finite n :
  (1 <= n)%nat -> Z.of_nat n < 2 ^ 53 ->
  exists m e, Prim2SF (Py.float_of_len n) = S754_finite false m e /\
              bounded prec emax m e = true /\
              Zpos m * 2 ^ (e + 1074) = Z.of_nat n * 2 ^ 1074.
Proof.
  intros H1 H2. unfold Py.float_of_len.
  assert (Hspec := of_uint63_spec (Uint63.of_Z (Z.of_nat n))).
  rewrite Uint63.of_Z_spec in Hspec.
  rewrite Z.mod_small in Hspec.
  2:{ split; [lia|]. apply Z.lt_trans with (2 ^ 53); [assumption|reflexivity]. }
  destruct (Z.of_nat n) as [|p|p] eqn:En; try lia.
  destruct (binary_normalize_ord p H2) as [Hn Ho].
  rewrite <- Hspec in Hn, Ho.
  destruct (positive_finite (Prim2SF (of_uint63 (Uint63.of_Z (Zpos p)))))
    as (m & e & Hf & Hb).
  - apply Prim2SF_valid.
  - assumption.
  - rewrite Ho. split; [assert (0 < 2 ^ 1074) by (apply pow2_pos; lia); lia|].
    rewrite top_pow. change 2098 with (53 + 2045).
    rewrite (Z.pow_add_r 2 53 2045) by lia.
    apply Z.mul_lt_mono_nonneg; lia.
  - exists m, e. rewrite Hf in Ho. simpl in Ho. auto.
Qed.

(** *** A percentile in (0, 100] *)

Lemma prim_100 : Prim2SF 100 = S754_finite false 7036874417766400 (-46).
Proof. reflexivity. Qed.

Lemma pos_100 : F64.pos 100 = 100 * 2 ^ 1074.
Proof.
  unfold F64.pos. rewrite prim_100. cbn [F64.ord cond_Zopp].
  change (Zpos 7036874417766400) with (100 * 2 ^ 46).
  rewrite <- Z.mul_assoc, <- Z.pow_add_r by lia. reflexivity.
Qed.

Lemma pos_0 : F64.pos 0 = 0.
Proof. reflexivity. Qed.

Lemma hundred_below_top : 100 * 2 ^ 1074 < F64.top.
Proof.
  rewrite top_pow. change 2098 with (1024 + 1074).
  rewrite (Z.pow_add_r 2 1024 1074) by lia.
  apply Z.mul_lt_mono_pos_r; [apply pow2_pos; lia|].
  apply Z.lt_le_trans with (2 ^ 7); [reflexivity|]. apply Z.pow_le_mono_r; lia.
Qed.

Lemma one_below_top : 2 ^ 1074 < F64.top.
Proof.
  assert (H := hundred_below_top). assert (0 < 2 ^ 1074) by (apply pow2_pos; lia). lia.
Qed.

Lemma percentile_finite p :
  PrimFloat.ltb 0 p = true -> PrimFloat.leb p 100 = true ->
  exists m e, Prim2SF p = S754_finite false m e /\ bounded prec emax m e = true /\
              Zpos m * 2 ^ (e + 1074) <= 100 * 2 ^ 1074.
Proof.
  intros Hlt Hle. rewrite F64Facts.ltb_pos in Hlt. rewrite F64Facts.leb_pos in Hle.
  apply andb_true_iff in Hlt as [Hlt Hpos]. apply andb_true_iff in Hlt as [_ Hn].
  apply andb_true_iff in Hle as [_ Hle].
  apply negb_true_iff in Hn. apply Z.ltb_lt in Hpos. apply Z.leb_le in Hle.
  rewrite pos_0 in Hpos. rewrite pos_100 in Hle.
  assert (Ht := hundred_below_top).
  destruct (positive_finite (Prim2SF p) (Prim2SF_valid p) Hn) as (m & e & Hf & Hb).
  { fold (F64.pos p). lia. }
  exists m, e. unfold F64.pos in Hle. rewrite Hf in Hle. auto.
Qed.

Lemma hundredth_of_hundred :
  F64.ord (SFdiv prec emax (S754_finite false 7036874417766400 (-46))
                           (S754_finite false 7036874417766400 (-46))) = 2 ^ 1074.
Proof.
  replace (SFdiv prec emax (S754_finite false 7036874417766400 (-46))
                           (S754_finite false 7036874417766400 (-46)))
    with (S754_finite false 4503599627370496 (-52)) by (vm_compute; reflexivity).
  cbn [F64.ord cond_Zopp]. change (Zpos 4503599627370496) with (2 ^ 52).
  rewrite <- Z.pow_add_r by lia. reflexivity.
Qed.

(** [p / 100.0] is not a NaN and lies between 0 and 1. *)
Lemma hundredth_range p :
  PrimFloat.ltb 0 p = true -> PrimFloat.leb p 100 = true ->
  F64.nanb (p / 100) = false /\ 0 <= F64.pos (p / 100) <= 2 ^ 1074.
Proof.
  intros Hlt Hle.
  destruct (percentile_finite p Hlt Hle) as (m & e & Hf & Hb & Hv).
  unfold F64.nanb, F64.pos. rewrite FloatAxioms.div_spec, Hf, prim_100.
  unfold SF64div.
  assert (He := F64Facts.bounded_inv _ _ Hb).
  destruct (SFdiv_ord false m e false 7036874417766400 (-46)) as [Hn Ho].
  split; [exact Hn|]. split.
  - rewrite Ho. cbn [xorb cond_Zopp].
    assert (0 < 2 ^ div_shift (Zpos m) e (Zpos 7036874417766400) (-46)).
    { apply pow2_pos, div_shift_nonneg. }
    apply rnd_nonneg; lia.
  - rewrite <- hundredth_of_hundred. apply SFdiv_monotone; lia.
Qed.

Lemma hundredth_monotone p1 p2 :
  PrimFloat.ltb 0 p1 = true -> PrimFloat.leb p1 p2 = true -> PrimFloat.leb p2 100 = true ->
  F64.pos (p1 / 100) <= F64.pos (p2 / 100).
Proof.
  intros H0 H12 H100.
  assert (H12' := H12). rewrite F64Facts.leb_pos in H12'.
  apply andb_true_iff in H12' as [Hnn H12']. apply andb_true_iff in Hnn as [Hn1 Hn2].
  apply Z.leb_le in H12'.
  assert (H1 : PrimFloat.leb p1 100 = true).
  { rewrite F64Facts.leb_pos in *. apply andb_true_iff in H100 as [Hb H100].
    apply andb_true_iff in Hb as [_ Hb]. rewrite Hn1, Hb. simpl.
    apply Z.leb_le. apply Z.leb_le in H100. lia. }
  assert (H2 : PrimFloat.ltb 0 p2 = true).
  { rewrite F64Facts.ltb_pos in *. apply andb_true_iff in H0 as [Ha H0].
    apply andb_true_iff in Ha as [Ha _]. rewrite Ha, Hn2. simpl.
    apply Z.ltb_lt. apply Z.ltb_lt in H0. lia. }
  destruct (percentile_finite p1 H0 H1) as (m1 & e1 & Hf1 & Hb1 & _).
  destruct (percentile_finite p2 H2 H100) as (m2 & e2 & Hf2 & Hb2 & _).
  unfold F64.pos in *. rewrite !FloatAxioms.div_spec, prim_100.
  unfold SF64div. rewrite Hf1, Hf2 in *. cbn [F64.ord cond_Zopp] in H12'.
  assert (He1 := F64Facts.bounded_inv _ _ Hb1). assert (He2 := F64Facts.bounded_inv _ _ Hb2).
  apply SFdiv_monotone; lia.
Qed.

(** *** The product [len * (p / 100.0)] *)

Lemma unit_factor_shape x :
  unit_factor x ->
  (exists s, Prim2SF x = S754_zero s) \/
  (exists m e, Prim2SF x = S754_finite false m e /\ bounded prec emax m e = true /\
               Zpos m * 2 ^ (e + 1074) <= 2 ^ 1074).
Proof.
  intros [Hn [H0 H1]]. assert (Ht := one_below_top).
  destruct (nonneg_zero_or_finite (Prim2SF x) (Prim2SF_valid x) Hn) as [Hz|(m & e & Hf & Hb)].
  - fold (F64.pos x). lia.
  - left. exact Hz.
  - right. exists m, e. unfold F64.pos in H1. rewrite Hf in H1. auto.
Qed.

Lemma product_range n x :
  (1 <= n)%nat -> Z.of_nat n < 2 ^ 53 -> unit_factor x ->
  F64.nanb (Py.float_of_len n * x) = false /\
  0 <= F64.pos (Py.float_of_len n * x) <= Z.of_nat n * 2 ^ 1074.
Proof.
  intros Hn1 Hn2 Hx.
  destruct (float_of_len_finite n Hn1 Hn2) as (mn & en & HN & HbN & HvN).
  assert (Hp : 0 < 2 ^ 1074) by (apply pow2_pos; lia).
  unfold F64.nanb, F64.pos. rewrite FloatAxioms.mul_spec, HN. unfold SF64mul.
  destruct (unit_factor_shape x Hx) as [[s Hz]|(m & e & Hf & Hb & Hv)].
  - rewrite Hz. cbn [SFmul F64.is_nan F64.ord]. split; [reflexivity|lia].
  - rewrite Hf. destruct (SFmul_ord false mn en false m e HbN Hb) as [Hnan Ho].
    split; [exact Hnan|]. split.
    + rewrite Ho. cbn [xorb cond_Zopp]. apply rnd_nonneg; lia.
    + rewrite <- HvN. now apply SFmul_le_one.
Qed.

Lemma product_monotone n x1 x2 :
  (1 <= n)%nat -> Z.of_nat n < 2 ^ 53 -> unit_factor x1 -> unit_factor x2 ->
  F64.pos x1 <= F64.pos x2 ->
  F64.pos (Py.float_of_len n * x1) <= F64.pos (Py.float_of_len n * x2).
Proof.
  intros Hn1 Hn2 Hx1 Hx2 Hle.
  destruct (product_range n x2 Hn1 Hn2 Hx2) as [_ [H0 _]].
  destruct (float_of_len_finite n Hn1 Hn2) as (mn & en & HN & HbN & HvN).
  unfold F64.pos in *. rewrite !FloatAxioms.mul_spec, HN in *. unfold SF64mul in *.
  destruct (unit_factor_shape x1 Hx1) as [[s1 Hz1]|(m1 & e1 & Hf1 & Hb1 & Hv1)].
  - rewrite Hz1. cbn [SFmul F64.ord]. exact H0.
  - destruct (unit_factor_shape x2 Hx2) as [[s2 Hz2]|(m2 & e2 & Hf2 & Hb2 & Hv2)].
    + rewrite Hf1, Hz2 in Hle. cbn [F64.ord cond_Zopp] in Hle.
      assert (0 < Zpos m1 * 2 ^ (e1 + 1074)) by (now apply F64Facts.finite_range). lia.
    + rewrite Hf1, Hf2 in *. cbn [F64.ord cond_Zopp] in Hle.
      now apply SFmul_monotone.
Qed.

(** *** Truncation *)

Lemma shiftl_scaled m e :
  -1074 <= e -> Z.shiftl (Zpos m) e = Zpos m * 2 ^ (e + 1074) / 2 ^ 1074.
Proof.
  intros He. assert (Hp : 0 < 2 ^ 1074) by (apply pow2_pos; lia).
  destruct (Z.le_gt_cases 0 e) as [Hpos|Hneg].
  - rewrite Z.shiftl_mul_pow2 by assumption.
    rewrite Z.pow_add_r, Z.mul_assoc by lia. rewrite Z.div_mul by lia. reflexivity.
  - rewrite Z.shiftl_div_pow2 by lia.
    assert (H : 2 ^ 1074 = 2 ^ (- e) * 2 ^ (e + 1074)).
    { rewrite <- Z.pow_add_r by lia. f_equal. lia. }
    rewrite H.
    rewrite Z.div_mul_cancel_r; [reflexivity| |];
      apply Z.neq_sym, Z.lt_neq, pow2_pos; lia.
Qed.

Lemma int_of_float_nonneg y :
  F64.nanb y = false -> 0 <= F64.pos y < F64.top ->
  Py.int_of_float y = Py.Ok (F64.pos y / 2 ^ 1074).
Proof.
  intros Hn Ho. unfold Py.int_of_float, F64.pos in *.
  destruct (nonneg_zero_or_finite (Prim2SF y) (Prim2SF_valid y) Hn Ho)
    as [[s Hz]|(m & e & Hf & Hb)].
  - rewrite Hz. reflexivity.
  - rewrite Hf. cbn [F64.ord cond_Zopp]. f_equal.
    apply shiftl_scaled. apply F64Facts.bounded_inv in Hb. lia.
Qed.

(** *** The index *)

Theorem threshold_idx_scaled n p :
  (1 <= n)%nat -> Z.of_nat n < 2 ^ 53 ->
  PrimFloat.ltb 0 p = true -> PrimFloat.leb p 100 = true ->
  threshold_idx n p =
    Py.Ok (Z.max 0 (F64.pos (Py.float_of_len n * (p / 100)) / 2 ^ 1074 - 1)) /\
  0 <= F64.pos (Py.float_of_len n * (p / 100)) / 2 ^ 1074 <= Z.of_nat n.
Proof.
  intros Hn1 Hn2 H0 H100.
  assert (Hx : unit_factor (p / 100)) by (now apply hundredth_range).
  destruct (product_range n (p / 100)%float Hn1 Hn2 Hx) as [Hnan [Hlo Hhi]].
  assert (Hp : 0 < 2 ^ 1074) by (apply pow2_pos; lia).
  assert (Ht : Z.of_nat n * 2 ^ 1074 < F64.top).
  { rewrite top_pow. change 2098 with (1024 + 1074).
    rewrite (Z.pow_add_r 2 1024 1074) by lia.
    apply Z.mul_lt_mono_pos_r; [assumption|].
    apply Z.lt_le_trans with (2 ^ 53); [assumption|]. apply Z.pow_le_mono_r; lia. }
  split.
  - unfold threshold_idx. rewrite int_of_float_nonneg by (assumption || lia).
    reflexivity.
  - split; [apply Z.div_pos; lia|].
    apply Z.div_le_upper_bound; lia.
Qed.

Theorem threshold_idx_in_range n p :
  (1 <= n)%nat -> Z.of_nat n < 2 ^ 53 ->
  PrimFloat.ltb 0 p = true -> PrimFloat.leb p 100 = true ->
  exists i, threshold_idx n p = Py.Ok i /\ 0 <= i <= Z.of_nat n - 1.
Proof.
  intros Hn1 Hn2 H0 H100.
  destruct (threshold_idx_scaled n p Hn1 Hn2 H0 H100) as [Heq Hk].
  eexists. split; [exact Heq|]. lia.
Qed.

Theorem threshold_idx_monotone n p1 p2 :
  (1 <= n)%nat -> Z.of_nat n < 2 ^ 53 ->
  PrimFloat.ltb 0 p1 = true -> PrimFloat.leb p1 p2 = true -> PrimFloat.leb p2 100 = true ->
  exists i1 i2, threshold_idx n p1 = Py.Ok i1 /\ threshold_idx n p2 = Py.Ok i2 /\
                0 <= i1 <= i2 /\ i2 <= Z.of_nat n - 1.
Proof.
  intros Hn1 Hn2 H0 H12 H100.
  assert (H12' := H12). rewrite F64Facts.leb_pos in H12'.
  apply andb_true_iff in H12' as [Hnn H12']. apply andb_true_iff in Hnn as [Hnp1 Hnp2].
  apply Z.leb_le in H12'.
  assert (H1 : PrimFloat.leb p1 100 = true).
  { rewrite F64Facts.leb_pos in *. apply andb_true_iff in H100 as [Hb H100].
    apply andb_true_iff in Hb as [_ Hb]. rewrite Hnp1, Hb. simpl.
    apply Z.leb_le. apply Z.leb_le in H100. lia. }
  assert (H2 : PrimFloat.ltb 0 p2 = true).
  { rewrite F64Facts.ltb_pos in *. apply andb_true_iff in H0 as [Ha H0].
    apply andb_true_iff in Ha as [Ha _]. rewrite Ha, Hnp2. simpl.
    apply Z.ltb_lt. apply Z.ltb_lt in H0. lia. }
  destruct (threshold_idx_scaled n p1 Hn1 Hn2 H0 H1) as [Heq1 Hk1].
  destruct (threshold_idx_scaled n p2 Hn1 Hn2 H2 H100) as [Heq2 Hk2].
  assert (Hmono : F64.pos (Py.float_of_len n * (p1 / 100)) <=
                  F64.pos (Py.float_of_len n * (p2 / 100))).
  { apply product_monotone; try assumption.
    - now apply hundredth_range.
    - now apply hundredth_range.
    - now apply hundredth_monotone. }
  assert (Hp : 0 < 2 ^ 1074) by (apply pow2_pos; lia).
  assert (Hdiv := Z.div_le_mono _ _ (2 ^ 1074) Hp Hmono).
  eexists. eexists. split; [exact Heq1|]. split; [exact Heq2|]. lia.
Qed.

(** *** Percentiles outside (0, 100] *)

Lemma top_positive : 0 < F64.top.
Proof. rewrite top_pow. apply pow2_pos. lia. Qed.

Lemma nonpositive_shape x :
  valid_binary x = true -> F64.is_nan x = false -> F64.ord x <= 0 ->
  (exists s, x = S754_zero s) \/ x = S754_infinity true \/
  (exists m e, x = S754_finite true m e /\ bounded prec emax m e = true).
Proof.
  intros Hv Hn Ho. assert (Ht := top_positive).
  destruct x as [s|s| |s m e]; cbn [F64.ord F64.is_nan valid_binary] in *;
    try discriminate.
  - left. eauto.
  - right. left. destruct s; [reflexivity|cbn [cond_Zopp] in Ho; lia].
  - right. right. destruct s; [eauto|].
    cbn [cond_Zopp] in Ho.
    assert (0 < Zpos m * 2 ^ (e + 1074)) by (now apply F64Facts.finite_range). lia.
Qed.

Lemma positive_shape x :
  valid_binary x = true -> F64.is_nan x = false -> 0 < F64.ord x ->
  x = S754_infinity false \/
  (exists m e, x = S754_finite false m e /\ bounded prec emax m e = true).
Proof.
  intros Hv Hn Ho. assert (Ht := top_positive).
  destruct x as [s|s| |s m e]; cbn [F64.ord F64.is_nan valid_binary] in *;
    try discriminate; try lia.
  - left. destruct s; [cbn [cond_Zopp] in Ho; lia|reflexivity].
  - right. destruct s; [|eauto].
    cbn [cond_Zopp] in Ho.
    assert (0 < Zpos m * 2 ^ (e + 1074)) by (now apply F64Facts.finite_range). lia.
Qed.

(** A percentile that is zero or negative. *)
Lemma hundredth_nonpositive p :
  PrimFloat.leb p 0 = true ->
  F64.nanb (p / 100) = false /\ F64.pos (p / 100) <= 0.
Proof.
  intros Hle. rewrite F64Facts.leb_pos in Hle.
  apply andb_true_iff in Hle as [Hn Hle]. apply andb_true_iff in Hn as [Hn _].
  apply negb_true_iff in Hn. apply Z.leb_le in Hle. rewrite pos_0 in Hle.
  assert (Ht := top_positive).
  unfold F64.nanb, F64.pos. rewrite FloatAxioms.div_spec, prim_100. unfold SF64div.
  destruct (nonpositive_shape (Prim2SF p) (Prim2SF_valid p) Hn Hle)
    as [[s ->]|[->|(m & e & -> & Hb)]].
  - cbn [SFdiv F64.is_nan F64.ord]. split; [reflexivity|lia].
  - cbn [SFdiv F64.is_nan F64.ord xorb cond_Zopp]. split; [reflexivity|lia].
  - destruct (SFdiv_ord true m e false 7036874417766400 (-46)) as [Hnan Ho].
    split; [exact Hnan|]. rewrite Ho. cbn [xorb cond_Zopp].
    assert (0 < 2 ^ div_shift (Zpos m) e (Zpos 7036874417766400) (-46)).
    { apply pow2_pos, div_shift_nonneg. }
    assert (0 <= rnd (Zpos m * 2 ^ div_shift (Zpos m) e (Zpos 7036874417766400) (-46))
                     (Zpos 7036874417766400)
                     (div_exp (Zpos m) e (Zpos 7036874417766400) (-46))).
    { apply rnd_nonneg; lia. }
    lia.
Qed.

Lemma product_nonpositive n x :
  (1 <= n)%nat -> Z.of_nat n < 2 ^ 53 ->
  F64.nanb x = false -> F64.pos x <= 0 ->
  F64.nanb (Py.float_of_len n * x) = false /\ F64.pos (Py.float_of_len n * x) <= 0.
Proof.
  intros Hn1 Hn2 Hnan Hle.
  destruct (float_of_len_finite n Hn1 Hn2) as (mn & en & HN & HbN & HvN).
  assert (Ht := top_positive).
  unfold F64.nanb, F64.pos in *. rewrite FloatAxioms.mul_spec, HN. unfold SF64mul.
  destruct (nonpositive_shape (Prim2SF x) (Prim2SF_valid x) Hnan Hle)
    as [[s ->]|[->|(m & e & -> & Hb)]].
  - cbn [SFmul F64.is_nan F64.ord]. split; [reflexivity|lia].
  - cbn [SFmul F64.is_nan F64.ord xorb cond_Zopp]. split; [reflexivity|lia].
  - destruct (SFmul_ord false mn en true m e HbN Hb) as [Hnan' Ho].
    split; [exact Hnan'|]. rewrite Ho. cbn [xorb cond_Zopp].
    assert (0 <= rnd (Zpos mn * Zpos m) 1 (en + e)) by (apply rnd_nonneg; lia).
    lia.
Qed.

Lemma int_of_float_nonpositive y :
  F64.nanb y = false -> F64.pos y <= 0 ->
  Py.int_of_float y = Py.Raise Py.OverflowError \/
  exists k, Py.int_of_float y = Py.Ok k /\ k <= 0.
Proof.
  intros Hn Ho. unfold Py.int_of_float, F64.nanb, F64.pos in *.
  destruct (nonpositive_shape (Prim2SF y) (Prim2SF_valid y) Hn Ho)
    as [[s ->]|[->|(m & e & -> & Hb)]].
  - right. exists 0. split; [reflexivity|lia].
  - left. reflexivity.
  - right. eexists. split; [reflexivity|]. cbn [cond_Zopp].
    assert (0 <= Z.shiftl (Zpos m) e) by (apply Z.shiftl_nonneg; lia). lia.
Qed.

(** A percentile above 100. *)
Lemma hundredth_above_one p :
  PrimFloat.ltb 100 p = true ->
  F64.nanb (p / 100) = false /\ 2 ^ 1074 <= F64.pos (p / 100).
Proof.
  intros Hlt. rewrite F64Facts.ltb_pos in Hlt.
  apply andb_true_iff in Hlt as [Hn Hlt]. apply andb_true_iff in Hn as [_ Hn].
  apply negb_true_iff in Hn. apply Z.ltb_lt in Hlt. rewrite pos_100 in Hlt.
  assert (Ht := top_positive). assert (Hone := one_below_top).
  assert (Hp : 0 < 2 ^ 1074) by (apply pow2_pos; lia).
  unfold F64.nanb, F64.pos in *. rewrite FloatAxioms.div_spec, prim_100. unfold SF64div.
  destruct (positive_shape (Prim2SF p) (Prim2SF_valid p) Hn ltac:(lia))
    as [Hf|(m & e & Hf & Hb)]; rewrite Hf in *.
  - cbn [SFdiv F64.is_nan F64.ord xorb cond_Zopp]. split; [reflexivity|lia].
  - destruct (SFdiv_ord false m e false 7036874417766400 (-46)) as [Hnan _].
    split; [exact Hnan|]. rewrite <- hundredth_of_hundred.
    assert (He := F64Facts.bounded_inv _ _ Hb). cbn [F64.ord cond_Zopp] in Hlt.
    apply SFdiv_monotone; lia.
Qed.

Lemma product_above_len n x :
  (1 <= n)%nat -> Z.of_nat n < 2 ^ 53 ->
  F64.nanb x = false -> 2 ^ 1074 <= F64.pos x ->
  F64.nanb (Py.float_of_len n * x) = false /\
  Z.of_nat n * 2 ^ 1074 <= F64.pos (Py.float_of_len n * x).
Proof.
  intros Hn1 Hn2 Hnan Hle.
  destruct (float_of_len_finite n Hn1 Hn2) as (mn & en & HN & HbN & HvN).
  assert (Ht := top_positive). assert (Hp : 0 < 2 ^ 1074) by (apply pow2_pos; lia).
  assert (HNt := F64Facts.finite_range _ _ HbN).
  unfold F64.nanb, F64.pos in *. rewrite FloatAxioms.mul_spec, HN. unfold SF64mul.
  destruct (positive_shape (Prim2SF x) (Prim2SF_valid x) Hnan ltac:(lia))
    as [Hf|(m & e & Hf & Hb)]; rewrite Hf in *.
  - cbn [SFmul F64.is_nan F64.ord xorb cond_Zopp]. split; [reflexivity|lia].
  - destruct (SFmul_ord false mn en false m e HbN Hb) as [Hnan' _].
    split; [exact Hnan'|]. rewrite <- HvN.
    cbn [F64.ord cond_Zopp] in Hle. now apply SFmul_ge_one.
Qed.

Lemma int_of_float_positive y :
  F64.nanb y = false -> 0 < F64.pos y ->
  Py.int_of_float y = Py.Raise Py.OverflowError \/
  Py.int_of_float y = Py.Ok (F64.pos y / 2 ^ 1074).
Proof.
  intros Hn Ho. unfold Py.int_of_float, F64.nanb, F64.pos in *.
  destruct (positive_shape (Prim2SF y) (Prim2SF_valid y) Hn Ho)
    as [->|(m & e & -> & Hb)].
  - left. reflexivity.
  - right. cbn [F64.ord cond_Zopp]. f_equal.
    apply shiftl_scaled. apply F64Facts.bounded_inv in Hb. lia.
Qed.

End Percentile.

(** ** Ratios and signs

    The rates the program prints are ratios of two counts scaled by
    100, and the stop amount is a product of three factors divided by
    100; what matters of them is their range and their sign. *)

Module Ratio.

Import Rounding RoundingFacts Percentile.
Local Open Scope Z_scope.

Lemma SFmul_comm x y : SFmul prec emax x y = SFmul prec emax y x.
Proof.
  destruct x as [sx|sx| |sx mx ex], y as [sy|sy| |sy my ey]; simpl;
    rewrite ?(xorb_comm sx sy); try reflexivity.
  rewrite (Pos.mul_comm mx my), (Z.add_comm ex ey). reflexivity.
Qed.

Lemma mul_comm (x y : float) : (x * y)%float = (y * x)%float.
Proof.
  apply FloatAxioms.Prim2SF_inj. rewrite !FloatAxioms.mul_spec.
  unfold SF64mul. apply SFmul_comm.
Qed.

(** A positive value divided by itself is 1. *)
Lemma SFdiv_self m e :
  F64.ord (SFdiv prec emax (S754_finite false m e) (S754_finite false m e)) = 2 ^ 1074.
Proof.
  destruct (SFdiv_ord false m e false m e) as [_ Ho]. rewrite Ho. clear Ho.
  cbn [xorb cond_Zopp].
  assert (He : div_exp (Zpos m) e (Zpos m) e = -53).
  { unfold div_exp. replace (Zdigits2 (Z.pos m) + e - (Zdigits2 (Z.pos m) + e)) with 0 by lia.
    unfold fexp64. lia. }
  assert (Hs : div_shift (Zpos m) e (Zpos m) e = 53).
  { unfold div_shift. rewrite He. lia. }
  rewrite He, Hs. unfold rnd.
  assert (Hq : Zpos m * 2 ^ 53 / Zpos m = 2 ^ 53).
  { rewrite Z.mul_comm. apply Z.div_mul. lia. }
  rewrite Hq.
  assert (Hd : Zdigits2 (2 ^ 53) = 54) by (apply Zdigits2_unique; lia).
  rewrite Hd. replace (fexp64 (54 + -53)) with (-52) by (unfold fexp64; lia).
  cbv zeta.
  replace (-52 - -53) with 1 by lia. replace (-52 + 1074) with 1022 by lia.
  replace (Zpos m * 2 ^ 53) with (2 ^ 52 * (Zpos m * 2 ^ 1)).
  2:{ change (2 ^ 53) with (2 ^ 52 * 2 ^ 1). ring. }
  rewrite rne_exact by lia.
  rewrite <- Z.pow_add_r by lia. change (52 + 1022) with 1074.
  assert (H := one_below_top). lia.
Qed.

Lemma float_of_len_zero : Prim2SF (Py.float_of_len 0) = S754_zero false.
Proof. reflexivity. Qed.

Lemma float_of_len_hundred : Py.float_of_len 100 = 100%float.
Proof. reflexivity. Qed.

(** The ratio of a count to a count that is at least as large lies
    between 0 and 1. *)
Lemma ratio_unit k n :
  (k <= n)%nat -> (1 <= n)%nat -> Z.of_nat n < 2 ^ 53 ->
  unit_factor (Py.float_of_len k / Py.float_of_len n).
Proof.
  intros Hkn Hn1 Hn2.
  destruct (float_of_len_finite n Hn1 Hn2) as (mn & en & HN & HbN & HvN).
  assert (Hp : 0 < 2 ^ 1074) by (apply pow2_pos; lia).
  unfold unit_factor, F64.nanb, F64.pos. rewrite FloatAxioms.div_spec, HN. unfold SF64div.
  destruct k as [|k].
  - rewrite float_of_len_zero. cbn. lia.
  - destruct (float_of_len_finite (S k)) as (mk & ek & HK & HbK & HvK); [lia|lia|].
    rewrite HK.
    destruct (SFdiv_ord false mk ek false mn en) as [Hnan Ho].
    split; [exact Hnan|]. split.
    + rewrite Ho. cbn [xorb cond_Zopp].
      assert (0 < 2 ^ div_shift (Zpos mk) ek (Zpos mn) en) by apply pow2_pos, div_shift_nonneg.
      apply rnd_nonneg; lia.
    + rewrite <- (SFdiv_self mn en).
      apply F64Facts.bounded_inv in HbK, HbN.
      apply SFdiv_monotone; try lia.
Qed.

(** Such a ratio times 100 lies between 0 and 100. *)
Lemma percent_range k n :
  (k <= n)%nat -> (1 <= n)%nat -> Z.of_nat n < 2 ^ 53 ->
  PrimFloat.leb 0 (Py.float_of_len k / Py.float_of_len n * 100) = true /\
  PrimFloat.leb (Py.float_of_len k / Py.float_of_len n * 100) 100 = true.
Proof.
  intros Hkn Hn1 Hn2.
  assert (Hu := ratio_unit k n Hkn Hn1 Hn2).
  rewrite mul_comm, <- float_of_len_hundred at 1.
  rewrite (mul_comm _ 100), <- float_of_len_hundred at 1.
  destruct (product_range 100 _ ltac:(lia) ltac:(lia) Hu) as (Hnan & H0 & H1).
  rewrite !F64Facts.leb_pos, Hnan. rewrite float_of_len_hundred at 2.
  change (F64.nanb 0) with false. change (F64.nanb 100) with false.
  rewrite pos_0, pos_100. cbn [negb andb].
  split; apply Z.leb_le; [exact H0|exact H1].
Qed.

(** *** Signs *)

Lemma not_negative_iff x :
  PrimFloat.ltb x 0 = false <-> (F64.nanb x = true \/ 0 <= F64.pos x).
Proof.
  rewrite F64Facts.ltb_pos, pos_0. change (F64.nanb 0) with false.
  destruct (F64.nanb x); cbn [negb andb].
  - split; auto.
  - rewrite Z.ltb_ge. split; [auto|]. intros [H|H]; [discriminate|assumption].
Qed.

Lemma not_positive_iff x :
  PrimFloat.ltb 0 x = false <-> (F64.nanb x = true \/ F64.pos x <= 0).
Proof.
  rewrite F64Facts.ltb_pos, pos_0. change (F64.nanb 0) with false.
  destruct (F64.nanb x); cbn [negb andb].
  - split; auto.
  - rewrite Z.ltb_ge. split; [auto|]. intros [H|H]; [discriminate|assumption].
Qed.

(** The sign of a product is the product of the signs. *)
Lemma SFmul_sign x y :
  valid_binary x = true -> valid_binary y = true ->
  F64.is_nan (SFmul prec emax x y) = false ->
  F64.is_nan x = false /\ F64.is_nan y = false /\
  (0 <= F64.ord x * F64.ord y -> 0 <= F64.ord (SFmul prec emax x y)) /\
  (F64.ord x * F64.ord y <= 0 -> F64.ord (SFmul prec emax x y) <= 0).
Proof.
  intros Hx Hy. assert (Ht := top_positive).
  destruct x as [sx|sx| |sx mx ex], y as [sy|sy| |sy my ey];
    try (cbn; intros; discriminate);
    try (cbn [SFmul F64.is_nan F64.ord]; intros _; repeat split; lia).
  - cbn [SFmul F64.is_nan F64.ord]. intros _. repeat split;
      destruct sx, sy; cbn [xorb cond_Zopp]; nia.
  - cbn [valid_binary] in Hy. assert (Hr := F64Facts.finite_range _ _ Hy).
    cbn [SFmul F64.is_nan F64.ord]. intros _. repeat split;
      destruct sx, sy; cbn [xorb cond_Zopp]; nia.
  - cbn [valid_binary] in Hx. assert (Hr := F64Facts.finite_range _ _ Hx).
    cbn [SFmul F64.is_nan F64.ord]. intros _. repeat split;
      destruct sx, sy; cbn [xorb cond_Zopp]; nia.
  - cbn [valid_binary] in Hx, Hy.
    assert (Hrx := F64Facts.finite_range _ _ Hx). assert (Hry := F64Facts.finite_range _ _ Hy).
    destruct (SFmul_ord sx mx ex sy my ey Hx Hy) as [Hnan Ho].
    intros _. rewrite Ho. cbn [F64.is_nan F64.ord].
    assert (Hr : 0 <= rnd (Zpos mx * Zpos my) 1 (ex + ey)) by (apply rnd_nonneg; lia).
    repeat split; destruct sx, sy; cbn [xorb cond_Zopp]; nia.
Qed.

Lemma mul_sign x y :
  F64.nanb (x * y) = false ->
  F64.nanb x = false /\ F64.nanb y = false /\
  (0 <= F64.pos x * F64.pos y -> 0 <= F64.pos (x * y)) /\
  (F64.pos x * F64.pos y <= 0 -> F64.pos (x * y) <= 0).
Proof.
  unfold F64.nanb, F64.pos. rewrite FloatAxioms.mul_spec. unfold SF64mul.
  apply SFmul_sign; apply Prim2SF_valid.
Qed.

(** Neither factor negative: the product is not negative. *)
Lemma mul_not_negative x y :
  PrimFloat.ltb x 0 = false -> PrimFloat.ltb y 0 = false ->
  PrimFloat.ltb (x * y) 0 = false.
Proof.
  rewrite !not_negative_iff. intros Hx Hy.
  destruct (F64.nanb (x * y)) eqn:E; [now left|right].
  destruct (mul_sign x y E) as (Hnx & Hny & H & _).
  destruct Hx as [Hx|Hx]; [congruence|]. destruct Hy as [Hy|Hy]; [congruence|].
  apply H. nia.
Qed.

(** One factor not negative, the other not positive: the product is
    not positive. *)
Lemma mul_not_positive x y :
  PrimFloat.ltb x 0 = false -> PrimFloat.ltb 0 y = false ->
  PrimFloat.ltb 0 (x * y) = false.
Proof.
  rewrite not_negative_iff, !not_positive_iff. intros Hx Hy.
  destruct (F64.nanb (x * y)) eqn:E; [now left|right].
  destruct (mul_sign x y E) as (Hnx & Hny & _ & H).
  destruct Hx as [Hx|Hx]; [congruence|]. destruct Hy as [Hy|Hy]; [congruence|].
  apply H. nia.
Qed.

(** Dividing by a value whose sign bit is clear keeps the sign. *)
Lemma SFdiv_sign x y :
  valid_binary x = true -> SFabs y = y ->
  F64.is_nan (SFdiv prec emax x y) = false ->
  F64.is_nan x = false /\
  (0 <= F64.ord x -> 0 <= F64.ord (SFdiv prec emax x y)) /\
  (F64.ord x <= 0 -> F64.ord (SFdiv prec emax x y) <= 0).
Proof.
  intros Hx Hy. assert (Ht := top_positive).
  destruct x as [sx|sx| |sx mx ex], y as [sy|sy| |sy my ey];
    try (cbn; intros; discriminate);
    cbn [SFabs] in Hy; try (injection Hy as <-);
    try (cbn [SFdiv F64.is_nan F64.ord xorb]; intros _; repeat split; lia).
  - cbn [SFdiv F64.is_nan F64.ord]. intros _. rewrite xorb_false_r. repeat split; lia.
  - cbn [SFdiv F64.is_nan F64.ord]. intros _. rewrite xorb_false_r. repeat split; lia.
  - cbn [valid_binary] in Hx. assert (Hr := F64Facts.finite_range _ _ Hx).
    cbn [SFdiv F64.is_nan F64.ord]. intros _. rewrite xorb_false_r.
    repeat split; destruct sx; cbn [cond_Zopp] in *; lia.
  - cbn [valid_binary] in Hx. assert (Hr := F64Facts.finite_range _ _ Hx).
    destruct (SFdiv_ord sx mx ex false my ey) as [Hnan Ho].
    intros _. rewrite Ho. rewrite xorb_false_r. cbn [F64.is_nan F64.ord].
    assert (0 < 2 ^ div_shift (Zpos mx) ex (Zpos my) ey) by apply pow2_pos, div_shift_nonneg.
    assert (Hq : 0 <= rnd (Zpos mx * 2 ^ div_shift (Zpos mx) ex (Zpos my) ey) (Zpos my)
                          (div_exp (Zpos mx) ex (Zpos my) ey)) by (apply rnd_nonneg; lia).
    repeat split; destruct sx; cbn [cond_Zopp] in *; lia.
Qed.

Lemma div_hundred_not_positive x :
  PrimFloat.ltb 0 x = false -> PrimFloat.ltb 0 (x / 100) = false.
Proof.
  rewrite !not_positive_iff. intros Hx.
  destruct (F64.nanb (x / 100)) eqn:E; [now left|right].
  unfold F64.nanb, F64.pos in *. rewrite FloatAxioms.div_spec in *. unfold SF64div in *.
  destruct (SFdiv_sign (Prim2SF x) (Prim2SF 100) (Prim2SF_valid x) eq_refl E) as (Hn & _ & H).
  destruct Hx as [Hx|Hx]; [congruence|]. now apply H.
Qed.

Lemma SFabs_idempotent x : SFabs (SFabs x) = SFabs x.
Proof. destruct x; reflexivity. Qed.

Lemma div_abs_not_negative d b :
  PrimFloat.ltb d 0 = false -> PrimFloat.ltb (d / abs b) 0 = false.
Proof.
  rewrite !not_negative_iff. intros Hd.
  destruct (F64.nanb (d / abs b)) eqn:E; [now left|right].
  unfold F64.nanb, F64.pos in *. rewrite FloatAxioms.div_spec in *. unfold SF64div in *.
  rewrite FloatAxioms.abs_spec in *.
  destruct (SFdiv_sign (Prim2SF d) _ (Prim2SF_valid d) (SFabs_idempotent _) E) as (Hn & H & _).
  destruct Hd as [Hd|Hd]; [congruence|]. now apply H.
Qed.

Lemma div_abs_not_positive d b :
  PrimFloat.ltb 0 d = false -> PrimFloat.ltb 0 (d / abs b) = false.
Proof.
  rewrite !not_positive_iff. intros Hd.
  destruct (F64.nanb (d / abs b)) eqn:E; [now left|right].
  unfold F64.nanb, F64.pos in *. rewrite FloatAxioms.div_spec in *. unfold SF64div in *.
  rewrite FloatAxioms.abs_spec in *.
  destruct (SFdiv_sign (Prim2SF d) _ (Prim2SF_valid d) (SFabs_idempotent _) E) as (Hn & _ & H).
  destruct Hd as [Hd|Hd]; [congruence|]. now apply H.
Qed.

(** *** The sign of a difference *)

Lemma shl_align_keep mx ex ex' : ex <= ex' -> shl_align mx ex ex' = (mx, ex).
Proof. intros H. unfold shl_align. destruct (ex' - ex) eqn:E; try reflexivity; lia. Qed.

Lemma Zdigits2_shift m k : 0 < m -> 0 <= k -> Zdigits2 (m * 2 ^ k) = Zdigits2 m + k.
Proof.
  intros Hm Hk. destruct (Zdigits2_bounds m Hm) as [Hl Hu].
  assert (Hd : 0 < Zdigits2 m).
  { destruct m; try lia. simpl. lia. }
  assert (Hp : 0 < 2 ^ k) by (apply pow2_pos; lia).
  apply Zdigits2_unique; [|lia]. split.
  - replace (Zdigits2 m + k - 1) with (Zdigits2 m - 1 + k) by lia.
    rewrite Z.pow_add_r by lia. apply Z.mul_le_mono_nonneg_r; lia.
  - rewrite Z.pow_add_r by lia. apply Z.mul_lt_mono_pos_r; lia.
Qed.

(** Rounding a positive integer multiple of a power of two that is at
    least 2^-1074 never gives zero. *)
Lemma rnd_positive m e :
  0 < m -> -1074 <= e -> e <= fexp64 (Zdigits2 m + e) -> 0 < rnd m 1 e.
Proof.
  intros Hm He Hside. unfold rnd. rewrite Z.div_1_r.
  set (E := fexp64 (Zdigits2 m + e)) in *.
  assert (HE : -1074 <= E) by (unfold E, fexp64; lia).
  assert (Hp : 0 < 2 ^ (E - e)) by (apply pow2_pos; lia).
  assert (Hq : 0 < 2 ^ (E + 1074)) by (apply pow2_pos; lia).
  assert (Ht := top_positive).
  apply Z.min_glb_lt; [|assumption].
  apply Z.mul_pos_pos; [|assumption].
  assert (Hfl := rne_floor m (1 * 2 ^ (E - e)) ltac:(lia)).
  assert (Hone : 1 <= m / (1 * 2 ^ (E - e))).
  { rewrite Z.mul_1_l. apply Z.div_le_lower_bound; [assumption|]. rewrite Z.mul_1_r.
    destruct (Zdigits2_bounds m Hm) as [Hl _].
    apply Z.le_trans with (2 ^ (Zdigits2 m - 1)); [|assumption].
    assert (Hd : 0 < Zdigits2 m) by (destruct m; simpl; lia).
    apply Z.pow_le_mono_r; [lia|]. unfold E, fexp64 in *. lia. }
  lia.
Qed.

Lemma binary_round_sign s m e :
  -1074 <= e ->
  F64.is_nan (binary_round prec emax s m e) = false /\
  exists R, 0 < R /\ F64.ord (binary_round prec emax s m e) = cond_Zopp s R.
Proof.
  intros He. unfold binary_round. rewrite fexp_fexp64.
  change (Z.pos (digits2_pos m)) with (Zdigits2 (Zpos m)).
  set (E := fexp64 (Zdigits2 (Zpos m) + e)).
  assert (HE : -1074 <= E) by (unfold E, fexp64; lia).
  change loc_Exact with (loc_of 0 1).
  destruct (Z.le_gt_cases E e) as [Hle|Hgt].
  - destruct (shl_align_spec m e E Hle) as [Hm Hez].
    destruct (shl_align m e E) as [mz ez]. cbn [fst snd] in Hm, Hez. subst ez.
    assert (Hd : Zdigits2 (Zpos mz) + E = Zdigits2 (Zpos m) + e).
    { rewrite Hm, Zdigits2_shift by lia. lia. }
    assert (Hside : E <= fexp64 (Zdigits2 (Zpos mz) + E)) by (rewrite Hd; fold E; lia).
    destruct (binary_round_aux_ord s (Zpos mz) 0 1 E ltac:(lia) ltac:(lia) Hside) as [Hn Ho].
    split; [exact Hn|]. eexists. split; [|exact Ho].
    replace (Zpos mz * 1 + 0) with (Zpos mz) by lia.
    apply rnd_positive; lia.
  - rewrite shl_align_keep by lia.
    assert (Hside : e <= fexp64 (Zdigits2 (Zpos m) + e)) by (fold E; lia).
    destruct (binary_round_aux_ord s (Zpos m) 0 1 e ltac:(lia) ltac:(lia) Hside) as [Hn Ho].
    split; [exact Hn|]. eexists. split; [|exact Ho].
    replace (Zpos m * 1 + 0) with (Zpos m) by lia.
    apply rnd_positive; lia.
Qed.

Lemma binary_normalize_sign d e :
  -1074 <= e ->
  F64.is_nan (binary_normalize prec emax d e false) = false /\
  (0 < F64.ord (binary_normalize prec emax d e false) <-> 0 < d) /\
  (F64.ord (binary_normalize prec emax d e false) < 0 <-> d < 0).
Proof.
  intros He. destruct d as [|p|p]; cbn [binary_normalize].
  - cbn. split; [reflexivity|]. split; split; lia.
  - destruct (binary_round_sign false p e He) as (Hn & R & HR & Ho).
    rewrite Ho. cbn [cond_Zopp]. split; [exact Hn|]. split; split; lia.
  - destruct (binary_round_sign true p e He) as (Hn & R & HR & Ho).
    rewrite Ho. cbn [cond_Zopp]. split; [exact Hn|]. split; split; lia.
Qed.

(** The difference of two values has the sign of their comparison. *)
Lemma SFsub_sign x y :
  valid_binary x = true -> valid_binary y = true ->
  F64.is_nan (SFsub prec emax x y) = false ->
  (0 < F64.ord (SFsub prec emax x y) <-> F64.ord y < F64.ord x) /\
  (F64.ord (SFsub prec emax x y) < 0 <-> F64.ord x < F64.ord y).
Proof.
  intros Hx Hy. assert (Ht := top_positive).
  destruct x as [sx|sx| |sx mx ex], y as [sy|sy| |sy my ey];
    try (cbn; intros; discriminate).
  - destruct sx, sy; cbn; intros _; lia.
  - destruct sy; cbn; intros _; lia.
  - cbn [valid_binary] in Hy. assert (Hr := F64Facts.finite_range _ _ Hy).
    destruct sy; cbn [SFsub F64.is_nan F64.ord negb cond_Zopp]; intros _; lia.
  - destruct sx; cbn; intros _; lia.
  - destruct sx, sy; cbn; intros H; try discriminate; lia.
  - cbn [valid_binary] in Hy. assert (Hr := F64Facts.finite_range _ _ Hy).
    destruct sx, sy; cbn [SFsub F64.is_nan F64.ord negb cond_Zopp]; intros _; lia.
  - cbn [valid_binary] in Hx. assert (Hr := F64Facts.finite_range _ _ Hx).
    destruct sx; cbn [SFsub F64.is_nan F64.ord negb cond_Zopp]; intros _; lia.
  - cbn [valid_binary] in Hx. assert (Hr := F64Facts.finite_range _ _ Hx).
    destruct sx, sy; cbn [SFsub F64.is_nan F64.ord negb cond_Zopp]; intros _; lia.
  - cbn [valid_binary] in Hx, Hy.
    assert (Hbx := F64Facts.bounded_inv _ _ Hx). assert (Hby := F64Facts.bounded_inv _ _ Hy).
    cbn [SFsub]. cbv zeta. fold (Z.min ex ey).
    set (ez := Z.min ex ey).
    destruct (shl_align_spec mx ex ez ltac:(lia)) as [Hmx _].
    destruct (shl_align_spec my ey ez ltac:(lia)) as [Hmy _].
    rewrite Hmx, Hmy.
    set (d := cond_Zopp sx (Zpos mx * 2 ^ (ex - ez)) - cond_Zopp sy (Zpos my * 2 ^ (ey - ez))).
    destruct (binary_normalize_sign d ez ltac:(lia)) as (Hn & Hpos & Hneg).
    intros _. rewrite Hpos, Hneg. cbn [F64.ord].
    assert (Hp : 0 < 2 ^ (ez + 1074)) by (apply pow2_pos; lia).
    assert (Hox : cond_Zopp sx (Zpos mx * 2 ^ (ex + 1074)) =
                  cond_Zopp sx (Zpos mx * 2 ^ (ex - ez)) * 2 ^ (ez + 1074)).
    { replace (ex + 1074) with ((ex - ez) + (ez + 1074)) by lia.
      rewrite (Z.pow_add_r 2 (ex - ez) (ez + 1074)) by lia.
      destruct sx; cbn [cond_Zopp]; ring. }
    assert (Hoy : cond_Zopp sy (Zpos my * 2 ^ (ey + 1074)) =
                  cond_Zopp sy (Zpos my * 2 ^ (ey - ez)) * 2 ^ (ez + 1074)).
    { replace (ey + 1074) with ((ey - ez) + (ez + 1074)) by lia.
      rewrite (Z.pow_add_r 2 (ey - ez) (ez + 1074)) by lia.
      destruct sy; cbn [cond_Zopp]; ring. }
    rewrite Hox, Hoy. unfold d. split; split; intros H; nia.
Qed.

Lemma SFsub_nan x y :
  valid_binary x = true -> valid_binary y = true ->
  F64.is_nan (SFsub prec emax x y) = true ->
  F64.is_nan x = true \/ F64.is_nan y = true \/
  (F64.is_nan x = false /\ F64.is_nan y = false /\ F64.ord x = F64.ord y).
Proof.
  intros Hx Hy.
  destruct x as [sx|sx| |sx mx ex], y as [sy|sy| |sy my ey];
    try (cbn; intros; discriminate); try (cbn; auto; fail).
  - destruct sx, sy; cbn; intros H; try discriminate; right; right; auto.
  - cbn [valid_binary] in Hx, Hy.
    assert (Hbx := F64Facts.bounded_inv _ _ Hx). assert (Hby := F64Facts.bounded_inv _ _ Hy).
    cbn [SFsub]. cbv zeta. fold (Z.min ex ey).
    intros H.
    match type of H with
    | context [binary_normalize _ _ ?d ?e _] =>
        destruct (binary_normalize_sign d e ltac:(lia)) as (Hn & _)
    end.
    rewrite Hn in H. discriminate.
Qed.

(** [x - y > 0] exactly when [x > y], and [x - y < 0] exactly when [x < y]. *)
Lemma sub_sign x y :
  PrimFloat.ltb 0 (x - y) = PrimFloat.ltb y x /\
  PrimFloat.ltb (x - y) 0 = PrimFloat.ltb x y.
Proof.
  rewrite !F64Facts.ltb_pos, pos_0. change (F64.nanb 0) with false. cbn [negb andb].
  unfold F64.nanb, F64.pos. rewrite FloatAxioms.sub_spec. unfold SF64sub.
  assert (Hx := Prim2SF_valid x). assert (Hy := Prim2SF_valid y).
  destruct (F64.is_nan (SFsub prec emax (Prim2SF x) (Prim2SF y))) eqn:E.
  - cbn [negb andb].
    destruct (SFsub_nan _ _ Hx Hy E) as [H|[H|(H1 & H2 & H3)]].
    + rewrite H. cbn [negb andb]. now rewrite andb_false_r.
    + rewrite H. cbn [negb andb]. now rewrite andb_false_r.
    + rewrite H1, H2, H3, Z.ltb_irrefl. auto.
  - cbn [negb andb].
    destruct (SFsub_sign _ _ Hx Hy E) as [Hpos Hneg].
    assert (Hnx : F64.is_nan (Prim2SF x) = false).
    { destruct (Prim2SF x); try reflexivity. discriminate. }
    assert (Hny : F64.is_nan (Prim2SF y) = false).
    { destruct (Prim2SF x), (Prim2SF y); try reflexivity; discriminate. }
    rewrite Hnx, Hny. cbn [negb andb]. split.
    + destruct (Z.ltb_spec 0 (F64.ord (SFsub prec emax (Prim2SF x) (Prim2SF y))));
        destruct (Z.ltb_spec (F64.ord (Prim2SF y)) (F64.ord (Prim2SF x))); try reflexivity; lia.
    + destruct (Z.ltb_spec (F64.ord (SFsub prec emax (Prim2SF x) (Prim2SF y))) 0);
        destruct (Z.ltb_spec (F64.ord (Prim2SF x)) (F64.ord (Prim2SF y))); try reflexivity; lia.
Qed.

End Ratio.

(** ** The replay loop *)

Lemma replay_step_outcome thr st t :
  replay_step thr st t =
  mkReplay (simulated_profit_total st + simulated_outcome thr t)%float
           (replay_stopped_count st + (if is_stopped thr t then 1 else 0))
           (win_count st + (if is_win thr t then 1 else 0)).
Proof.
  unfold replay_step, is_win, simulated_outcome, is_stopped, simulated_loss.
  destruct (PrimFloat.ltb (MAE t) thr).
  - destruct (Py.gt _ 0); f_equal; lia.
  - destruct (Py.gt _ 0); f_equal; lia.
Qed.

Lemma replay_from thr trades : forall st,
  fold_left (replay_step thr) trades st =
  mkReplay (fold_left PrimFloat.add (map (simulated_outcome thr) trades)
              (simulated_profit_total st))
           (replay_stopped_count st + length (filter (is_stopped thr) trades))
           (win_count st + length (filter (is_win thr) trades)).
Proof.
  induction trades as [|t trades IH]; intros st; simpl.
  - destruct st; simpl; f_equal; lia.
  - rewrite IH, replay_step_outcome; simpl.
    destruct (is_stopped thr t), (is_win thr t); simpl; f_equal; lia.
Qed.

(** The same loop on numpy scalars. *)

Lemma row_step thr st r :
  Np.replay_step thr st r =
  let outcome :=
    if Np.lt (Np.actual_mae r) thr then Np.float64 (Np.simulated_loss thr r)
    else Np.actual_profit r in
  mkReplay (simulated_profit_total st + Np.as_float outcome)%float
           (replay_stopped_count st + (if Np.lt (Np.actual_mae r) thr then 1 else 0))
           (win_count st + (if Np.positive outcome then 1 else 0)).
Proof.
  unfold Np.replay_step. cbv zeta.
  destruct (Np.lt (Np.actual_mae r) thr); cbn [Np.as_float Np.positive].
  - destruct (Py.gt _ 0); f_equal; lia.
  - destruct (Np.positive _); f_equal; lia.
Qed.

Lemma wrap_in_range z : int64_range z -> Np.wrap z = z.
Proof.
  unfold int64_range, Np.wrap. intros H.
  rewrite Z.mod_small; [lia|]. change (2 ^ 64)%Z with (2 ^ 63 + 2 ^ 63)%Z. lia.
Qed.

Lemma valid_SFopp x : valid_binary (SFopp x) = valid_binary x.
Proof. destruct x; reflexivity. Qed.

Lemma SF2Prim_opp x :
  valid_binary x = true -> SF2Prim (SFopp x) = (- SF2Prim x)%float.
Proof.
  intros Hx. apply Prim2SF_inj.
  rewrite FloatAxioms.opp_spec, !Prim2SF_SF2Prim; [reflexivity|assumption|].
  now rewrite valid_SFopp.
Qed.

Lemma SFopp_binary_round m e :
  SFopp (binary_round prec emax false m e) = binary_round prec emax true m e.
Proof.
  unfold binary_round. destruct (shl_align _ _ _) as [mz ez].
  unfold binary_round_aux.
  destruct (shr_fexp _ _ _ _ _) as [mrs' e'].
  destruct (shr_fexp _ _ _ _ _) as [mrs'' e''].
  destruct (shr_m mrs''); try reflexivity.
  destruct (Z.leb _ _); reflexivity.
Qed.

(** The conversion of an int64 value is the float nearest to it. *)
Lemma to_float64_value z : int64_range z -> Np.to_float64 z = float_of_int z.
Proof.
  unfold int64_range, Np.to_float64, float_of_int. intros Hr.
  assert (H63 : (0 < 2 ^ 63)%Z) by (apply RoundingFacts.pow2_pos; lia).
  assert (Hpos : forall p, (Zpos p < 2 ^ 63)%Z ->
            PrimFloat.of_uint63 (Uint63.of_Z (Zpos p)) =
            SF2Prim (binary_normalize prec emax (Zpos p) 0 false)).
  { intros p Hp. rewrite <- (SF2Prim_Prim2SF (PrimFloat.of_uint63 _)). f_equal.
    rewrite of_uint63_spec, Uint63.of_Z_spec, Z.mod_small; [reflexivity|].
    change wB with (2 ^ 63)%Z. lia. }
  destruct (Z.eqb_spec z (- 2 ^ 63)) as [->|Hne]; [reflexivity|].
  destruct z as [|p|p]; cbn [Z.ltb Z.compare Z.opp].
  - reflexivity.
  - apply Hpos. lia.
  - rewrite Hpos by lia. cbn [binary_normalize].
    rewrite <- SFopp_binary_round, SF2Prim_opp; [reflexivity|].
    change (binary_round prec emax false p 0) with (binary_normalize prec emax (Zpos p) 0 false).
    assert (Hv := Prim2SF_valid (PrimFloat.of_uint63 (Uint63.of_Z (Zpos p)))).
    rewrite of_uint63_spec, Uint63.of_Z_spec, Z.mod_small in Hv; [exact Hv|].
    change wB with (2 ^ 63)%Z. lia.
Qed.

Lemma as_float_value a : int64_scalar a -> Np.as_float a = number_value a.
Proof. destruct a; cbn; [apply to_float64_value|reflexivity]. Qed.

(** As long as no int64 product overflows, the stop amount computed is
    the design's. *)
Lemma simulated_loss_is_stop_amount thr r :
  no_overflow thr r -> Np.simulated_loss thr r = stop_amount thr r.
Proof.
  intros (Wt & Ws & Wp & Hov).
  unfold Np.simulated_loss, stop_amount, Np.truediv. f_equal.
  assert (Et := as_float_value _ Wt).
  assert (Es := as_float_value _ Ws). assert (Ep := as_float_value _ Wp).
  destruct (Np.shares r) as [s|x], (Np.entry_price r) as [p|y];
    cbn [Np.mul product Np.as_float number_value int64_scalar] in *.
  - destruct Hov as [Hsp Hspt]. rewrite (wrap_in_range _ Hsp).
    destruct thr as [t|z]; cbn [Np.mul product Np.as_float number_value int64_scalar] in *.
    + rewrite (wrap_in_range _ Hspt). now apply to_float64_value.
    + now rewrite (to_float64_value _ Hsp).
  - destruct thr; cbn [Np.mul product Np.as_float number_value] in *; congruence.
  - destruct thr; cbn [Np.mul product Np.as_float number_value] in *; congruence.
  - destruct thr; cbn [Np.mul product Np.as_float number_value] in *; congruence.
Qed.

Lemma row_replay_from thr rows : forall st,
  Forall (fun r => is_stopped_row thr r = true -> no_overflow thr r) rows ->
  fold_left (Np.replay_step thr) rows st =
  mkReplay (fold_left PrimFloat.add
              (map (fun r => Np.as_float (row_outcome thr r)) rows)
              (simulated_profit_total st))
           (replay_stopped_count st + length (filter (is_stopped_row thr) rows))
           (win_count st +
            length (filter (fun r => Np.positive (row_outcome thr r)) rows)).
Proof.
  induction rows as [|r rows IH]; intros st Hov; simpl.
  - destruct st; simpl; f_equal; lia.
  - inversion Hov as [|? ? Hr Hrows]; subst.
    rewrite IH, row_step by assumption. cbv zeta. unfold row_outcome, is_stopped_row in *.
    destruct (Np.lt (Np.actual_mae r) thr).
    + rewrite (simulated_loss_is_stop_amount thr r (Hr eq_refl)).
      destruct (Np.positive _); simpl; f_equal; lia.
    + destruct (Np.positive _); simpl; f_equal; lia.
Qed.

(** On four float64 columns the loop on scalars is the loop on floats. *)
Lemma replay_of_float64_rows thr trades :
  Np.replay (Np.float64 thr) (map row_of_trade trades) = replay thr trades.
Proof.
  unfold Np.replay, replay. generalize (mkReplay 0 0 0).
  induction trades as [|t trades IH]; intros st; [reflexivity|].
  simpl. rewrite <- IH. reflexivity.
Qed.

(** C1 (amended). As long as no product of int64 values in the stop
    amount of a stopped row leaves the range of int64, the loop adds,
    for every row, the stop amount
    [shares * entry_price * mae_threshold / 100.0] when the row's
    adverse excursion is strictly below the threshold and its actual
    profit otherwise: the total is the sum of these outcomes in row
    order, [stopped_count] counts the stopped rows and [win_count] the
    rows, stopped or not, whose outcome is strictly positive. *)
Theorem replay_accumulates_outcomes (mae_threshold : Np.scalar) (rows : list Np.Row) :
  Forall (fun r => is_stopped_row mae_threshold r = true -> no_overflow mae_threshold r)
         rows ->
  simulated_profit_total (Np.replay mae_threshold rows) =
    seq_sum (map (fun r => Np.as_float (row_outcome mae_threshold r)) rows) /\
  replay_stopped_count (Np.replay mae_threshold rows) =
    length (filter (is_stopped_row mae_threshold) rows) /\
  win_count (Np.replay mae_threshold rows) =
    length (filter (fun r => Np.positive (row_outcome mae_threshold r)) rows).
Proof.
  intros Hov. unfold Np.replay. rewrite row_replay_from by assumption. simpl. auto.
Qed.

Lemma replay_accumulates_outcomes_witness :
  simulated_profit_total (Np.replay (Np.float64 (-0.5)) scenario_rows) =
    seq_sum (map (fun r => Np.as_float (row_outcome (Np.float64 (-0.5)) r)) scenario_rows) /\
  replay_stopped_count (Np.replay (Np.float64 (-0.5)) scenario_rows) =
    length (filter (is_stopped_row (Np.float64 (-0.5))) scenario_rows) /\
  win_count (Np.replay (Np.float64 (-0.5)) scenario_rows) =
    length (filter (fun r => Np.positive (row_outcome (Np.float64 (-0.5)) r)) scenario_rows).
Proof.
  apply (replay_accumulates_outcomes (Np.float64 (-0.5)) scenario_rows).
  repeat constructor; unfold int64_range; simpl; lia.
Defined.

(** C1, as stated, fails on int64 columns.  The threshold -1 is the one
    percentile 100 resolves on these two rows, and it stops the first
    one, whose 3037000500 shares at a price of 3037000500 the design
    values at a stop amount of about -9.2e16.  The product of the two
    int64 values is not an int64 value, and the loop adds a positive
    amount and counts the stopped row as a win. *)
Lemma stop_amount_wraps_on_int64_columns :
  resolve_threshold
    (sort_values (map (fun r => Np.as_float (Np.actual_mae r)) oversized_rows)) 100
    = Py.Ok (-1)%float /\
  ~ int64_range (3037000500 * 3037000500) /\
  map (row_outcome (Np.float64 (-1))) oversized_rows
    = [Np.float64 (-92233720370002496); Np.float64 0] /\
  seq_sum (map (fun r => Np.as_float (row_outcome (Np.float64 (-1)) r)) oversized_rows)
    = (-92233720370002496)%float /\
  length (filter (fun r => Np.positive (row_outcome (Np.float64 (-1)) r)) oversized_rows) = 0 /\
  Np.replay (Np.float64 (-1)) oversized_rows = mkReplay 92233720367093008 1 1 /\
  simulated_profit_total (Np.replay (Np.float64 (-1)) oversized_rows) <>
    seq_sum (map (fun r => Np.as_float (row_outcome (Np.float64 (-1)) r)) oversized_rows) /\
  win_count (Np.replay (Np.float64 (-1)) oversized_rows) <>
    length (filter (fun r => Np.positive (row_outcome (Np.float64 (-1)) r)) oversized_rows).
Proof.
  split; [reflexivity|]. split; [unfold int64_range; lia|].
  split; [reflexivity|]. split; [reflexivity|]. split; [reflexivity|].
  split; [reflexivity|]. split.
  - intros H. apply (f_equal (fun x => PrimFloat.ltb 0 x)) in H. vm_compute in H. discriminate.
  - vm_compute. discriminate.
Qed.

(** No trade is stopped by a threshold strictly below every adverse
    excursion. *)
Lemma below_all_not_stopped thr trades :
  Forall (fun t => PrimFloat.ltb thr (MAE t) = true) trades ->
  Forall (fun t => is_stopped thr t = false) trades.
Proof.
  apply Forall_impl. intros t H. unfold is_stopped.
  rewrite F64Facts.ltb_pos in *.
  apply andb_true_iff in H as [H Hlt]. apply andb_true_iff in H as [Ht Hm].
  rewrite Ht, Hm. simpl. apply Z.ltb_lt in Hlt. apply Z.ltb_ge. lia.
Qed.

Lemma outcomes_unstopped thr trades :
  Forall (fun t => is_stopped thr t = false) trades ->
  map (simulated_outcome thr) trades = map Profit trades /\
  filter (is_stopped thr) trades = [].
Proof.
  induction 1 as [|t trades Ht _ [IH1 IH2]]; simpl; [auto|].
  unfold simulated_outcome at 1. rewrite Ht. split; congruence.
Qed.

(** The design's worked scenario: at percentile 50 the threshold is
    -5, nothing is stopped and the total is -265; at percentile 100 the
    threshold is -0.5, two trades are stopped at -25 each and the total
    is -35. *)
Example scenario_percentile_50 :
  resolve_threshold (sort_values (map MAE scenario_trades)) 50 = Py.Ok (-5)%float /\
  replay (-5) scenario_trades = mkReplay (-265) 0 1.
Proof. split; reflexivity. Qed.

Example scenario_percentile_100 :
  resolve_threshold (sort_values (map MAE scenario_trades)) 100 = Py.Ok (-0.5)%float /\
  replay (-0.5) scenario_trades = mkReplay (-35) 2 1.
Proof. split; reflexivity. Qed.

(** C4 (amended). A threshold strictly below every adverse excursion
    stops no trade, and the simulated total is then the in-order sum of
    the actual profits; it is the baseline total whenever the library's
    reduction of the profit column returns that same float. *)
Theorem noop_threshold_keeps_baseline
    (series_sum : list float -> float) (thr : float) (trades : list Trade) :
  Forall (fun t => PrimFloat.ltb thr (MAE t) = true) trades ->
  replay_stopped_count (replay thr trades) = 0 /\
  simulated_profit_total (replay thr trades) = seq_sum (map Profit trades) /\
  (series_sum (map Profit trades) = seq_sum (map Profit trades) ->
   simulated_profit_total (replay thr trades) =
   baseline_total_profit (baseline series_sum trades)).
Proof.
  intros H. apply below_all_not_stopped, outcomes_unstopped in H.
  destruct H as [Hmap Hfil].
  unfold replay. rewrite replay_from, Hmap, Hfil. simpl.
  repeat split; auto.
Qed.

Lemma noop_threshold_keeps_baseline_witness :
  replay_stopped_count (replay (-6)%float scenario_trades) = 0 /\
  simulated_profit_total (replay (-6)%float scenario_trades) =
    seq_sum (map Profit scenario_trades) /\
  (seq_sum (map Profit scenario_trades) = seq_sum (map Profit scenario_trades) ->
   simulated_profit_total (replay (-6)%float scenario_trades) =
   baseline_total_profit (baseline seq_sum scenario_trades)).
Proof.
  apply (noop_threshold_keeps_baseline seq_sum (-6)%float scenario_trades).
  repeat constructor.
Defined.

(** C4, as stated, fails: no trade of [ten_dimes] is stopped by the
    threshold -2, the loop adds the ten profits in order to
    0.9999999999999999, and the pairwise reduction of the same column
    is 1.0. *)
Lemma noop_threshold_total_differs_from_pairwise_baseline :
  Forall (fun t => PrimFloat.ltb (-2) (MAE t) = true) ten_dimes /\
  replay_stopped_count (replay (-2)%float ten_dimes) = 0 /\
  PrimFloat.eqb (simulated_profit_total (replay (-2)%float ten_dimes))
                (baseline_total_profit (baseline numpy_sum ten_dimes)) = false /\
  simulated_profit_total (replay (-2)%float ten_dimes) <>
  baseline_total_profit (baseline numpy_sum ten_dimes).
Proof.
  split; [repeat constructor|]. split; [reflexivity|]. split; [reflexivity|].
  intros H. apply (f_equal (fun x => PrimFloat.eqb x 1)) in H.
  vm_compute in H. discriminate.
Qed.

(** ** Selecting the best result *)

Section MaxBy.

Variable A : Type.
Variable key : A -> float.

Lemma gt_pos (x y : A) :
  F64.nanb (key x) = false -> F64.nanb (key y) = false ->
  Py.gt (key x) (key y) = (F64.pos (key y) <? F64.pos (key x))%Z.
Proof.
  intros Hx Hy. unfold Py.gt. rewrite F64Facts.ltb_pos, Hx, Hy. reflexivity.
Qed.

(** The loop returns the first item among those of greatest key. *)
Lemma max_loop_first_maximum (rest : list A) : forall maxitem,
  Forall (fun x => F64.nanb (key x) = false) (maxitem :: rest) ->
  exists pre post,
    maxitem :: rest = pre ++ Py.max_loop key maxitem rest :: post /\
    Forall (fun x => (F64.pos (key x) < F64.pos (key (Py.max_loop key maxitem rest)))%Z) pre /\
    Forall (fun x => (F64.pos (key x) <= F64.pos (key (Py.max_loop key maxitem rest)))%Z) post.
Proof.
  induction rest as [|item rest IH]; intros maxitem Hnan.
  - exists [], []. simpl. auto.
  - inversion Hnan as [|? ? Hm Hrest]; subst.
    inversion Hrest as [|? ? Hi Hrest']; subst.
    simpl. rewrite gt_pos by assumption.
    destruct (Z.ltb_spec (F64.pos (key maxitem)) (F64.pos (key item))) as [Hlt|Hge].
    + destruct (IH item Hrest) as (pre & post & Heq & Hpre & Hpost).
      exists (maxitem :: pre), post. split; [simpl; f_equal; exact Heq|].
      split; [|assumption]. constructor; [|assumption].
      destruct pre as [|x pre].
      * simpl in Heq. injection Heq as <- _. assumption.
      * simpl in Heq. injection Heq as <- _.
        inversion Hpre; subst. lia.
    + destruct (IH maxitem (Forall_cons _ Hm Hrest')) as (pre & post & Heq & Hpre & Hpost).
      destruct pre as [|x pre]; simpl in Heq.
      * injection Heq as Hres Hpost'.
        exists [], (item :: post).
        split; [simpl; congruence|]. split; [constructor|].
        constructor; [|assumption]. rewrite <- Hres. assumption.
      * injection Heq as <- Hrest''.
        exists (maxitem :: item :: pre), post.
        split; [simpl; congruence|]. split; [|assumption].
        inversion Hpre; subst. constructor; [assumption|].
        constructor; [|assumption]. lia.
Qed.

End MaxBy.

(** C3 (amended). When no simulated total is NaN, the selected result
    has a total greater than or equal to that of every result of the
    run, and every result before it in percentile order has a strictly
    smaller total. *)
Theorem best_result_first_maximum (results : list ThresholdResult) :
  results <> [] ->
  Forall (fun r => PrimFloat.is_nan (total_profit r) = false) results ->
  exists best pre post,
    Py.max_by total_profit results = Py.Ok best /\
    results = pre ++ best :: post /\
    Forall (fun r => Py.ge (total_profit best) (total_profit r) = true) results /\
    Forall (fun r => PrimFloat.ltb (total_profit r) (total_profit best) = true) pre.
Proof.
  intros Hne Hnan. destruct results as [|first rest]; [congruence|].
  assert (Hnan' : Forall (fun r => F64.nanb (total_profit r) = false) (first :: rest)).
  { revert Hnan. apply Forall_impl. intros r. now rewrite F64Facts.is_nan_nanb. }
  destruct (max_loop_first_maximum _ total_profit rest first Hnan')
    as (pre & post & Heq & Hpre & Hpost).
  set (best := Py.max_loop total_profit first rest) in *.
  assert (Hbest : F64.nanb (total_profit best) = false).
  { rewrite Forall_forall in Hnan'. apply Hnan'. rewrite Heq.
    apply in_or_app. right. left. reflexivity. }
  exists best, pre, post. split; [reflexivity|]. split; [assumption|].
  assert (Hall : forall r, In r (first :: rest) ->
                 (F64.pos (total_profit r) <= F64.pos (total_profit best))%Z).
  { intros r Hin. rewrite Heq in Hin. apply in_app_or in Hin.
    rewrite Forall_forall in Hpre, Hpost.
    destruct Hin as [Hin|[<-|Hin]]; [apply Hpre in Hin|..|apply Hpost in Hin]; lia. }
  split.
  - apply Forall_forall. intros r Hin. unfold Py.ge.
    rewrite F64Facts.leb_pos, Hbest.
    rewrite Forall_forall in Hnan'. rewrite (Hnan' r Hin). simpl.
    apply Z.leb_le. now apply Hall.
  - apply Forall_forall. intros r Hin.
    rewrite F64Facts.ltb_pos, Hbest.
    assert (Hr : In r (first :: rest)).
    { rewrite Heq. apply in_or_app. now left. }
    rewrite Forall_forall in Hnan'. rewrite (Hnan' r Hr). simpl.
    apply Z.ltb_lt. rewrite Forall_forall in Hpre. now apply Hpre.
Qed.

Lemma best_result_first_maximum_witness :
  exists best pre post,
    Py.max_by total_profit scenario_results = Py.Ok best /\
    scenario_results = pre ++ best :: post /\
    Forall (fun r => Py.ge (total_profit best) (total_profit r) = true) scenario_results /\
    Forall (fun r => PrimFloat.ltb (total_profit r) (total_profit best) = true) pre.
Proof.
  apply (best_result_first_maximum scenario_results).
  - vm_compute. discriminate.
  - vm_compute. repeat constructor.
Defined.

(** C3, as stated, fails: at percentile 50 nothing is stopped and the
    total is [inf + -inf], a NaN; at percentile 100 the second trade is
    stopped and the total is [inf].  [max] keeps the first result, whose
    total is not greater than or equal to the other's. *)
Lemma best_result_nan_total_not_maximal :
  exists base r50 r100 pct,
    analyze_stop_loss no_text seq_sum (frame_of runaway_trades) [50; 100]%float
      = Py.Ok (Analysis base [r50; r100] r50 pct) /\
    PrimFloat.is_nan (total_profit r50) = true /\
    total_profit r100 = infinity /\
    Py.ge (total_profit r50) (total_profit r100) = false.
Proof.
  do 4 eexists. split; [vm_compute; reflexivity|].
  repeat split; reflexivity.
Qed.

(** ** Sums that do not round

    An addition of two whole numbers whose sum is below 2^53 in
    absolute value is exact; so is every addition of the library's
    reduction when the absolute values of the column add up to less
    than 2^53. *)

Module Exact.

Import Rounding RoundingFacts Percentile.

Local Open Scope Z_scope.

Lemma binary_round_exact s p e k :
  -1074 <= e -> Zpos p * 2 ^ (e + 1074) = k * 2 ^ 1074 -> k < 2 ^ 53 ->
  F64.is_nan (binary_round prec emax s p e) = false /\
  F64.ord (binary_round prec emax s p e) = cond_Zopp s (k * 2 ^ 1074).
Proof.
  intros He Hk Hlt. rewrite <- Hk.
  assert (H1074 : 0 < 2 ^ 1074) by (apply pow2_pos; lia).
  assert (He' : 0 < 2 ^ (e + 1074)) by (apply pow2_pos; lia).
  assert (Hk0 : 0 < k) by nia.
  assert (Htop : Zpos p * 2 ^ (e + 1074) <= F64.top).
  { rewrite Hk, top_pow. change 2098 with (1024 + 1074).
    rewrite (Z.pow_add_r 2 1024 1074) by lia.
    apply Z.mul_le_mono_nonneg_r; [lia|].
    apply Z.le_trans with (2 ^ 53); [lia|]. apply Z.pow_le_mono_r; lia. }
  assert (Hdig : Zdigits2 (Zpos p) + e <= 53).
  { assert (Hd : Zdigits2 (Zpos p * 2 ^ (e + 1074)) = Zdigits2 (k * 2 ^ 1074)) by now rewrite Hk.
    rewrite !Ratio.Zdigits2_shift in Hd by lia.
    assert (Zdigits2 k <= 53) by (apply Zdigits2_le; lia). lia. }
  unfold binary_round. rewrite fexp_fexp64.
  change (Z.pos (digits2_pos p)) with (Zdigits2 (Zpos p)).
  set (E := fexp64 (Zdigits2 (Zpos p) + e)).
  assert (HE : -1074 <= E <= 0) by (unfold E, fexp64; lia).
  change loc_Exact with (loc_of 0 1).
  destruct (Z.le_gt_cases E e) as [Hle|Hgt].
  - destruct (shl_align_spec p e E Hle) as [Hm Hez].
    destruct (shl_align p e E) as [mz ez]. cbn [fst snd] in Hm, Hez. subst ez.
    assert (Hd : Zdigits2 (Zpos mz) + E = Zdigits2 (Zpos p) + e).
    { rewrite Hm, Ratio.Zdigits2_shift by lia. lia. }
    assert (Hside : E <= fexp64 (Zdigits2 (Zpos mz) + E)) by (rewrite Hd; fold E; lia).
    destruct (binary_round_aux_ord s (Zpos mz) 0 1 E ltac:(lia) ltac:(lia) Hside) as [Hn Ho].
    split; [exact Hn|]. rewrite Ho. f_equal.
    replace (Zpos mz * 1 + 0) with (Zpos mz) by lia.
    assert (Hval : Zpos mz * 2 ^ (E + 1074) = Zpos p * 2 ^ (e + 1074)).
    { rewrite Hm, <- Z.mul_assoc, <- Z.pow_add_r by lia. do 2 f_equal. lia. }
    rewrite rnd_exact; [exact Hval|lia|rewrite Hd; reflexivity|rewrite Hval; exact Htop].
  - rewrite Ratio.shl_align_keep by lia.
    assert (Hside : e <= fexp64 (Zdigits2 (Zpos p) + e)) by (fold E; lia).
    destruct (binary_round_aux_ord s (Zpos p) 0 1 e ltac:(lia) ltac:(lia) Hside) as [Hn Ho].
    split; [exact Hn|]. rewrite Ho. f_equal.
    replace (Zpos p * 1 + 0) with (Zpos p) by lia.
    unfold rnd. rewrite Z.div_1_r. fold E. rewrite Z.mul_1_l.
    assert (Hp : Zpos p = k * 2 ^ (- e)).
    { apply (Z.mul_cancel_r _ _ (2 ^ (e + 1074))); [lia|].
      rewrite Hk, <- Z.mul_assoc, <- Z.pow_add_r by lia. do 2 f_equal. lia. }
    assert (Hq : Zpos p = (k * 2 ^ (- E)) * 2 ^ (E - e)).
    { rewrite Hp, <- Z.mul_assoc, <- Z.pow_add_r by lia. do 2 f_equal. lia. }
    rewrite Hq at 1. rewrite rne_exact by (apply pow2_pos; lia).
    assert (Hval : k * 2 ^ (- E) * 2 ^ (E + 1074) = Zpos p * 2 ^ (e + 1074)).
    { rewrite Hk, <- Z.mul_assoc, <- Z.pow_add_r by lia. do 2 f_equal. lia. }
    rewrite Hval. apply Z.min_l. exact Htop.
Qed.

Lemma binary_normalize_exact d e k :
  -1074 <= e -> d * 2 ^ (e + 1074) = k * 2 ^ 1074 -> Z.abs k < 2 ^ 53 ->
  F64.is_nan (binary_normalize prec emax d e false) = false /\
  F64.ord (binary_normalize prec emax d e false) = k * 2 ^ 1074.
Proof.
  intros He Hk Hlt.
  assert (H1074 : 0 < 2 ^ 1074) by (apply pow2_pos; lia).
  assert (He' : 0 < 2 ^ (e + 1074)) by (apply pow2_pos; lia).
  destruct d as [|p|p]; cbn [binary_normalize].
  - cbn. split; [reflexivity|]. lia.
  - destruct (binary_round_exact false p e k He Hk ltac:(lia)) as [Hn Ho].
    split; [exact Hn|]. rewrite Ho. reflexivity.
  - destruct (binary_round_exact true p e (- k) He ltac:(lia) ltac:(lia)) as [Hn Ho].
    split; [exact Hn|]. rewrite Ho. cbn [cond_Zopp]. lia.
Qed.

Lemma SFadd_exact x y kx ky :
  valid_binary x = true -> valid_binary y = true ->
  F64.is_nan x = false -> F64.ord x = kx * 2 ^ 1074 ->
  F64.is_nan y = false -> F64.ord y = ky * 2 ^ 1074 ->
  Z.abs kx + Z.abs ky < 2 ^ 53 ->
  F64.is_nan (SFadd prec emax x y) = false /\
  F64.ord (SFadd prec emax x y) = (kx + ky) * 2 ^ 1074.
Proof.
  intros Vx Vy Nx Ox Ny Oy Hb.
  assert (H1074 : 0 < 2 ^ 1074) by (apply pow2_pos; lia).
  assert (Htop : F64.top = 2 ^ 1024 * 2 ^ 1074).
  { rewrite top_pow, <- Z.pow_add_r by lia. reflexivity. }
  assert (H53 : 2 ^ 53 < 2 ^ 1024) by (apply Z.pow_lt_mono_r; lia).
  destruct x as [sx|sx| |sx mx ex], y as [sy|sy| |sy my ey]; try discriminate.
  - (* zero, zero *)
    cbn [F64.ord] in Ox, Oy. replace (kx + ky) with 0 by nia.
    cbn [SFadd]. destruct sx, sy; cbn; auto.
  - exfalso. cbn [F64.ord] in Oy. destruct sy; cbn [cond_Zopp] in Oy; nia.
  - (* zero, finite *)
    cbn [SFadd]. cbn [F64.ord] in Ox. replace (kx + ky) with ky by nia. auto.
  - exfalso. cbn [F64.ord] in Ox. destruct sx; cbn [cond_Zopp] in Ox; nia.
  - exfalso. cbn [F64.ord] in Ox. destruct sx; cbn [cond_Zopp] in Ox; nia.
  - exfalso. cbn [F64.ord] in Ox. destruct sx; cbn [cond_Zopp] in Ox; nia.
  - (* finite, zero *)
    cbn [SFadd]. cbn [F64.ord] in Oy. replace (kx + ky) with kx by nia. auto.
  - exfalso. cbn [F64.ord] in Oy. destruct sy; cbn [cond_Zopp] in Oy; nia.
  - (* finite, finite *)
    cbn [valid_binary] in Vx, Vy.
    assert (Hbx := F64Facts.bounded_inv _ _ Vx). assert (Hby := F64Facts.bounded_inv _ _ Vy).
    cbn [SFadd]. cbv zeta. fold (Z.min ex ey).
    set (ez := Z.min ex ey).
    destruct (shl_align_spec mx ex ez ltac:(lia)) as [Hmx _].
    destruct (shl_align_spec my ey ez ltac:(lia)) as [Hmy _].
    rewrite Hmx, Hmy.
    set (d := cond_Zopp sx (Zpos mx * 2 ^ (ex - ez)) + cond_Zopp sy (Zpos my * 2 ^ (ey - ez))).
    assert (Hp : 0 < 2 ^ (ez + 1074)) by (apply pow2_pos; lia).
    assert (Hox : cond_Zopp sx (Zpos mx * 2 ^ (ex + 1074)) =
                  cond_Zopp sx (Zpos mx * 2 ^ (ex - ez)) * 2 ^ (ez + 1074)).
    { replace (ex + 1074) with ((ex - ez) + (ez + 1074)) by lia.
      rewrite (Z.pow_add_r 2 (ex - ez) (ez + 1074)) by lia.
      destruct sx; cbn [cond_Zopp]; ring. }
    assert (Hoy : cond_Zopp sy (Zpos my * 2 ^ (ey + 1074)) =
                  cond_Zopp sy (Zpos my * 2 ^ (ey - ez)) * 2 ^ (ez + 1074)).
    { replace (ey + 1074) with ((ey - ez) + (ez + 1074)) by lia.
      rewrite (Z.pow_add_r 2 (ey - ez) (ez + 1074)) by lia.
      destruct sy; cbn [cond_Zopp]; ring. }
    cbn [F64.ord] in Ox, Oy.
    assert (Hd : d * 2 ^ (ez + 1074) = (kx + ky) * 2 ^ 1074).
    { unfold d. rewrite Z.mul_add_distr_r, <- Hox, <- Hoy, Ox, Oy. ring. }
    exact (binary_normalize_exact d ez (kx + ky) ltac:(lia) Hd ltac:(lia)).
Qed.

(** Adding two whole numbers whose absolute values add up to less than
    2^53 gives their sum. *)
Lemma add_whole x y kx ky :
  whole x kx -> whole y ky -> Z.abs kx + Z.abs ky < 2 ^ 53 ->
  whole (x + y) (kx + ky).
Proof.
  intros (Nx & Ox & _) (Ny & Oy & _) Hb.
  assert (H53 : 2 ^ 53 < 2 ^ 1024) by (apply Z.pow_lt_mono_r; lia).
  unfold whole, F64.nanb, F64.pos in *. rewrite FloatAxioms.add_spec.
  destruct (SFadd_exact _ _ kx ky (Prim2SF_valid x) (Prim2SF_valid y) Nx Ox Ny Oy Hb)
    as [Hn Ho].
  unfold SF64add. rewrite Hn, Ho. repeat split. lia.
Qed.

Lemma whole_zero : whole 0 0.
Proof. unfold whole. repeat split. Qed.

Lemma whole_neg_zero : whole (-0) 0.
Proof. unfold whole. repeat split. Qed.

Lemma whole_unique x k : whole x k -> k = whole_part x.
Proof.
  intros (_ & Ho & _). unfold whole_part. rewrite Ho.
  symmetry. apply Z.div_mul. assert (0 < 2 ^ 1074) by (apply pow2_pos; lia). lia.
Qed.

Lemma whole_budget_cons x xs : whole_budget (x :: xs) = Z.abs (whole_part x) + whole_budget xs.
Proof. reflexivity. Qed.

Lemma whole_total_cons x xs : whole_total (x :: xs) = whole_part x + whole_total xs.
Proof. reflexivity. Qed.

Lemma whole_budget_nil : whole_budget [] = 0.
Proof. reflexivity. Qed.

Lemma whole_total_nil : whole_total [] = 0.
Proof. reflexivity. Qed.

Ltac sums := rewrite ?whole_budget_cons, ?whole_total_cons, ?whole_budget_nil, ?whole_total_nil in *.

Lemma whole_budget_nonneg xs : 0 <= whole_budget xs.
Proof. induction xs; [unfold whole_budget; simpl; lia|rewrite whole_budget_cons; lia]. Qed.

Lemma whole_total_le_budget xs : Z.abs (whole_total xs) <= whole_budget xs.
Proof.
  induction xs; [unfold whole_total, whole_budget; simpl; lia|rewrite whole_budget_cons, whole_total_cons; lia].
Qed.

Lemma whole_total_app xs ys : whole_total (xs ++ ys) = whole_total xs + whole_total ys.
Proof.
  induction xs; [reflexivity|]. rewrite <- app_comm_cons, !whole_total_cons. lia.
Qed.

Lemma whole_budget_app xs ys : whole_budget (xs ++ ys) = whole_budget xs + whole_budget ys.
Proof.
  induction xs; [reflexivity|]. rewrite <- app_comm_cons, !whole_budget_cons. lia.
Qed.

Lemma whole_total_split n xs : whole_total xs = whole_total (firstn n xs) + whole_total (skipn n xs).
Proof. now rewrite <- whole_total_app, firstn_skipn. Qed.

Lemma whole_budget_split n xs : whole_budget xs = whole_budget (firstn n xs) + whole_budget (skipn n xs).
Proof. now rewrite <- whole_budget_app, firstn_skipn. Qed.

Lemma add_is_whole x y :
  is_whole x -> is_whole y -> Z.abs (whole_part x) + Z.abs (whole_part y) < 2 ^ 53 ->
  is_whole (x + y)%float /\ whole_part (x + y) = whole_part x + whole_part y.
Proof.
  intros Hx Hy Hb. assert (H := add_whole _ _ _ _ Hx Hy Hb).
  assert (E := whole_unique _ _ H). unfold is_whole. rewrite <- E. split; [exact H|reflexivity].
Qed.

Lemma fold_is_whole xs : forall acc,
  is_whole acc -> Forall is_whole xs ->
  Z.abs (whole_part acc) + whole_budget xs < 2 ^ 53 ->
  is_whole (fold_left PrimFloat.add xs acc) /\
  whole_part (fold_left PrimFloat.add xs acc) = whole_part acc + whole_total xs.
Proof.
  induction xs as [|x xs IH]; intros acc Ha Hxs Hb; cbn [fold_left]; sums.
  - split; [exact Ha|lia].
  - inversion Hxs as [|? ? Hx Hxs']; subst.
    assert (Hnn := whole_budget_nonneg xs).
    destruct (add_is_whole acc x Ha Hx ltac:(lia)) as [Hw He].
    destruct (IH (acc + x)%float Hw Hxs' ltac:(lia)) as [Hw' He'].
    split; [exact Hw'|lia].
Qed.

Lemma lanes_are_whole r : forall block,
  Forall is_whole r -> Forall is_whole block ->
  whole_budget r + whole_budget block < 2 ^ 53 ->
  Forall is_whole (add_lanes r block) /\
  length (add_lanes r block) = length r /\
  whole_total (add_lanes r block) = whole_total r + whole_total (firstn (length r) block) /\
  whole_budget (add_lanes r block) <= whole_budget r + whole_budget (firstn (length r) block).
Proof.
  induction r as [|x r IH]; intros block Hr Hb Hlt.
  - cbn [add_lanes length firstn]. sums. repeat split; auto; lia.
  - destruct block as [|y block].
    + cbn [add_lanes length firstn]. sums. repeat split; auto; lia.
    + inversion Hr as [|? ? Hx Hr']; subst. inversion Hb as [|? ? Hy Hb']; subst.
      sums. assert (Hn1 := whole_budget_nonneg r). assert (Hn2 := whole_budget_nonneg block).
      destruct (add_is_whole x y Hx Hy ltac:(lia)) as [Hw He].
      destruct (IH block Hr' Hb' ltac:(lia)) as (H1 & H2 & H3 & H4).
      cbn [add_lanes length firstn]. sums. repeat split.
      * constructor; assumption.
      * lia.
      * lia.
      * lia.
Qed.

Lemma Forall_parts {A : Type} (P : A -> Prop) n (a : list A) :
  Forall P a -> Forall P (firstn n a) /\ Forall P (skipn n a).
Proof. intros H. rewrite <- (firstn_skipn n a) in H. now apply Forall_app in H. Qed.

Lemma unrolled_are_whole fuel : forall r a,
  length r = 8%nat -> Forall is_whole r -> Forall is_whole a ->
  whole_budget r + whole_budget a < 2 ^ 53 ->
  length (fst (unrolled_blocks fuel r a)) = 8%nat /\
  Forall is_whole (fst (unrolled_blocks fuel r a)) /\
  Forall is_whole (snd (unrolled_blocks fuel r a)) /\
  whole_total (fst (unrolled_blocks fuel r a)) + whole_total (snd (unrolled_blocks fuel r a))
    = whole_total r + whole_total a /\
  whole_budget (fst (unrolled_blocks fuel r a)) + whole_budget (snd (unrolled_blocks fuel r a))
    <= whole_budget r + whole_budget a.
Proof.
  induction fuel as [|fuel IH]; intros r a Hl Hr Ha Hlt; cbn [unrolled_blocks].
  - cbn [fst snd]. repeat split; auto; lia.
  - destruct (Nat.leb_spec 8 (length a)) as [H8|H8];
      [|cbn [fst snd]; repeat split; auto; lia].
    destruct (Forall_parts _ 8 a Ha) as [Hf Hs].
    assert (Ht := whole_total_split 8 a). assert (Hb := whole_budget_split 8 a).
    assert (Hn1 := whole_budget_nonneg (firstn 8 a)). assert (Hn2 := whole_budget_nonneg (skipn 8 a)).
    destruct (lanes_are_whole r (firstn 8 a) Hr Hf ltac:(lia)) as (H1 & H2 & H3 & H4).
    rewrite Hl in H3, H4.
    assert (Hff : firstn 8 (firstn 8 a) = firstn 8 a).
    { rewrite firstn_firstn. reflexivity. }
    rewrite Hff in H3, H4.
    destruct (IH (add_lanes r (firstn 8 a)) (skipn 8 a) ltac:(lia) H1 Hs ltac:(lia))
      as (G1 & G2 & G3 & G4 & G5).
    repeat split; auto; lia.
Qed.

Lemma block_is_whole a :
  (8 <= length a)%nat -> Forall is_whole a -> whole_budget a < 2 ^ 53 ->
  is_whole (block_sum a) /\ whole_part (block_sum a) = whole_total a.
Proof.
  intros H8 Ha Hlt.
  assert (Ht := whole_total_split 8 a). assert (Hb := whole_budget_split 8 a).
  assert (Hn1 := whole_budget_nonneg (firstn 8 a)). assert (Hn2 := whole_budget_nonneg (skipn 8 a)).
  assert (Hl : length (firstn 8 a) = 8%nat) by (rewrite length_firstn; lia).
  destruct (Forall_parts _ 8 a Ha) as [Hf Hs].
  destruct (unrolled_are_whole (length a) (firstn 8 a) (skipn 8 a) Hl Hf Hs ltac:(lia))
    as (G1 & G2 & G3 & G4 & G5).
  unfold block_sum.
  destruct (unrolled_blocks (length a) (firstn 8 a) (skipn 8 a)) as [r rest].
  cbn [fst snd] in *.
  destruct r as [|r0 [|r1 [|r2 [|r3 [|r4 [|r5 [|r6 [|r7 [|r8 r]]]]]]]]]; try discriminate.
  assert (Hnr := whole_budget_nonneg rest).
  repeat match goal with
         | H : Forall _ (_ :: _) |- _ => inversion H; clear H; subst
         end.
  sums.
  repeat match goal with
         | H : whole ?x (whole_part ?x) |- _ =>
             lazymatch goal with
             | _ : 0 <= Z.abs (whole_part x) |- _ => fail
             | _ => assert (0 <= Z.abs (whole_part x)) by lia
             end
         end.
  destruct (add_is_whole r0 r1) as [W01 E01]; try assumption; try lia.
  destruct (add_is_whole r2 r3) as [W23 E23]; try assumption; try lia.
  destruct (add_is_whole r4 r5) as [W45 E45]; try assumption; try lia.
  destruct (add_is_whole r6 r7) as [W67 E67]; try assumption; try lia.
  destruct (add_is_whole _ _ W01 W23) as [W03 E03]; try lia.
  destruct (add_is_whole _ _ W45 W67) as [W47 E47]; try lia.
  destruct (add_is_whole _ _ W03 W47) as [W07 E07]; try lia.
  destruct (fold_is_whole rest _ W07) as [Wf Ef]; try assumption; try lia.
  split; [exact Wf|lia].
Qed.

Lemma pairwise_is_whole fuel : forall a,
  (length a <= 128 + fuel)%nat -> Forall is_whole a -> whole_budget a < 2 ^ 53 ->
  is_whole (pairwise_sum fuel a) /\ whole_part (pairwise_sum fuel a) = whole_total a.
Proof.
  induction fuel as [|fuel IH]; intros a Hlen Ha Hlt.
  - cbn [pairwise_sum]. destruct (Nat.ltb_spec (length a) 8).
    + destruct (fold_is_whole a (-0)%float whole_neg_zero Ha) as [Hw He].
      * change (whole_part (-0)) with 0. lia.
      * split; [exact Hw|]. rewrite He. change (whole_part (-0)) with 0. lia.
    + destruct (Nat.leb_spec (length a) 128); [|lia].
      apply block_is_whole; auto.
  - cbn [pairwise_sum]. destruct (Nat.ltb_spec (length a) 8).
    + destruct (fold_is_whole a (-0)%float whole_neg_zero Ha) as [Hw He].
      * change (whole_part (-0)) with 0. lia.
      * split; [exact Hw|]. rewrite He. change (whole_part (-0)) with 0. lia.
    + destruct (Nat.leb_spec (length a) 128); [apply block_is_whole; auto|].
      set (n2 := (length a / 2 - (length a / 2) mod 8)%nat).
      assert (Hn2 : (57 <= n2 <= length a / 2)%nat).
      { unfold n2. assert (length a / 2 >= 64)%nat.
        { apply Nat.div_le_lower_bound; lia. }
        assert ((length a / 2) mod 8 < 8)%nat by (apply Nat.mod_upper_bound; lia). lia. }
      assert (Hhalf : (length a / 2 < length a)%nat) by (apply Nat.div_lt; lia).
      assert (Ht := whole_total_split n2 a). assert (Hb := whole_budget_split n2 a).
      assert (Hn1 := whole_budget_nonneg (firstn n2 a)). assert (Hn3 := whole_budget_nonneg (skipn n2 a)).
      destruct (Forall_parts _ n2 a Ha) as [Hf Hs].
      destruct (IH (firstn n2 a)) as [W1 E1];
        [rewrite length_firstn; lia|assumption|lia|].
      destruct (IH (skipn n2 a)) as [W2 E2];
        [rewrite length_skipn; lia|assumption|lia|].
      assert (B1 := whole_total_le_budget (firstn n2 a)). assert (B2 := whole_total_le_budget (skipn n2 a)).
      destruct (add_is_whole _ _ W1 W2) as [Wr Er]; [lia|].
      split; [exact Wr|lia].
Qed.

(** The library's reduction of whole numbers whose absolute values add
    up to less than 2^53 is their sum. *)
Lemma numpy_sum_is_whole a :
  Forall is_whole a -> whole_budget a < 2 ^ 53 ->
  whole (numpy_sum a) (whole_total a).
Proof.
  intros Ha Hlt. unfold numpy_sum.
  destruct (pairwise_is_whole (length a) a ltac:(lia) Ha Hlt) as [Hw He].
  assert (B := whole_total_le_budget a).
  destruct (add_is_whole 0%float _ whole_zero Hw) as [Wr Er].
  - change (whole_part 0) with 0. lia.
  - rewrite <- He. change (whole_part 0) with 0 in Er.
    replace (whole_part (pairwise_sum (length a) a)) with
      (whole_part (0 + pairwise_sum (length a) a)) by lia.
    exact Wr.
Qed.


(** Converting an int64 value below 2^53 in absolute value is exact. *)
Lemma to_float64_whole z : Z.abs z < 2 ^ 53 -> whole (Np.to_float64 z) z.
Proof.
  intros Hz. unfold Np.to_float64.
  assert (H53 : 2 ^ 53 < 2 ^ 1024) by (apply Z.pow_lt_mono_r; lia).
  assert (H63 : 2 ^ 53 < 2 ^ 63) by (apply Z.pow_lt_mono_r; lia).
  destruct (Z.eqb_spec z (- 2 ^ 63)) as [->|Hne]; [lia|].
  unfold whole, F64.nanb, F64.pos.
  destruct (Z.ltb_spec z 0) as [Hneg|Hpos].
  - rewrite FloatAxioms.opp_spec, of_uint63_spec.
    rewrite Uint63.of_Z_spec, Z.mod_small by (change wB with (2 ^ 63); lia).
    destruct (binary_normalize_exact (- z) 0 (- z) ltac:(lia) ltac:(reflexivity) ltac:(lia))
      as [Hn Ho].
    destruct (binary_normalize prec emax (- z) 0 false) as [b|b| |b m e]; try discriminate;
      cbn [SFopp F64.is_nan F64.ord] in *.
    + repeat split; lia.
    + assert (Ht := top_positive). destruct b; cbn [cond_Zopp negb] in *; repeat split; lia.
    + destruct b; cbn [cond_Zopp negb] in *; repeat split; lia.
  - rewrite of_uint63_spec.
    rewrite Uint63.of_Z_spec, Z.mod_small by (change wB with (2 ^ 63); lia).
    destruct (binary_normalize_exact z 0 z ltac:(lia) ltac:(reflexivity) ltac:(lia))
      as [Hn Ho].
    repeat split; [exact Hn|exact Ho|lia].
Qed.

Lemma abs_sum_nonneg ks : 0 <= exact_sum (map Z.abs ks).
Proof. induction ks; simpl; lia. Qed.

(** The int64 sum of a column is the exact sum as long as no partial
    sum leaves the range of int64. *)
Lemma int64_sum_exact zs : forall acc,
  Z.abs acc + exact_sum (map Z.abs zs) < 2 ^ 63 ->
  fold_left (fun acc z => Np.wrap (acc + z)) zs acc = acc + exact_sum zs.
Proof.
  induction zs as [|z zs IH]; intros acc Hb; simpl in *; [lia|].
  assert (Hn := abs_sum_nonneg zs).
  rewrite wrap_in_range by (unfold int64_range; lia).
  rewrite IH by lia. lia.
Qed.

Lemma int64_values_whole column : forall zs ks,
  Np.int64_values column = Some zs ->
  Forall2 whole_scalar column ks -> zs = ks.
Proof.
  induction column as [|a column IH]; intros zs ks Hz Hk.
  - inversion Hk; subst. simpl in Hz. congruence.
  - inversion Hk as [|? k ? ks' Ha Hk']; subst.
    destruct a as [z|x]; simpl in Hz; [|discriminate].
    destruct (Np.int64_values column) as [zs'|]; simpl in Hz; [|discriminate].
    injection Hz as <-. cbn [whole_scalar] in Ha. subst k. f_equal. now apply IH.
Qed.

Lemma as_float_whole a k : whole_scalar a k -> Z.abs k < 2 ^ 53 -> whole (Np.as_float a) k.
Proof.
  destruct a as [z|x]; cbn [whole_scalar Np.as_float]; [|auto].
  intros -> Hk. now apply to_float64_whole.
Qed.

Lemma column_as_floats column : forall ks,
  Forall2 whole_scalar column ks -> exact_sum (map Z.abs ks) < 2 ^ 53 ->
  Forall is_whole (map Np.as_float column) /\
  whole_total (map Np.as_float column) = exact_sum ks /\
  whole_budget (map Np.as_float column) = exact_sum (map Z.abs ks).
Proof.
  induction column as [|a column IH]; intros ks Hk Hb.
  - inversion Hk; subst. repeat split. constructor.
  - inversion Hk as [|? k ? ks' Ha Hk']; subst. simpl in Hb.
    assert (Hn := abs_sum_nonneg ks').
    assert (Hw := as_float_whole a k Ha ltac:(lia)).
    assert (E := whole_unique _ _ Hw).
    destruct (IH ks' Hk' ltac:(lia)) as (H1 & H2 & H3).
    cbn [map]. rewrite whole_total_cons, whole_budget_cons, H2, H3, <- E. simpl.
    repeat split. constructor; [|exact H1]. unfold is_whole. now rewrite <- E.
Qed.

(** [Series.sum()] of a column of whole numbers whose absolute values
    add up to less than 2^53 is their sum, whichever the dtype. *)
Lemma sum_whole column ks :
  Forall2 whole_scalar column ks -> exact_sum (map Z.abs ks) < 2 ^ 53 ->
  whole (Np.as_float (Np.sum column)) (exact_sum ks).
Proof.
  intros Hk Hb. unfold Np.sum.
  assert (H63 : 2 ^ 53 < 2 ^ 63) by (apply Z.pow_lt_mono_r; lia).
  destruct (Np.int64_values column) as [zs|] eqn:Ez.
  - assert (zs = ks) by (eapply int64_values_whole; eassumption). subst zs.
    cbn [Np.as_float]. rewrite int64_sum_exact by (simpl; lia). simpl.
    apply to_float64_whole.
    assert (Z.abs (exact_sum ks) <= exact_sum (map Z.abs ks)).
    { clear. induction ks; simpl; lia. }
    lia.
  - cbn [Np.as_float].
    destruct (column_as_floats column ks Hk Hb) as (H1 & H2 & H3).
    rewrite <- H2. apply numpy_sum_is_whole; [exact H1|]. now rewrite H3.
Qed.

End Exact.

(** ** Baseline metrics *)

Lemma count_true_from (mask : list bool) : forall k,
  fold_left (fun k (b : bool) => if b then S k else k) mask k =
  k + length (filter (fun b => b) mask).
Proof.
  induction mask as [|b mask IH]; intros k; simpl; [lia|].
  rewrite IH. destruct b; simpl; lia.
Qed.

Lemma count_true_filter {A : Type} (f : A -> bool) (l : list A) :
  count_true (map f l) = length (filter f l).
Proof.
  unfold count_true. rewrite count_true_from. simpl.
  induction l as [|x l IH]; simpl; [reflexivity|].
  destruct (f x); simpl; congruence.
Qed.

(** On a float64 column the baseline total is the pairwise sum. *)
Lemma baseline_total_of_float64_rows trades :
  Np.baseline_total_profit (map row_of_trade trades) = numpy_sum (map Profit trades).
Proof.
  unfold Np.baseline_total_profit, Np.sum. rewrite !map_map. cbn [row_of_trade Np.actual_profit].
  destruct trades as [|t trades]; [reflexivity|]. cbn [map Np.int64_values Np.as_float].
  do 2 f_equal.
Qed.

Lemma win_rate_counts rows :
  Np.baseline_win_rate rows =
  (Py.float_of_len (winning_rows rows) / Py.float_of_len (length rows) * 100)%float.
Proof.
  unfold Np.baseline_win_rate, bool_mean, winning_rows.
  now rewrite count_true_filter, length_map.
Qed.

(** C6 (amended). The baseline total is the library's sum of the
    profit column, a pairwise float64 sum for a float64 column and an
    int64 sum for an int64 column; it is the exact sum whenever every
    profit is a whole number and the absolute values add up to less
    than 2^53.  The baseline win rate is the number of rows with a
    strictly positive actual profit divided by the number of valid
    rows, times 100 (a percentage). *)
Theorem baseline_metrics (rows : list Np.Row) :
  rows <> [] ->
  (forall ks,
     Forall2 (fun r k => whole_scalar (Np.actual_profit r) k) rows ks ->
     (exact_sum (map Z.abs ks) < 2 ^ 53)%Z ->
     whole (Np.baseline_total_profit rows) (exact_sum ks)) /\
  (forall trades,
     rows = map row_of_trade trades ->
     Np.baseline_total_profit rows = numpy_sum (map Profit trades)) /\
  Np.baseline_win_rate rows =
    (Py.float_of_len (winning_rows rows) / Py.float_of_len (length rows) * 100)%float.
Proof.
  intros _. split; [|split].
  - intros ks Hk Hb. unfold Np.baseline_total_profit.
    apply Exact.sum_whole; [|exact Hb].
    clear Hb. induction Hk; simpl; constructor; assumption.
  - intros trades ->. apply baseline_total_of_float64_rows.
  - apply win_rate_counts.
Qed.

Lemma baseline_metrics_witness :
  whole (Np.baseline_total_profit scenario_rows) (-265) /\
  Np.baseline_win_rate scenario_rows =
    (Py.float_of_len 1 / Py.float_of_len 3 * 100)%float.
Proof.
  destruct (baseline_metrics scenario_rows) as (Hsum & _ & Hrate).
  - discriminate.
  - split; [|exact Hrate].
    apply (Hsum [-30; -250; 15]%Z).
    + repeat constructor.
    + reflexivity.
Defined.

(** C6, as stated, fails: the profits 0.1, 0.2 and 0.3 (the binary64
    values nearest to them) are added to a float that is not their
    exact sum, and with three winning rows out of three the win rate
    computed is 100, not 3/3. *)
Lemma baseline_total_is_rounded :
  Np.baseline_total_profit three_profits = (0x1.3333333333334p-1)%float /\
  F64.pos (Np.baseline_total_profit three_profits) <>
    exact_sum (map (fun r => F64.pos (Np.as_float (Np.actual_profit r))) three_profits) /\
  winning_rows three_profits = 3 /\ length three_profits = 3 /\
  Np.baseline_win_rate three_profits = 100%float /\
  Np.baseline_win_rate three_profits <>
    (Py.float_of_len (winning_rows three_profits) /
     Py.float_of_len (length three_profits))%float.
Proof.
  split; [reflexivity|]. split; [vm_compute; discriminate|].
  repeat split; try reflexivity.
  intros H. apply (f_equal (fun x => PrimFloat.eqb x 1)) in H.
  vm_compute in H. discriminate.
Qed.

(** ** Improvement over a zero baseline *)

(** C7 (amended). When the baseline total is exactly zero the
    percentage is the IEEE quotient of the best delta by zero, times
    100, computed without raising: positive infinity when the delta is
    positive, negative infinity when it is negative, and NaN when the
    delta is zero or itself a NaN. *)
Theorem improvement_over_zero_baseline (best : ThresholdResult) (base : Baseline) :
  PrimFloat.eqb (baseline_total_profit base) 0 = true ->
  improvement best base =
    if PrimFloat.ltb 0 (delta best) then infinity
    else if PrimFloat.ltb (delta best) 0 then neg_infinity
    else nan.
Proof.
  intros Hb. unfold improvement.
  assert (Hz : Prim2SF (abs (baseline_total_profit base)) = S754_zero false).
  { rewrite FloatAxioms.abs_spec. rewrite FloatAxioms.eqb_spec in Hb.
    change (Prim2SF 0) with (S754_zero false) in Hb.
    destruct (Prim2SF (baseline_total_profit base)) as [s|s| |s m e];
      try discriminate; try reflexivity.
    all: destruct s; discriminate. }
  apply Prim2SF_inj.
  rewrite FloatAxioms.mul_spec, FloatAxioms.div_spec, Hz.
  change (Prim2SF 100) with (S754_finite false 7036874417766400 (-46)).
  rewrite !FloatAxioms.ltb_spec. change (Prim2SF 0) with (S754_zero false).
  destruct (Prim2SF (delta best)) as [s|s| |s m e]; try destruct s; reflexivity.
Qed.

Lemma improvement_over_zero_baseline_witness :
  improvement (mkResult (-1) 100 40 40 1 50) (baseline seq_sum balanced_trades) =
    if PrimFloat.ltb 0 (delta (mkResult (-1) 100 40 40 1 50)) then infinity
    else if PrimFloat.ltb (delta (mkResult (-1) 100 40 40 1 50)) 0 then neg_infinity
    else nan.
Proof.
  apply (improvement_over_zero_baseline (mkResult (-1) 100 40 40 1 50)
           (baseline seq_sum balanced_trades)).
  reflexivity.
Defined.

(** C7, as stated, fails: on [balanced_trades] the baseline total is
    zero, the best result (percentile 100, one trade stopped at -10)
    has delta 40, and the percentage reported is positive infinity, not
    a NaN. *)
Lemma improvement_over_zero_baseline_is_infinite :
  exists base results best,
    analyze_stop_loss no_text seq_sum (frame_of balanced_trades) [50; 100]%float
      = Py.Ok (Analysis base results best infinity) /\
    baseline_total_profit base = 0%float /\
    delta best = 40%float /\
    PrimFloat.is_nan infinity = false.
Proof.
  do 3 eexists. split; [vm_compute; reflexivity|].
  repeat split; reflexivity.
Qed.

(** ** No valid rows *)

(** C8 (amended). When no row has all four fields numeric, the
    analysis computes no baseline and no threshold: if a required
    column is absent it raises the missing-columns error, and otherwise
    it prints the no-valid-data message and returns normally, without
    raising any error to its caller. *)
Theorem no_valid_rows_prints_and_returns
    (parse_number : string -> option float) (series_sum : list float -> float)
    (df : DataFrame) (threshold_pcts : list float) :
  valid_trades parse_number df = [] ->
  (missing_cols df = [] ->
   analyze_stop_loss parse_number series_sum df threshold_pcts
     = Py.Ok (NoValidData no_valid_data_message)) /\
  (missing_cols df <> [] ->
   analyze_stop_loss parse_number series_sum df threshold_pcts
     = Py.Raise (Py.MissingColumns (missing_cols df) (df_columns df))).
Proof.
  intros Hv. unfold analyze_stop_loss. rewrite Hv.
  destruct (missing_cols df) as [|c cs].
  - split; [reflexivity|congruence].
  - split; [discriminate|reflexivity].
Qed.

Lemma no_valid_rows_prints_and_returns_witness :
  (missing_cols unreadable_frame = [] ->
   analyze_stop_loss no_text seq_sum unreadable_frame [50]%float
     = Py.Ok (NoValidData no_valid_data_message)) /\
  (missing_cols unreadable_frame <> [] ->
   analyze_stop_loss no_text seq_sum unreadable_frame [50]%float
     = Py.Raise (Py.MissingColumns (missing_cols unreadable_frame)
                   (df_columns unreadable_frame))).
Proof.
  apply (no_valid_rows_prints_and_returns no_text seq_sum unreadable_frame [50]%float).
  reflexivity.
Defined.

(** C8, as stated, fails: [unreadable_frame] has all four columns and
    no valid row, and the analysis returns normally (exit status 0)
    with only the printed message; nothing is raised. *)
Lemma no_valid_rows_is_not_an_error :
  missing_cols unreadable_frame = [] /\
  valid_trades no_text unreadable_frame = [] /\
  analyze_stop_loss no_text seq_sum unreadable_frame [50]%float
    = Py.Ok (NoValidData no_valid_data_message) /\
  exit_status (analyze_stop_loss no_text seq_sum unreadable_frame [50]%float) = 0%Z /\
  forall e, analyze_stop_loss no_text seq_sum unreadable_frame [50]%float <> Py.Raise e.
Proof.
  repeat split; try reflexivity. intros e. vm_compute. discriminate.
Qed.

(** ** Resolving a threshold *)

Lemma insert_sorted_perm x l : Permutation (x :: l) (insert_sorted x l).
Proof.
  induction l as [|y l IH]; simpl; [reflexivity|].
  destruct (PrimFloat.leb x y); [reflexivity|].
  rewrite perm_swap. now constructor.
Qed.

Lemma sort_values_perm l : Permutation l (sort_values l).
Proof.
  induction l as [|x l IH]; simpl; [constructor|].
  rewrite <- insert_sorted_perm. now constructor.
Qed.

Lemma sort_values_length l : length (sort_values l) = length l.
Proof. symmetry. apply Permutation_length, sort_values_perm. Qed.

Lemma insert_sorted_ascending x l :
  F64.nanb x = false -> Forall (fun y => F64.nanb y = false) l ->
  StronglySorted ascending l -> StronglySorted ascending (insert_sorted x l).
Proof.
  intros Hx Hl Hs. induction Hs as [|y l Hs IH Hy]; simpl.
  - repeat constructor.
  - inversion Hl as [|? ? Hny Hl']; subst.
    rewrite F64Facts.leb_pos, Hx, Hny. simpl.
    destruct (Z.leb_spec (F64.pos x) (F64.pos y)) as [Hle|Hgt].
    + constructor; [constructor; assumption|].
      constructor; [exact Hle|].
      revert Hy. apply Forall_impl. unfold ascending. intros; lia.
    + constructor; [now apply IH|].
      apply (Permutation_Forall (insert_sorted_perm x l)).
      constructor; [unfold ascending; lia|assumption].
Qed.

Lemma sort_values_ascending l :
  Forall (fun y => F64.nanb y = false) l -> StronglySorted ascending (sort_values l).
Proof.
  induction 1 as [|x l Hx Hl IH]; simpl; [constructor|].
  apply insert_sorted_ascending; try assumption.
  apply (Permutation_Forall (sort_values_perm l)). assumption.
Qed.

Lemma ascending_nth l : StronglySorted ascending l ->
  forall i j a b, (i <= j)%nat -> nth_error l i = Some a -> nth_error l j = Some b ->
  ascending a b.
Proof.
  induction 1 as [|x l Hs IH Hx]; intros i j a b Hij Ha Hb.
  - destruct i; discriminate.
  - destruct i as [|i], j as [|j]; simpl in *.
    + injection Ha as <-. injection Hb as <-. unfold ascending. lia.
    + injection Ha as <-. apply nth_error_In in Hb.
      rewrite Forall_forall in Hx. now apply Hx.
    + lia.
    + apply (IH i j); auto. lia.
Qed.

Lemma valid_mae_not_nan trades :
  Forall (fun t => valid_mask t = true) trades ->
  Forall (fun y => F64.nanb y = false) (map MAE trades).
Proof.
  intros H. apply Forall_map. revert H. apply Forall_impl. intros t Hv.
  unfold valid_mask, notna in Hv. rewrite !andb_true_iff in Hv.
  destruct Hv as [[[Hm _] _] _]. rewrite <- F64Facts.is_nan_nanb.
  now apply negb_true_iff.
Qed.

Lemma iloc_in_bounds l i :
  (0 <= i <= Z.of_nat (length l) - 1)%Z -> exists v, iloc l i = Py.Ok v /\
    nth_error l (Z.to_nat i) = Some v.
Proof.
  intros Hi. unfold iloc.
  destruct (nth_error l (Z.to_nat i)) as [v|] eqn:E; [eauto|].
  apply nth_error_None in E. lia.
Qed.

(** C10. For a non-empty valid trade set and a percentile in (0, 100]
    the computed index lies between 0 and n - 1, and the lookup into the
    sorted adverse excursions returns a value. *)
Theorem threshold_lookup_in_bounds (trades : list Trade) (pct : float) :
  trades <> [] -> (Z.of_nat (length trades) < 2 ^ 53)%Z ->
  PrimFloat.ltb 0 pct = true -> PrimFloat.leb pct 100 = true ->
  exists i v,
    threshold_idx (length (sort_values (map MAE trades))) pct = Py.Ok i /\
    (0 <= i <= Z.of_nat (length trades) - 1)%Z /\
    resolve_threshold (sort_values (map MAE trades)) pct = Py.Ok v.
Proof.
  intros Hne Hn H0 H100.
  assert (Hlen : length (sort_values (map MAE trades)) = length trades).
  { now rewrite sort_values_length, length_map. }
  assert (H1 : (1 <= length trades)%nat).
  { destruct trades; [congruence|simpl; lia]. }
  destruct (Percentile.threshold_idx_in_range (length trades) pct H1 Hn H0 H100)
    as (i & Hi & Hr).
  destruct (iloc_in_bounds (sort_values (map MAE trades)) i) as (v & Hv & _).
  { rewrite Hlen. exact Hr. }
  exists i, v. unfold resolve_threshold. rewrite Hlen, Hi. simpl. auto.
Qed.

(** C2 (amended). For a non-empty valid trade set and a percentile in
    (0, 100], the threshold is the element of the ascending adverse
    excursions at index [max(0, k - 1)], where [k] is the binary64
    product [n * (p / 100.0)] truncated to an integer; it is a value of
    the dataset. *)
Theorem threshold_is_order_statistic (trades : list Trade) (pct : float) :
  trades <> [] -> (Z.of_nat (length trades) < 2 ^ 53)%Z ->
  Forall (fun t => valid_mask t = true) trades ->
  PrimFloat.ltb 0 pct = true -> PrimFloat.leb pct 100 = true ->
  exists k v,
    Py.int_of_float (Py.float_of_len (length trades) * (pct / 100)) = Py.Ok k /\
    resolve_threshold (sort_values (map MAE trades)) pct = Py.Ok v /\
    nth_error (sort_values (map MAE trades)) (Z.to_nat (Z.max 0 (k - 1))) = Some v /\
    StronglySorted ascending (sort_values (map MAE trades)) /\
    Permutation (map MAE trades) (sort_values (map MAE trades)) /\
    In v (map MAE trades).
Proof.
  intros Hne Hn Hvalid H0 H100.
  assert (Hlen : length (sort_values (map MAE trades)) = length trades).
  { now rewrite sort_values_length, length_map. }
  assert (H1 : (1 <= length trades)%nat).
  { destruct trades; [congruence|simpl; lia]. }
  destruct (Percentile.threshold_idx_scaled (length trades) pct H1 Hn H0 H100)
    as [Hidx Hk].
  set (k := (F64.pos (Py.float_of_len (length trades) * (pct / 100)) / 2 ^ 1074)%Z) in *.
  destruct (iloc_in_bounds (sort_values (map MAE trades)) (Z.max 0 (k - 1)))
    as (v & Hv & Hnth).
  { rewrite Hlen. lia. }
  exists k, v.
  assert (Hint : Py.int_of_float (Py.float_of_len (length trades) * (pct / 100)) = Py.Ok k).
  { destruct (Percentile.hundredth_range pct H0 H100) as [Hxn Hxr].
    destruct (Percentile.product_range (length trades) (pct / 100)%float H1 Hn
                (conj Hxn Hxr)) as [Hyn Hyr].
    unfold k. apply Percentile.int_of_float_nonneg; [exact Hyn|].
    split; [lia|].
    apply Z.le_lt_trans with (Z.of_nat (length trades) * 2 ^ 1074)%Z; [lia|].
    rewrite RoundingFacts.top_pow. change 2098%Z with (1024 + 1074)%Z.
    rewrite (Z.pow_add_r 2 1024 1074) by lia.
    apply Z.mul_lt_mono_pos_r; [apply RoundingFacts.pow2_pos; lia|].
    apply Z.lt_le_trans with (2 ^ 53)%Z; [assumption|]. apply Z.pow_le_mono_r; lia. }
  split; [exact Hint|].
  split; [unfold resolve_threshold; rewrite Hlen, Hidx; exact Hv|].
  split; [exact Hnth|].
  split; [apply sort_values_ascending, valid_mae_not_nan; assumption|].
  split; [apply sort_values_perm|].
  apply (Permutation_in _ (Permutation_sym (sort_values_perm (map MAE trades)))).
  eapply nth_error_In. exact Hnth.
Qed.

(** C5. For a non-empty valid trade set and percentiles p1 < p2 in
    (0, 100], both thresholds are resolved and the first is at most the
    second. *)
Theorem threshold_monotone (trades : list Trade) (p1 p2 : float) :
  trades <> [] -> (Z.of_nat (length trades) < 2 ^ 53)%Z ->
  Forall (fun t => valid_mask t = true) trades ->
  PrimFloat.ltb 0 p1 = true -> PrimFloat.ltb p1 p2 = true -> PrimFloat.leb p2 100 = true ->
  exists t1 t2,
    resolve_threshold (sort_values (map MAE trades)) p1 = Py.Ok t1 /\
    resolve_threshold (sort_values (map MAE trades)) p2 = Py.Ok t2 /\
    PrimFloat.leb t1 t2 = true.
Proof.
  intros Hne Hn Hvalid H0 H12 H100.
  assert (Hlen : length (sort_values (map MAE trades)) = length trades).
  { now rewrite sort_values_length, length_map. }
  assert (H1 : (1 <= length trades)%nat).
  { destruct trades; [congruence|simpl; lia]. }
  assert (H12' : PrimFloat.leb p1 p2 = true).
  { rewrite F64Facts.ltb_pos in H12. rewrite F64Facts.leb_pos.
    apply andb_true_iff in H12 as [-> H12]. simpl.
    apply Z.ltb_lt in H12. apply Z.leb_le. lia. }
  destruct (Percentile.threshold_idx_monotone (length trades) p1 p2 H1 Hn H0 H12' H100)
    as (i1 & i2 & Hi1 & Hi2 & Hle & Hhi).
  destruct (iloc_in_bounds (sort_values (map MAE trades)) i1) as (t1 & Ht1 & Hn1).
  { rewrite Hlen. lia. }
  destruct (iloc_in_bounds (sort_values (map MAE trades)) i2) as (t2 & Ht2 & Hn2).
  { rewrite Hlen. lia. }
  exists t1, t2. unfold resolve_threshold. rewrite Hlen, Hi1, Hi2. simpl.
  split; [exact Ht1|]. split; [exact Ht2|].
  assert (Hnan := valid_mae_not_nan trades Hvalid).
  assert (Hs := sort_values_ascending _ Hnan).
  assert (Hnan' : Forall (fun y => F64.nanb y = false) (sort_values (map MAE trades))).
  { apply (Permutation_Forall (sort_values_perm _)). exact Hnan. }
  rewrite Forall_forall in Hnan'.
  rewrite F64Facts.leb_pos.
  rewrite (Hnan' t1 (nth_error_In _ _ Hn1)), (Hnan' t2 (nth_error_In _ _ Hn2)). simpl.
  apply Z.leb_le.
  apply (ascending_nth _ Hs (Z.to_nat i1) (Z.to_nat i2)); auto. lia.
Qed.

Lemma scenario_trades_valid :
  Forall (fun t => valid_mask t = true) scenario_trades.
Proof. repeat constructor. Qed.

Lemma threshold_lookup_in_bounds_witness :
  exists i v,
    threshold_idx (length (sort_values (map MAE scenario_trades))) 50 = Py.Ok i /\
    (0 <= i <= Z.of_nat (length scenario_trades) - 1)%Z /\
    resolve_threshold (sort_values (map MAE scenario_trades)) 50 = Py.Ok v.
Proof.
  apply (threshold_lookup_in_bounds scenario_trades 50%float).
  - discriminate.
  - reflexivity.
  - reflexivity.
  - reflexivity.
Defined.

Lemma threshold_is_order_statistic_witness :
  exists k v,
    Py.int_of_float (Py.float_of_len (length scenario_trades) * (50 / 100)) = Py.Ok k /\
    resolve_threshold (sort_values (map MAE scenario_trades)) 50 = Py.Ok v /\
    nth_error (sort_values (map MAE scenario_trades)) (Z.to_nat (Z.max 0 (k - 1))) = Some v /\
    StronglySorted ascending (sort_values (map MAE scenario_trades)) /\
    Permutation (map MAE scenario_trades) (sort_values (map MAE scenario_trades)) /\
    In v (map MAE scenario_trades).
Proof.
  apply (threshold_is_order_statistic scenario_trades 50%float).
  - discriminate.
  - reflexivity.
  - exact scenario_trades_valid.
  - reflexivity.
  - reflexivity.
Defined.

Lemma threshold_monotone_witness :
  exists t1 t2,
    resolve_threshold (sort_values (map MAE scenario_trades)) 50 = Py.Ok t1 /\
    resolve_threshold (sort_values (map MAE scenario_trades)) 100 = Py.Ok t2 /\
    PrimFloat.leb t1 t2 = true.
Proof.
  apply (threshold_monotone scenario_trades 50%float 100%float).
  - discriminate.
  - reflexivity.
  - exact scenario_trades_valid.
  - reflexivity.
  - reflexivity.
  - reflexivity.
Defined.

(** C2, as stated, fails: with 90 trades and the percentile 70 the
    design's index is [floor(90 * 70 / 100) - 1 = 62], but in binary64
    [70 / 100.0] is 0.7 rounded down and [90 * 0.7] is
    62.99999999999999, which [int] truncates to 62: the code reads
    index 61, whose value -29 differs from the value -28 at index 62. *)
Lemma threshold_index_below_nearest_rank :
  length ninety_trades = 90%nat /\
  nearest_rank_index 90 70 = Some 62%Z /\
  threshold_idx 90 70 = Py.Ok 61%Z /\
  resolve_threshold (sort_values (map MAE ninety_trades)) 70 = Py.Ok (-29)%float /\
  nth_error (sort_values (map MAE ninety_trades)) 62 = Some (-28)%float /\
  PrimFloat.eqb (-29) (-28) = false.
Proof.
  repeat split; vm_compute; reflexivity.
Qed.

(** ** Percentiles outside (0, 100] *)

Lemma nth_error_last (l : list float) (d : float) :
  l <> [] -> nth_error l (length l - 1) = Some (last l d).
Proof.
  induction l as [|x l IH]; [congruence|intros _].
  destruct l as [|y l]; [reflexivity|].
  simpl length. replace (S (S (length l)) - 1)%nat with (S (length (y :: l) - 1)).
  - simpl nth_error. simpl last. apply IH. discriminate.
  - simpl. lia.
Qed.

(** C9 (amended). The resolver has no check of the percentile.  For a
    percentile that is zero or negative the truncated product is at
    most 0, the index is clamped to 0 and the smallest adverse
    excursion is returned; for a percentile above 100 the truncated
    product is at least [n], and the largest adverse excursion is
    returned when it is exactly [n], [IndexError] being raised when it
    is larger.  The only other failure is the [OverflowError] of [int]
    on an infinite product. *)
Theorem out_of_range_percentile (mae_sorted : list float) (pct : float) :
  mae_sorted <> [] -> (Z.of_nat (length mae_sorted) < 2 ^ 53)%Z ->
  (PrimFloat.leb pct 0 = true ->
   match Py.int_of_float (Py.float_of_len (length mae_sorted) * (pct / 100)) with
   | Py.Ok k =>
       (k <= 0)%Z /\
       resolve_threshold mae_sorted pct = Py.Ok (hd 0%float mae_sorted)
   | Py.Raise e =>
       e = Py.OverflowError /\
       resolve_threshold mae_sorted pct = Py.Raise Py.OverflowError
   end) /\
  (PrimFloat.ltb 100 pct = true ->
   match Py.int_of_float (Py.float_of_len (length mae_sorted) * (pct / 100)) with
   | Py.Ok k =>
       (Z.of_nat (length mae_sorted) <= k)%Z /\
       resolve_threshold mae_sorted pct =
         if (k =? Z.of_nat (length mae_sorted))%Z
         then Py.Ok (last mae_sorted 0%float)
         else Py.Raise Py.IndexError
   | Py.Raise e =>
       e = Py.OverflowError /\
       resolve_threshold mae_sorted pct = Py.Raise Py.OverflowError
   end).
Proof.
  intros Hne Hn.
  assert (H1 : (1 <= length mae_sorted)%nat).
  { destruct mae_sorted; [congruence|simpl; lia]. }
  unfold resolve_threshold, threshold_idx.
  set (y := (Py.float_of_len (length mae_sorted) * (pct / 100))%float).
  split; intros Hp.
  - destruct (Percentile.hundredth_nonpositive pct Hp) as [Hxn Hxo].
    destruct (Percentile.product_nonpositive _ _ H1 Hn Hxn Hxo) as [Hyn Hyo].
    fold y in Hyn, Hyo.
    destruct (Percentile.int_of_float_nonpositive y Hyn Hyo) as [->|(k & -> & Hk)].
    + split; reflexivity.
    + split; [exact Hk|]. simpl. replace (Z.max 0 (k - 1)) with 0%Z by lia.
      destruct mae_sorted; [congruence|reflexivity].
  - destruct (Percentile.hundredth_above_one pct Hp) as [Hxn Hxo].
    destruct (Percentile.product_above_len _ _ H1 Hn Hxn Hxo) as [Hyn Hyo].
    fold y in Hyn, Hyo.
    assert (Hq : (0 < 2 ^ 1074)%Z) by (apply RoundingFacts.pow2_pos; lia).
    destruct (Percentile.int_of_float_positive y Hyn ltac:(lia)) as [->| ->].
    + split; reflexivity.
    + set (k := (F64.pos y / 2 ^ 1074)%Z).
      assert (Hk : (Z.of_nat (length mae_sorted) <= k)%Z).
      { apply Z.div_le_lower_bound; lia. }
      split; [exact Hk|]. simpl. unfold iloc.
      replace (Z.max 0 (k - 1)) with (k - 1)%Z by lia.
      destruct (Z.eqb_spec k (Z.of_nat (length mae_sorted))) as [E|E].
      * replace (Z.to_nat (k - 1)) with (length mae_sorted - 1)%nat by lia.
        now rewrite (nth_error_last mae_sorted 0%float Hne).
      * destruct (nth_error mae_sorted (Z.to_nat (k - 1))) eqn:En; [|reflexivity].
        assert (Hlt : (Z.to_nat (k - 1) < length mae_sorted)%nat).
        { apply nth_error_Some. congruence. }
        lia.
Qed.

Lemma out_of_range_percentile_witness :
  (PrimFloat.leb (-5) 0 = true ->
   match Py.int_of_float
           (Py.float_of_len (length (sort_values (map MAE scenario_trades))) * (-5 / 100)) with
   | Py.Ok k =>
       (k <= 0)%Z /\
       resolve_threshold (sort_values (map MAE scenario_trades)) (-5) =
         Py.Ok (hd 0%float (sort_values (map MAE scenario_trades)))
   | Py.Raise e =>
       e = Py.OverflowError /\
       resolve_threshold (sort_values (map MAE scenario_trades)) (-5) =
         Py.Raise Py.OverflowError
   end) /\
  (PrimFloat.ltb 100 (-5) = true ->
   match Py.int_of_float
           (Py.float_of_len (length (sort_values (map MAE scenario_trades))) * (-5 / 100)) with
   | Py.Ok k =>
       (Z.of_nat (length (sort_values (map MAE scenario_trades))) <= k)%Z /\
       resolve_threshold (sort_values (map MAE scenario_trades)) (-5) =
         if (k =? Z.of_nat (length (sort_values (map MAE scenario_trades))))%Z
         then Py.Ok (last (sort_values (map MAE scenario_trades)) 0%float)
         else Py.Raise Py.IndexError
   | Py.Raise e =>
       e = Py.OverflowError /\
       resolve_threshold (sort_values (map MAE scenario_trades)) (-5) =
         Py.Raise Py.OverflowError
   end).
Proof.
  apply (out_of_range_percentile (sort_values (map MAE scenario_trades)) (-5)%float).
  - vm_compute. discriminate.
  - vm_compute. reflexivity.
Defined.

(** C9, as stated, fails: on the three sorted adverse excursions of the
    scenario the percentiles -5 and 0 return the smallest value and
    the percentile 120 returns the largest, all without any error. *)
Lemma out_of_range_percentile_is_accepted :
  sort_values (map MAE scenario_trades) = [-5; -1; -0.5]%float /\
  resolve_threshold (sort_values (map MAE scenario_trades)) (-5) = Py.Ok (-5)%float /\
  resolve_threshold (sort_values (map MAE scenario_trades)) 0 = Py.Ok (-5)%float /\
  resolve_threshold (sort_values (map MAE scenario_trades)) 120 = Py.Ok (-0.5)%float.
Proof.
  repeat split; vm_compute; reflexivity.
Qed.

(** ** The run as a whole *)

Lemma has_column_In cols name : has_column cols name = true <-> In name cols.
Proof.
  unfold has_column. induction cols as [|c cols IH]; simpl.
  - split; [discriminate|tauto].
  - destruct (String.eqb_spec c name) as [->|Hne].
    + split; auto.
    + destruct (column_position name cols); simpl in *.
      * split; auto. intros _. right. now apply IH.
      * split; [discriminate|]. intros [H|H]; [contradiction|]. now apply IH.
Qed.

Lemma missing_cols_In df c :
  In c (missing_cols df) <-> In c required_cols /\ ~ In c (df_columns df).
Proof.
  unfold missing_cols. rewrite filter_In, negb_true_iff.
  rewrite <- (has_column_In (df_columns df) c).
  destruct (has_column (df_columns df) c); intuition congruence.
Qed.

Lemma simulate_resolved trades mae_sorted base pct :
  simulate trades mae_sorted base pct =
  match resolve_threshold mae_sorted pct with
  | Py.Ok thr =>
      Py.Ok (mkResult thr pct
               (simulated_profit_total (replay thr trades))
               (simulated_profit_total (replay thr trades) - baseline_total_profit base)%float
               (replay_stopped_count (replay thr trades))
               (Py.float_of_len (win_count (replay thr trades)) /
                Py.float_of_len (baseline_trade_count base) * 100)%float)
  | Py.Raise e => Py.Raise e
  end.
Proof. unfold simulate. destruct (resolve_threshold mae_sorted pct); reflexivity. Qed.

Lemma simulate_all_returns trades mae_sorted base pcts : forall results,
  simulate_all trades mae_sorted base pcts = Py.Ok results <->
  Forall2 (fun pct r => simulate trades mae_sorted base pct = Py.Ok r) pcts results.
Proof.
  induction pcts as [|pct pcts IH]; intros results; simpl.
  - split.
    + intros H. injection H as <-. constructor.
    + intros H. inversion H. reflexivity.
  - destruct (simulate trades mae_sorted base pct) as [r|e] eqn:Er; simpl.
    + destruct (simulate_all trades mae_sorted base pcts) as [rs|e] eqn:Ers; simpl.
      * split.
        -- intros H. injection H as <-. constructor; [exact Er|]. now apply IH.
        -- intros H. inversion H as [|? r' ? rs' Hr Hrs]; subst. cbv beta in Hr.
           apply IH in Hrs. congruence.
      * split; [discriminate|].
        intros H. inversion H as [|? r' ? rs' Hr Hrs]; subst.
        apply IH in Hrs. discriminate.
    + split; [discriminate|].
      intros H. inversion H as [|? r' ? rs' Hr Hrs]; subst. cbv beta in Hr. congruence.
Qed.

Lemma simulate_all_raises trades mae_sorted base pcts e :
  simulate_all trades mae_sorted base pcts = Py.Raise e <->
  exists pre p post,
    pcts = pre ++ p :: post /\
    Forall (fun q => exists v, resolve_threshold mae_sorted q = Py.Ok v) pre /\
    resolve_threshold mae_sorted p = Py.Raise e.
Proof.
  induction pcts as [|pct pcts IH]; simpl.
  - split; [discriminate|].
    intros (pre & p & post & H & _). destruct pre; discriminate.
  - rewrite simulate_resolved.
    destruct (resolve_threshold mae_sorted pct) as [thr|e'] eqn:Et; simpl.
    + destruct (simulate_all trades mae_sorted base pcts) as [rs|e'] eqn:Ers; simpl.
      * split; [discriminate|].
        intros (pre & p & post & Hp & Hpre & Hr).
        destruct pre as [|q pre]; simpl in Hp; injection Hp as -> ->.
        -- congruence.
        -- inversion Hpre; subst.
           assert (H : Py.Ok rs = Py.Raise e) by (apply IH; eauto 6).
           discriminate.
      * split.
        -- intros H. injection H as ->.
           destruct (proj1 IH eq_refl) as (pre & p & post & -> & Hpre & Hr).
           exists (pct :: pre), p, post. repeat split; eauto.
        -- intros (pre & p & post & Hp & Hpre & Hr).
           destruct pre as [|q pre]; simpl in Hp; injection Hp as -> ->.
           ++ congruence.
           ++ inversion Hpre; subst. f_equal.
              assert (H : Py.Raise e' = Py.Raise e :> Py.result (list ThresholdResult))
                by (apply IH; eauto 6).
              congruence.
    + split.
      * intros H. injection H as ->. exists [], pct, pcts. auto.
      * intros (pre & p & post & Hp & Hpre & Hr).
        destruct pre as [|q pre]; simpl in Hp; injection Hp as -> ->.
        -- congruence.
        -- inversion Hpre as [|? ? [v Hv] ?]; subst. congruence.
Qed.

(** What can go wrong while one percentile is resolved. *)
Lemma resolve_threshold_raises mae_sorted pct e :
  resolve_threshold mae_sorted pct = Py.Raise e ->
  e = Py.NanToInteger \/ e = Py.OverflowError \/ e = Py.IndexError.
Proof.
  unfold resolve_threshold, threshold_idx.
  destruct (Py.int_of_float _) as [k|e'] eqn:Ei; simpl.
  - unfold iloc. destruct (nth_error _ _); [discriminate|].
    intros H. injection H as <-. auto.
  - intros H. injection H as ->. unfold Py.int_of_float in Ei.
    destruct (Prim2SF _); try discriminate; injection Ei as <-; auto.
Qed.

Lemma analysis_with_columns parse_number series_sum df pcts :
  missing_cols df = [] ->
  analyze_stop_loss parse_number series_sum df pcts =
  match valid_trades parse_number df with
  | [] => Py.Ok (NoValidData no_valid_data_message)
  | _ :: _ =>
      let trades := valid_trades parse_number df in
      let base := baseline series_sum trades in
      results <- simulate_all trades (sort_values (map MAE trades)) base pcts ;;
      best <- Py.max_by total_profit results ;;
      Py.Ok (Analysis base results best (improvement best base))
  end.
Proof. intros H. unfold analyze_stop_loss. rewrite H. reflexivity. Qed.

(** X1. The analysis raises the missing-columns error exactly when one
    of MAE, Shares, Price, Profit is not a column label; the error names
    exactly the absent ones, in that order, with the labels the table
    has; this happens before any row or percentile is looked at. *)
Theorem missing_columns_are_named
    (parse_number : string -> option float) (series_sum : list float -> float)
    (df : DataFrame) (threshold_pcts : list float) :
  ((exists c, In c required_cols /\ ~ In c (df_columns df)) <->
   analyze_stop_loss parse_number series_sum df threshold_pcts =
     Py.Raise (Py.MissingColumns
                 (filter (fun c => negb (existsb (String.eqb c) (df_columns df))) required_cols)
                 (df_columns df))) /\
  (forall missing available,
     analyze_stop_loss parse_number series_sum df threshold_pcts =
       Py.Raise (Py.MissingColumns missing available) ->
     available = df_columns df /\
     forall c, In c missing <-> In c required_cols /\ ~ In c (df_columns df)).
Proof.
  assert (Hf : filter (fun c => negb (existsb (String.eqb c) (df_columns df))) required_cols
               = missing_cols df).
  { unfold missing_cols. apply filter_ext. intros c. f_equal.
    destruct (has_column (df_columns df) c) eqn:E.
    - apply has_column_In in E. apply existsb_exists. exists c. split; [assumption|].
      apply String.eqb_refl.
    - destruct (existsb (String.eqb c) (df_columns df)) eqn:E'; [|reflexivity].
      apply existsb_exists in E'. destruct E' as (x & Hx & Heq).
      apply String.eqb_eq in Heq. subst x. apply has_column_In in Hx. congruence. }
  rewrite Hf.
  assert (Hraise : forall missing available,
     analyze_stop_loss parse_number series_sum df threshold_pcts =
       Py.Raise (Py.MissingColumns missing available) ->
     missing = missing_cols df /\ available = df_columns df /\ missing_cols df <> []).
  { intros missing available H.
    destruct (missing_cols df) as [|c l] eqn:Em.
    - exfalso. rewrite analysis_with_columns in H by assumption.
      destruct (valid_trades parse_number df) as [|t ts]; [discriminate|].
      cbv zeta in H.
      destruct (simulate_all _ _ _ _) as [rs|e] eqn:Es; simpl in H.
      + destruct rs; simpl in H; discriminate.
      + injection H as ->. apply simulate_all_raises in Es.
        destruct Es as (pre & p & post & _ & _ & Hr).
        apply resolve_threshold_raises in Hr.
        destruct Hr as [Hr|[Hr|Hr]]; discriminate.
    - unfold analyze_stop_loss in H. rewrite Em in H. injection H as <- <-.
      repeat split. discriminate. }
  split.
  - split.
    + intros (c & Hc). apply missing_cols_In in Hc.
      unfold analyze_stop_loss.
      destruct (missing_cols df); [destruct Hc|reflexivity].
    + intros H. apply Hraise in H. destruct H as (_ & _ & Hne).
      destruct (missing_cols df) as [|c l] eqn:Em; [congruence|].
      exists c. apply missing_cols_In. rewrite Em. now left.
  - intros missing available H. apply Hraise in H. destruct H as (-> & -> & _).
    split; [reflexivity|]. intros c. apply missing_cols_In.
Qed.


(** On a standard output that encodes the header the analysis is the
    computation. *)
Lemma analysis_on_encoding_stdout stdout_encodes parse_number series_sum df pcts :
  stdout_encodes Console.results_header = true ->
  Console.analyze_stop_loss stdout_encodes parse_number series_sum df pcts =
  analyze_stop_loss parse_number series_sum df pcts.
Proof.
  intros H. unfold Console.analyze_stop_loss, analyze_stop_loss, Console.print.
  rewrite H. reflexivity.
Qed.

(** On one that does not, the analysis stops at the header. *)
Lemma analysis_on_other_stdout stdout_encodes parse_number series_sum df pcts :
  stdout_encodes Console.results_header = false ->
  missing_cols df = [] -> valid_trades parse_number df <> [] ->
  Console.analyze_stop_loss stdout_encodes parse_number series_sum df pcts =
  Py.Raise Py.UnicodeEncodeError.
Proof.
  intros H Hc Hv. unfold Console.analyze_stop_loss, Console.print.
  rewrite Hc, H. destruct (valid_trades parse_number df); [congruence|reflexivity].
Qed.



Lemma int_of_float_nan y :
  Py.int_of_float y = Py.Raise Py.NanToInteger <-> PrimFloat.is_nan y = true.
Proof.
  rewrite F64Facts.is_nan_nanb. unfold Py.int_of_float, F64.nanb.
  destruct (Prim2SF y); simpl; split; congruence.
Qed.

(** The product handed to [int] is a NaN only for a NaN percentile. *)
Lemma scaled_percentile_nan n pct :
  (1 <= n)%nat -> (Z.of_nat n < 2 ^ 53)%Z ->
  F64.nanb (Py.float_of_len n * (pct / 100)) = F64.nanb pct.
Proof.
  intros Hn1 Hn2. destruct (F64.nanb pct) eqn:En.
  - unfold F64.nanb in *. rewrite FloatAxioms.mul_spec, FloatAxioms.div_spec.
    destruct (Prim2SF pct); try discriminate.
    unfold SF64mul, SF64div. cbn [SFdiv].
    destruct (Prim2SF (Py.float_of_len n)); reflexivity.
  - destruct (PrimFloat.leb pct 0) eqn:E0.
    + destruct (Percentile.hundredth_nonpositive pct E0) as [Hq Hle].
      now destruct (Percentile.product_nonpositive n _ Hn1 Hn2 Hq Hle).
    + destruct (PrimFloat.leb pct 100) eqn:E100.
      * assert (Hlt : PrimFloat.ltb 0 pct = true).
        { rewrite F64Facts.ltb_pos. rewrite F64Facts.leb_pos in E0.
          rewrite En in *. change (F64.nanb 0) with false in *. cbn [negb andb] in *.
          apply Z.leb_gt in E0. now apply Z.ltb_lt. }
        destruct (Percentile.hundredth_range pct Hlt E100) as [Hq Hr].
        now destruct (Percentile.product_range n (pct / 100) Hn1 Hn2 (conj Hq Hr)).
      * assert (Hlt : PrimFloat.ltb 100 pct = true).
        { rewrite F64Facts.ltb_pos. rewrite F64Facts.leb_pos in E100.
          rewrite En in *. change (F64.nanb 100) with false in *. cbn [negb andb] in *.
          apply Z.leb_gt in E100. now apply Z.ltb_lt. }
        destruct (Percentile.hundredth_above_one pct Hlt) as [Hq Hr].
        now destruct (Percentile.product_above_len n _ Hn1 Hn2 Hq Hr).
Qed.

(** X3. Resolving a percentile raises the ValueError of [int] exactly
    when the percentile is a NaN (for a non-empty series of fewer than
    2^53 values). *)
Theorem nan_percentile_is_the_value_error (mae_sorted : list float) (pct : float) :
  mae_sorted <> [] -> (Z.of_nat (length mae_sorted) < 2 ^ 53)%Z ->
  (resolve_threshold mae_sorted pct = Py.Raise Py.NanToInteger <->
   PrimFloat.is_nan pct = true).
Proof.
  intros Hne Hlen.
  assert (Hn1 : (1 <= length mae_sorted)%nat) by (destruct mae_sorted; simpl; [congruence|lia]).
  rewrite F64Facts.is_nan_nanb, <- (scaled_percentile_nan (length mae_sorted)) by assumption.
  rewrite <- F64Facts.is_nan_nanb, <- int_of_float_nan.
  unfold resolve_threshold, threshold_idx.
  destruct (Py.int_of_float _) as [k|e]; simpl.
  - split; [|discriminate]. unfold iloc. destruct (nth_error _ _); discriminate.
  - split; congruence.
Qed.

Lemma nan_percentile_is_the_value_error_witness :
  resolve_threshold (sort_values (map MAE scenario_trades)) nan = Py.Raise Py.NanToInteger <->
  PrimFloat.is_nan nan = true.
Proof.
  apply (nan_percentile_is_the_value_error (sort_values (map MAE scenario_trades)) nan).
  - vm_compute. discriminate.
  - vm_compute. reflexivity.
Defined.

Lemma max_loop_In {A : Type} (key : A -> float) (rest : list A) : forall maxitem,
  In (Py.max_loop key maxitem rest) (maxitem :: rest).
Proof.
  induction rest as [|item rest IH]; intros maxitem; simpl; [auto|].
  destruct (Py.gt (key item) (key maxitem)).
  - right. apply IH.
  - destruct (IH maxitem) as [H|H]; simpl; auto.
Qed.

Lemma max_by_In {A : Type} (key : A -> float) (items : list A) best :
  Py.max_by key items = Py.Ok best -> In best items.
Proof.
  destruct items as [|first rest]; simpl; [discriminate|].
  intros H. injection H as <-. apply max_loop_In.
Qed.

Lemma resolved_in_series mae_sorted pct v :
  resolve_threshold mae_sorted pct = Py.Ok v ->
  exists i, threshold_idx (length mae_sorted) pct = Py.Ok i /\
            nth_error mae_sorted (Z.to_nat i) = Some v.
Proof.
  unfold resolve_threshold.
  destruct (threshold_idx (length mae_sorted) pct) as [i|e]; simpl; [|discriminate].
  unfold iloc. destruct (nth_error mae_sorted (Z.to_nat i)) as [x|] eqn:E; [|discriminate].
  intros H. injection H as <-. eauto.
Qed.



Lemma simulate_all_percentiles trades mae_sorted base pcts results :
  simulate_all trades mae_sorted base pcts = Py.Ok results ->
  map percentile results = pcts.
Proof.
  intros Es. apply simulate_all_returns in Es.
  induction Es as [|p r ps rs' Hr _ IH]; simpl; [reflexivity|].
  rewrite simulate_resolved in Hr.
  destruct (resolve_threshold mae_sorted p); [|discriminate].
  injection Hr as <-. simpl. now rewrite IH.
Qed.




(** X5. Whenever the analysis returns a report, the valid rows were not
    empty, the baseline is the one of the valid trades, the results are
    those of the requested percentiles in the order requested, every
    threshold is an adverse excursion of some valid trade, every total
    and stopped count is the replay's under that threshold, every delta
    is the total minus the baseline total, and the best result is one of
    the results. *)
Theorem report_follows_request
    (parse_number : string -> option float) (series_sum : list float -> float)
    (df : DataFrame) (threshold_pcts : list float)
    (base : Baseline) (results : list ThresholdResult) (best : ThresholdResult)
    (pct_improvement : float) :
  analyze_stop_loss parse_number series_sum df threshold_pcts
    = Py.Ok (Analysis base results best pct_improvement) ->
  valid_trades parse_number df <> [] /\
  base = baseline series_sum (valid_trades parse_number df) /\
  map percentile results = threshold_pcts /\
  In best results /\
  pct_improvement = improvement best base /\
  Forall (fun r =>
            In (mae_threshold r) (map MAE (valid_trades parse_number df)) /\
            total_profit r =
              simulated_profit_total (replay (mae_threshold r) (valid_trades parse_number df)) /\
            stopped_count r =
              replay_stopped_count (replay (mae_threshold r) (valid_trades parse_number df)) /\
            delta r = (total_profit r - baseline_total_profit base)%float) results.
Proof.
  unfold analyze_stop_loss.
  destruct (missing_cols df); [|discriminate].
  destruct (valid_trades parse_number df) as [|t ts] eqn:Et; [discriminate|].
  cbv zeta. set (trades := t :: ts). set (mae_sorted := sort_values (map MAE trades)).
  destruct (simulate_all trades mae_sorted (baseline series_sum trades) threshold_pcts)
    as [rs|e] eqn:Es; simpl; [|discriminate].
  destruct (Py.max_by total_profit rs) as [b|e] eqn:Eb; simpl; [|discriminate].
  intros H. injection H as <- <- <- <-.
  split; [discriminate|]. split; [reflexivity|].
  split; [now apply simulate_all_percentiles in Es|].
  split; [now apply max_by_In in Eb|]. split; [reflexivity|].
  clear Eb. apply simulate_all_returns in Es. induction Es as [|p r ps rs' Hr _ IH]; constructor; [|exact IH].
  rewrite simulate_resolved in Hr.
  destruct (resolve_threshold mae_sorted p) as [thr|] eqn:Ethr; [|discriminate].
  injection Hr as <-. simpl. repeat split.
  apply resolved_in_series in Ethr. destruct Ethr as (i & _ & Hi).
  apply nth_error_In in Hi. unfold mae_sorted in Hi.
  apply (Permutation_in _ (Permutation_sym (sort_values_perm _)) Hi).
Qed.

Lemma report_follows_request_witness :
  valid_trades no_text (frame_of scenario_trades) <> [] /\
  baseline seq_sum scenario_trades
    = baseline seq_sum (valid_trades no_text (frame_of scenario_trades)) /\
  map percentile [scenario_result_50] = [50]%float /\
  In scenario_result_50 [scenario_result_50] /\
  improvement scenario_result_50 (baseline seq_sum scenario_trades)
    = improvement scenario_result_50 (baseline seq_sum scenario_trades) /\
  Forall (fun r =>
            In (mae_threshold r) (map MAE (valid_trades no_text (frame_of scenario_trades))) /\
            total_profit r =
              simulated_profit_total
                (replay (mae_threshold r) (valid_trades no_text (frame_of scenario_trades))) /\
            stopped_count r =
              replay_stopped_count
                (replay (mae_threshold r) (valid_trades no_text (frame_of scenario_trades))) /\
            delta r = (total_profit r - baseline_total_profit (baseline seq_sum scenario_trades))%float)
         [scenario_result_50].
Proof.
  apply (report_follows_request no_text seq_sum (frame_of scenario_trades) [50]%float
           (baseline seq_sum scenario_trades) [scenario_result_50] scenario_result_50
           (improvement scenario_result_50 (baseline seq_sum scenario_trades))).
  reflexivity.
Defined.

(** ** How many trades a threshold stops *)

Lemma filter_length_subset {A : Type} (f g : A -> bool) (l : list A) :
  (forall x, In x l -> f x = true -> g x = true) ->
  (length (filter f l) <= length (filter g l))%nat.
Proof.
  induction l as [|x l IH]; intros H; simpl; [lia|].
  assert (IH' := IH (fun y Hy => H y (or_intror Hy))).
  destruct (f x) eqn:Ef.
  - rewrite (H x (or_introl eq_refl) Ef). simpl. lia.
  - destruct (g x); simpl; lia.
Qed.

Lemma filter_length_permutation {A : Type} (f : A -> bool) (l l' : list A) :
  Permutation l l' -> length (filter f l) = length (filter f l').
Proof.
  induction 1 as [|x l l' _ IH|x y l|l l' l'' _ IH1 _ IH2]; simpl.
  - reflexivity.
  - destruct (f x); simpl; congruence.
  - destruct (f x), (f y); reflexivity.
  - congruence.
Qed.

Lemma filter_length_map {A B : Type} (g : A -> B) (f : B -> bool) (l : list A) :
  length (filter f (map g l)) = length (filter (fun x => f (g x)) l).
Proof.
  induction l as [|x l IH]; simpl; [reflexivity|].
  destruct (f (g x)); simpl; congruence.
Qed.

Lemma filter_length_le {A : Type} (f : A -> bool) (l : list A) :
  (length (filter f l) <= length l)%nat.
Proof. induction l as [|x l IH]; simpl; [lia|]. destruct (f x); simpl; lia. Qed.

(** In an ascending series fewer than [i + 1] values lie strictly below
    the value at position [i]. *)
Lemma strictly_below_rank l : StronglySorted ascending l ->
  forall i v, nth_error l i = Some v ->
  (length (filter (fun x => PrimFloat.ltb x v) l) <= i)%nat.
Proof.
  induction 1 as [|x l Hs IH Hx]; intros i v Hv.
  - destruct i; discriminate.
  - destruct i as [|i]; simpl in Hv.
    + injection Hv as <-.
      assert (H : filter (fun y => PrimFloat.ltb y x) (x :: l) = []).
      { assert (Hall : Forall (fun y => PrimFloat.ltb y x = false) (x :: l)).
        { constructor.
          - rewrite F64Facts.ltb_pos, Z.ltb_irrefl. now rewrite andb_false_r.
          - revert Hx. apply Forall_impl. unfold ascending. intros y Hy.
            rewrite F64Facts.ltb_pos. apply andb_false_iff. right. apply Z.ltb_ge. exact Hy. }
        clear - Hall. induction Hall as [|y l' Hy _ IHl]; simpl; [reflexivity|].
        now rewrite Hy. }
      rewrite H. simpl. lia.
    + specialize (IH i v Hv). simpl.
      destruct (PrimFloat.ltb x v); simpl; lia.
Qed.

Lemma stopped_count_filter thr trades :
  replay_stopped_count (replay thr trades) =
  length (filter (fun x => PrimFloat.ltb x thr) (map MAE trades)).
Proof.
  unfold replay. rewrite replay_from. simpl. rewrite filter_length_map. reflexivity.
Qed.

(** X6. The threshold a percentile resolves to stops at most as many
    trades as its rank in the sorted adverse excursions: the stopped
    count of a result is at most the index computed for its percentile,
    and so is always smaller than the number of valid trades. *)
Theorem stopped_count_below_rank
    (trades : list Trade) (base : Baseline) (pct : float) (r : ThresholdResult) :
  Forall (fun t => valid_mask t = true) trades ->
  simulate trades (sort_values (map MAE trades)) base pct = Py.Ok r ->
  exists i,
    threshold_idx (length trades) pct = Py.Ok i /\
    (Z.of_nat (stopped_count r) <= i)%Z /\
    (stopped_count r < length trades)%nat.
Proof.
  intros Hvalid Hr. rewrite simulate_resolved in Hr.
  destruct (resolve_threshold (sort_values (map MAE trades)) pct) as [thr|] eqn:Et;
    [|discriminate].
  injection Hr as <-. cbn [stopped_count].
  apply resolved_in_series in Et. destruct Et as (i & Hi & Hnth).
  rewrite sort_values_length, length_map in Hi.
  assert (Hi0 : (0 <= i)%Z).
  { unfold threshold_idx in Hi. destruct (Py.int_of_float _); simpl in Hi; [|discriminate].
    injection Hi as <-. lia. }
  assert (Hlt : (Z.to_nat i < length trades)%nat).
  { assert (H : nth_error (sort_values (map MAE trades)) (Z.to_nat i) <> None) by congruence.
    apply nth_error_Some in H. now rewrite sort_values_length, length_map in H. }
  assert (Hc : (replay_stopped_count (replay thr trades) <= Z.to_nat i)%nat).
  { rewrite stopped_count_filter.
    rewrite (filter_length_permutation _ _ _ (sort_values_perm (map MAE trades))).
    apply strictly_below_rank; [|assumption].
    apply sort_values_ascending. now apply valid_mae_not_nan. }
  exists i. split; [assumption|]. split; lia.
Qed.

Lemma stopped_count_below_rank_witness :
  exists i,
    threshold_idx (length scenario_trades) 100 = Py.Ok i /\
    (Z.of_nat (stopped_count scenario_result_100) <= i)%Z /\
    (stopped_count scenario_result_100 < length scenario_trades)%nat.
Proof.
  apply (stopped_count_below_rank scenario_trades (baseline seq_sum scenario_trades) 100
           scenario_result_100).
  - exact scenario_trades_valid.
  - reflexivity.
Defined.

(** X7. Raising the threshold never releases a stopped trade: under a
    threshold that is at least as large, every trade stopped before is
    still stopped, and the stopped count is at least as large. *)
Theorem higher_threshold_stops_no_fewer (thr1 thr2 : float) (trades : list Trade) :
  PrimFloat.leb thr1 thr2 = true ->
  (forall t, PrimFloat.ltb (MAE t) thr1 = true -> PrimFloat.ltb (MAE t) thr2 = true) /\
  (replay_stopped_count (replay thr1 trades) <=
   replay_stopped_count (replay thr2 trades))%nat.
Proof.
  intros Hle.
  assert (H : forall x, PrimFloat.ltb x thr1 = true -> PrimFloat.ltb x thr2 = true).
  { intros x. rewrite !F64Facts.ltb_pos. rewrite F64Facts.leb_pos in Hle.
    rewrite !andb_true_iff in *. rewrite !Z.ltb_lt. rewrite Z.leb_le in Hle.
    intros [[Hx _] Hlt]. destruct Hle as [[_ H2] Hle]. repeat split; auto. lia. }
  split; [intros t; apply H|].
  rewrite !stopped_count_filter. apply filter_length_subset. intros x _. apply H.
Qed.

Lemma higher_threshold_stops_no_fewer_witness :
  (forall t, PrimFloat.ltb (MAE t) (-5) = true -> PrimFloat.ltb (MAE t) (-0.5) = true) /\
  (replay_stopped_count (replay (-5) scenario_trades) <=
   replay_stopped_count (replay (-0.5) scenario_trades))%nat.
Proof.
  apply (higher_threshold_stops_no_fewer (-5) (-0.5) scenario_trades). reflexivity.
Defined.

Lemma filter_length_zero {A : Type} (f : A -> bool) (l : list A) :
  length (filter f l) = 0%nat -> Forall (fun x => f x = false) l.
Proof.
  induction l as [|x l IH]; simpl; [constructor|].
  destruct (f x) eqn:E; simpl; [discriminate|]. auto.
Qed.

(** X8. When the index computed for a percentile is 0 (as for every
    percentile the clamp brings up to 0), the threshold is the smallest
    adverse excursion and the replay changes nothing: no trade is
    stopped, the total is the sum of the actual profits in row order and
    the wins are the trades with a positive profit. *)
Theorem lowest_rank_stops_nothing
    (trades : list Trade) (base : Baseline) (pct : float) :
  trades <> [] ->
  Forall (fun t => valid_mask t = true) trades ->
  threshold_idx (length trades) pct = Py.Ok 0%Z ->
  exists r,
    simulate trades (sort_values (map MAE trades)) base pct = Py.Ok r /\
    Forall (fun t => PrimFloat.leb (mae_threshold r) (MAE t) = true) trades /\
    stopped_count r = 0%nat /\
    total_profit r = seq_sum (map Profit trades) /\
    win_rate r = (Py.float_of_len (winners trades) /
                  Py.float_of_len (baseline_trade_count base) * 100)%float.
Proof.
  intros Hne Hvalid Hidx.
  assert (Hnan := valid_mae_not_nan trades Hvalid).
  assert (Hlen : length (sort_values (map MAE trades)) = length trades)
    by now rewrite sort_values_length, length_map.
  destruct (sort_values (map MAE trades)) as [|thr rest] eqn:Es.
  { destruct trades; [congruence|discriminate]. }
  assert (Hres : resolve_threshold (thr :: rest) pct = Py.Ok thr).
  { unfold resolve_threshold. rewrite Hlen, Hidx. reflexivity. }
  assert (Hc : replay_stopped_count (replay thr trades) = 0%nat).
  { assert (H : (replay_stopped_count (replay thr trades) <= 0)%nat); [|lia].
    rewrite stopped_count_filter.
    rewrite (filter_length_permutation _ _ _ (sort_values_perm (map MAE trades))).
    apply strictly_below_rank.
    - now apply sort_values_ascending.
    - rewrite Es. reflexivity. }
  assert (Hnone : Forall (fun t => is_stopped thr t = false) trades).
  { apply filter_length_zero. unfold replay in Hc. rewrite replay_from in Hc.
    simpl in Hc. exact Hc. }
  destruct (outcomes_unstopped thr trades Hnone) as [Hout _].
  rewrite simulate_resolved, Hres. eexists. split; [reflexivity|].
  cbn [mae_threshold stopped_count total_profit win_rate].
  assert (Hthr : F64.nanb thr = false).
  { assert (Hin : In thr (map MAE trades)).
    { apply (Permutation_in _ (Permutation_sym (sort_values_perm _))). rewrite Es. now left. }
    rewrite Forall_forall in Hnan. now apply Hnan. }
  split.
  { rewrite Forall_forall in Hnone, Hnan |- *. intros t Ht.
    specialize (Hnone t Ht). unfold is_stopped in Hnone.
    rewrite F64Facts.ltb_pos in Hnone. rewrite F64Facts.leb_pos.
    rewrite Hthr, (Hnan (MAE t) (in_map MAE _ _ Ht)) in *. cbn [negb andb] in *.
    apply Z.ltb_ge in Hnone. now apply Z.leb_le. }
  split; [exact Hc|].
  unfold replay. rewrite replay_from. cbn [simulated_profit_total win_count].
  rewrite Hout. split; [reflexivity|].
  do 3 f_equal. unfold winners. cbn [Nat.add]. f_equal.
  apply filter_ext_in. intros t Ht. rewrite Forall_forall in Hnone.
  unfold is_win, simulated_outcome. now rewrite (Hnone t Ht).
Qed.

Lemma lowest_rank_stops_nothing_witness :
  exists r,
    simulate scenario_trades (sort_values (map MAE scenario_trades))
      (baseline seq_sum scenario_trades) 50 = Py.Ok r /\
    Forall (fun t => PrimFloat.leb (mae_threshold r) (MAE t) = true) scenario_trades /\
    stopped_count r = 0%nat /\
    total_profit r = seq_sum (map Profit scenario_trades) /\
    win_rate r = (Py.float_of_len (winners scenario_trades) /
                  Py.float_of_len (baseline_trade_count (baseline seq_sum scenario_trades))
                  * 100)%float.
Proof.
  apply (lowest_rank_stops_nothing scenario_trades (baseline seq_sum scenario_trades) 50).
  - discriminate.
  - exact scenario_trades_valid.
  - reflexivity.
Defined.

(** ** Rates *)

Lemma win_count_le thr trades : (win_count (replay thr trades) <= length trades)%nat.
Proof. unfold replay. rewrite replay_from. simpl. apply filter_length_le. Qed.

(** X9. The win rate of every result is a percentage: it is not a NaN
    and lies between 0 and 100 (for a non-empty set of fewer than 2^53
    valid trades). *)
Theorem win_rate_is_a_percentage
    (series_sum : list float -> float) (trades : list Trade) (mae_sorted : list float)
    (pct : float) (r : ThresholdResult) :
  trades <> [] -> (Z.of_nat (length trades) < 2 ^ 53)%Z ->
  simulate trades mae_sorted (baseline series_sum trades) pct = Py.Ok r ->
  PrimFloat.leb 0 (win_rate r) = true /\ PrimFloat.leb (win_rate r) 100 = true.
Proof.
  intros Hne Hlen Hr. rewrite simulate_resolved in Hr.
  destruct (resolve_threshold mae_sorted pct) as [thr|]; [|discriminate].
  injection Hr as <-. cbn [win_rate baseline baseline_trade_count].
  apply Ratio.percent_range; [apply win_count_le| |assumption].
  destruct trades; simpl; [congruence|lia].
Qed.

Lemma win_rate_is_a_percentage_witness :
  PrimFloat.leb 0 (win_rate scenario_result_50) = true /\
  PrimFloat.leb (win_rate scenario_result_50) 100 = true.
Proof.
  apply (win_rate_is_a_percentage seq_sum scenario_trades
           (sort_values (map MAE scenario_trades)) 50 scenario_result_50).
  - discriminate.
  - vm_compute. reflexivity.
  - reflexivity.
Defined.

(** X10. The baseline win rate is a percentage: it is not a NaN and lies
    between 0 and 100 (for a non-empty set of fewer than 2^53 valid
    trades). *)
Theorem baseline_win_rate_in_range
    (series_sum : list float -> float) (trades : list Trade) :
  trades <> [] -> (Z.of_nat (length trades) < 2 ^ 53)%Z ->
  PrimFloat.leb 0 (baseline_win_rate (baseline series_sum trades)) = true /\
  PrimFloat.leb (baseline_win_rate (baseline series_sum trades)) 100 = true.
Proof.
  intros Hne Hlen. cbn [baseline baseline_win_rate]. unfold bool_mean.
  rewrite count_true_filter, filter_length_map, !length_map.
  apply Ratio.percent_range; [apply filter_length_le| |assumption].
  destruct trades; simpl; [congruence|lia].
Qed.

Lemma baseline_win_rate_in_range_witness :
  PrimFloat.leb 0 (baseline_win_rate (baseline seq_sum scenario_trades)) = true /\
  PrimFloat.leb (baseline_win_rate (baseline seq_sum scenario_trades)) 100 = true.
Proof.
  apply (baseline_win_rate_in_range seq_sum scenario_trades).
  - discriminate.
  - vm_compute. reflexivity.
Defined.

(** ** The signs of the stop amount and of the improvement *)

Lemma SFopp_ord s : F64.is_nan (SFopp s) = F64.is_nan s /\ F64.ord (SFopp s) = (- F64.ord s)%Z.
Proof.
  destruct s as [b|b| |b m e]; cbn; try (split; [reflexivity|]); try lia;
    destruct b; cbn; lia.
Qed.

Lemma to_float64_sign z :
  int64_range z ->
  F64.nanb (Np.to_float64 z) = false /\
  (0 <= z -> 0 <= F64.pos (Np.to_float64 z))%Z /\
  (z <= 0 -> F64.pos (Np.to_float64 z) <= 0)%Z.
Proof.
  intros Hr. unfold int64_range in Hr. unfold Np.to_float64.
  assert (H63 : (0 < 2 ^ 63)%Z) by (apply RoundingFacts.pow2_pos; lia).
  destruct (Z.eqb_spec z (- 2 ^ 63)) as [->|Hne].
  - unfold F64.nanb, F64.pos.
    assert (E : Prim2SF (-0x1p+63) = S754_finite true 4503599627370496 11) by reflexivity.
    rewrite E. cbn [F64.is_nan F64.ord cond_Zopp].
    assert (0 < 2 ^ (11 + 1074))%Z by (apply RoundingFacts.pow2_pos; lia).
    split; [reflexivity|]. split; lia.
  - destruct (Z.ltb_spec z 0) as [Hneg|Hpos].
    + unfold F64.nanb, F64.pos. rewrite FloatAxioms.opp_spec, of_uint63_spec.
      rewrite Uint63.of_Z_spec, Z.mod_small by (change wB with (2 ^ 63)%Z; lia).
      destruct (SFopp_ord (binary_normalize prec emax (- z) 0 false)) as [Hn Ho].
      destruct (Ratio.binary_normalize_sign (- z) 0 ltac:(lia)) as (Hnan & Hp & _).
      rewrite Hn, Ho, Hnan. split; [reflexivity|].
      assert (0 < F64.ord (binary_normalize prec emax (- z) 0 false))%Z by (apply Hp; lia).
      split; lia.
    + unfold F64.nanb, F64.pos. rewrite of_uint63_spec.
      rewrite Uint63.of_Z_spec, Z.mod_small by (change wB with (2 ^ 63)%Z; lia).
      destruct (Ratio.binary_normalize_sign z 0 ltac:(lia)) as (Hnan & Hp & Hn).
      split; [exact Hnan|]. split; [|intros Hz].
      * intros _. destruct (Z.le_gt_cases (F64.ord (binary_normalize prec emax z 0 false)) (-1));
          [|lia]. assert (z < 0)%Z by (apply Hn; lia). lia.
      * destruct (Z.le_gt_cases (F64.ord (binary_normalize prec emax z 0 false)) 0); [assumption|].
        assert (0 < z)%Z by (apply Hp; lia). lia.
Qed.

Lemma as_float_not_negative a :
  int64_scalar a -> negative a = false -> PrimFloat.ltb (Np.as_float a) 0 = false.
Proof.
  destruct a as [z|x]; cbn [int64_scalar negative Np.as_float]; [|auto].
  intros Hr Hz. apply Z.ltb_ge in Hz.
  destruct (to_float64_sign z Hr) as (Hn & Hp & _).
  apply Ratio.not_negative_iff. right. now apply Hp.
Qed.

Lemma as_float_not_positive a :
  int64_scalar a -> Np.positive a = false -> PrimFloat.ltb 0 (Np.as_float a) = false.
Proof.
  destruct a as [z|x]; cbn [int64_scalar Np.positive Np.as_float]; [|auto].
  intros Hr Hz. apply Z.ltb_ge in Hz.
  destruct (to_float64_sign z Hr) as (Hn & _ & Hp).
  apply Ratio.not_positive_iff. right. now apply Hp.
Qed.

(** With no negative share count, no negative entry price, a threshold
    that is not positive and no int64 product out of range, the stop
    amount is not positive. *)
Lemma stop_amount_not_positive thr r :
  no_overflow thr r ->
  Np.positive thr = false ->
  negative (Np.shares r) = false -> negative (Np.entry_price r) = false ->
  Py.gt (Np.simulated_loss thr r) 0 = false.
Proof.
  intros (Wt & Ws & Wp & Hov) Ht Hs Hp.
  assert (Ft := as_float_not_positive thr Wt Ht).
  assert (Fs := as_float_not_negative _ Ws Hs).
  assert (Fp := as_float_not_negative _ Wp Hp).
  unfold Py.gt, Np.simulated_loss, Np.truediv, no_overflow in *.
  apply Ratio.div_hundred_not_positive.
  destruct (Np.shares r) as [s|x], (Np.entry_price r) as [p|y];
    cbn [Np.mul Np.as_float negative int64_scalar] in *.
  - destruct Hov as [Hsp Hspt]. rewrite (wrap_in_range _ Hsp).
    apply Z.ltb_ge in Hs, Hp.
    assert (Hprod : (0 <= s * p)%Z) by nia.
    destruct thr as [t|z]; cbn [Np.mul Np.as_float Np.positive int64_scalar] in *.
    + rewrite (wrap_in_range _ Hspt). apply Z.ltb_ge in Ht.
      apply (as_float_not_positive (Np.int64 (s * p * t)) Hspt).
      cbn [Np.positive]. apply Z.ltb_ge. nia.
    + apply Ratio.mul_not_positive; [|assumption].
      apply (as_float_not_negative (Np.int64 (s * p)) Hsp).
      cbn [negative]. apply Z.ltb_ge. assumption.
  - destruct thr; cbn [Np.mul Np.as_float];
      (apply Ratio.mul_not_positive; [now apply Ratio.mul_not_negative|assumption]).
  - destruct thr; cbn [Np.mul Np.as_float];
      (apply Ratio.mul_not_positive; [now apply Ratio.mul_not_negative|assumption]).
  - destruct thr; cbn [Np.mul Np.as_float];
      (apply Ratio.mul_not_positive; [now apply Ratio.mul_not_negative|assumption]).
Qed.

(** X11. With no negative share count, no negative entry price, a
    threshold that is not positive and no product of int64 values
    outside the range of int64, the stop amount of a row is never
    positive: a stopped row is never counted as a win, the wins of the
    replay are the unstopped rows with a positive profit, and there
    are at most as many of them as rows with a positive profit. *)
Theorem stopped_long_trades_never_win (mae_threshold : Np.scalar) (rows : list Np.Row) :
  Np.positive mae_threshold = false ->
  Forall (fun r => negative (Np.shares r) = false /\
                   negative (Np.entry_price r) = false /\
                   no_overflow mae_threshold r) rows ->
  Forall (fun r => Py.gt (Np.simulated_loss mae_threshold r) 0 = false) rows /\
  win_count (Np.replay mae_threshold rows) =
    length (filter (fun r => negb (Np.lt (Np.actual_mae r) mae_threshold) &&
                             Np.positive (Np.actual_profit r)) rows) /\
  (win_count (Np.replay mae_threshold rows) <= winning_rows rows)%nat.
Proof.
  intros Hthr Hpos.
  assert (Hloss : Forall (fun r => Py.gt (Np.simulated_loss mae_threshold r) 0 = false) rows).
  { revert Hpos. apply Forall_impl. intros r (Hs & Hp & Hov).
    now apply stop_amount_not_positive. }
  split; [exact Hloss|].
  assert (Heq : win_count (Np.replay mae_threshold rows) =
    length (filter (fun r => negb (Np.lt (Np.actual_mae r) mae_threshold) &&
                             Np.positive (Np.actual_profit r)) rows)).
  { unfold Np.replay. rewrite row_replay_from.
    - cbn [win_count Nat.add]. f_equal.
      apply filter_ext_in. intros r Hr. rewrite Forall_forall in Hloss, Hpos.
      specialize (Hloss r Hr). destruct (Hpos r Hr) as (_ & _ & Hov).
      unfold row_outcome, is_stopped_row.
      destruct (Np.lt (Np.actual_mae r) mae_threshold); [|reflexivity].
      cbn [Np.positive negb andb].
      now rewrite <- (simulated_loss_is_stop_amount _ _ Hov).
    - revert Hpos. apply Forall_impl. tauto. }
  split; [exact Heq|].
  rewrite Heq. unfold winning_rows. apply filter_length_subset.
  intros r _ H. apply andb_true_iff in H. tauto.
Qed.

Lemma stopped_long_trades_never_win_witness :
  Forall (fun r => Py.gt (Np.simulated_loss (Np.float64 (-0.5)) r) 0 = false) scenario_rows /\
  win_count (Np.replay (Np.float64 (-0.5)) scenario_rows) =
    length (filter (fun r => negb (Np.lt (Np.actual_mae r) (Np.float64 (-0.5))) &&
                             Np.positive (Np.actual_profit r)) scenario_rows) /\
  (win_count (Np.replay (Np.float64 (-0.5)) scenario_rows) <= winning_rows scenario_rows)%nat.
Proof.
  apply (stopped_long_trades_never_win (Np.float64 (-0.5)) scenario_rows).
  - reflexivity.
  - repeat constructor; unfold int64_range; simpl; lia.
Defined.

(** X12. The improvement percentage has the sign of the delta whatever
    the sign of the baseline total, since the delta is divided by the
    absolute value: it is negative only for a negative delta and
    positive only for a positive delta. *)
Theorem improvement_has_sign_of_delta (best : ThresholdResult) (base : Baseline) :
  (PrimFloat.ltb (improvement best base) 0 = true -> PrimFloat.ltb (delta best) 0 = true) /\
  (PrimFloat.ltb 0 (improvement best base) = true -> PrimFloat.ltb 0 (delta best) = true).
Proof.
  unfold improvement. split; intros H.
  - destruct (PrimFloat.ltb (delta best) 0) eqn:E; [reflexivity|].
    rewrite Ratio.mul_not_negative in H; [discriminate| |reflexivity].
    now apply Ratio.div_abs_not_negative.
  - destruct (PrimFloat.ltb 0 (delta best)) eqn:E; [reflexivity|].
    rewrite Ratio.mul_comm, Ratio.mul_not_positive in H; [discriminate|reflexivity|].
    now apply Ratio.div_abs_not_positive.
Qed.

(** ** Percentile 100 *)

Lemma hundred_percent_index n :
  (1 <= n)%nat -> (Z.of_nat n < 2 ^ 53)%Z ->
  threshold_idx n 100 = Py.Ok (Z.of_nat n - 1)%Z.
Proof.
  intros Hn1 Hn2.
  destruct (Percentile.threshold_idx_scaled n 100 Hn1 Hn2 eq_refl eq_refl) as [Hi _].
  rewrite Hi. f_equal.
  change (100 / 100)%float with 1%float.
  assert (Hp : (0 < 2 ^ 1074)%Z) by (apply RoundingFacts.pow2_pos; lia).
  assert (Hone : F64.pos 1 = (2 ^ 1074)%Z).
  { unfold F64.pos. change (Prim2SF 1) with (S754_finite false 4503599627370496 (-52)).
    cbn [F64.ord cond_Zopp]. change (Zpos 4503599627370496) with (2 ^ 52)%Z.
    rewrite <- Z.pow_add_r by lia. reflexivity. }
  assert (Hu : Rounding.unit_factor 1).
  { split; [reflexivity|]. rewrite Hone. lia. }
  destruct (Percentile.product_range n 1 Hn1 Hn2 Hu) as (_ & _ & Hhi).
  destruct (Percentile.product_above_len n 1 Hn1 Hn2 eq_refl) as (_ & Hlo).
  { rewrite Hone. lia. }
  replace (F64.pos (Py.float_of_len n * 1)) with (Z.of_nat n * 2 ^ 1074)%Z by lia.
  rewrite Z.div_mul by lia. lia.
Qed.

(** X13. Percentile 100 resolves to the largest adverse excursion (the
    least negative one): the threshold is the value of a valid trade
    and no valid trade has a larger one, so the trades that reach it
    are not stopped. *)
Theorem percentile_hundred_is_the_maximum (trades : list Trade) :
  trades <> [] -> (Z.of_nat (length trades) < 2 ^ 53)%Z ->
  Forall (fun t => valid_mask t = true) trades ->
  exists v,
    resolve_threshold (sort_values (map MAE trades)) 100 = Py.Ok v /\
    In v (map MAE trades) /\
    Forall (fun t => PrimFloat.leb (MAE t) v = true) trades.
Proof.
  intros Hne Hlen Hvalid.
  set (mae_sorted := sort_values (map MAE trades)).
  assert (Hsl : length mae_sorted = length trades)
    by (unfold mae_sorted; now rewrite sort_values_length, length_map).
  assert (Hn1 : (1 <= length trades)%nat) by (destruct trades; simpl; [congruence|lia]).
  assert (Hsne : mae_sorted <> []).
  { intros E. rewrite E in Hsl. simpl in Hsl. lia. }
  assert (Hnan := valid_mae_not_nan trades Hvalid).
  assert (Hasc : StronglySorted ascending mae_sorted) by now apply sort_values_ascending.
  assert (Hlast := nth_error_last mae_sorted 0%float Hsne).
  exists (last mae_sorted 0%float).
  assert (Hin : In (last mae_sorted 0%float) (map MAE trades)).
  { apply nth_error_In in Hlast.
    apply (Permutation_in _ (Permutation_sym (sort_values_perm _)) Hlast). }
  split; [|split; [exact Hin|]].
  - unfold resolve_threshold. rewrite Hsl, hundred_percent_index by assumption.
    cbn [Py.bind]. unfold iloc.
    replace (Z.to_nat (Z.of_nat (length trades) - 1)) with (length mae_sorted - 1)%nat by lia.
    now rewrite Hlast.
  - rewrite Forall_forall in Hnan |- *. intros t Ht.
    assert (Hm : In (MAE t) mae_sorted).
    { apply (Permutation_in _ (sort_values_perm _)). now apply in_map. }
    destruct (In_nth_error _ _ Hm) as (i & Hi).
    assert (Hi' : (i < length mae_sorted)%nat) by (apply nth_error_Some; congruence).
    assert (Ha := ascending_nth mae_sorted Hasc i (length mae_sorted - 1) _ _
                    ltac:(lia) Hi Hlast).
    rewrite F64Facts.leb_pos, (Hnan _ (in_map MAE _ _ Ht)), (Hnan _ Hin).
    cbn [negb andb]. apply Z.leb_le. exact Ha.
Qed.

Lemma percentile_hundred_is_the_maximum_witness :
  exists v,
    resolve_threshold (sort_values (map MAE scenario_trades)) 100 = Py.Ok v /\
    In v (map MAE scenario_trades) /\
    Forall (fun t => PrimFloat.leb (MAE t) v = true) scenario_trades.
Proof.
  apply (percentile_hundred_is_the_maximum scenario_trades).
  - discriminate.
  - vm_compute. reflexivity.
  - exact scenario_trades_valid.
Defined.

(** ** The sign of the delta *)

Lemma simulate_delta trades mae_sorted base pct r :
  simulate trades mae_sorted base pct = Py.Ok r ->
  delta r = (total_profit r - baseline_total_profit base)%float.
Proof.
  rewrite simulate_resolved.
  destruct (resolve_threshold mae_sorted pct); [|discriminate].
  intros H. injection H as <-. reflexivity.
Qed.

Lemma simulate_improves trades mae_sorted base pct r :
  simulate trades mae_sorted base pct = Py.Ok r ->
  improves r = Py.gt (total_profit r) (baseline_total_profit base).
Proof.
  intros H. unfold improves, Py.gt. rewrite (simulate_delta _ _ _ _ _ H).
  apply Ratio.sub_sign.
Qed.

(** X14. Rounding never blurs the comparison with the baseline: the
    delta of a result is strictly positive (its row is coloured) exactly
    when its total is strictly greater than the baseline total, and
    strictly negative exactly when the total is strictly smaller. *)
Theorem delta_sign_is_exact
    (trades : list Trade) (mae_sorted : list float) (base : Baseline)
    (pct : float) (r : ThresholdResult) :
  simulate trades mae_sorted base pct = Py.Ok r ->
  improves r = Py.gt (total_profit r) (baseline_total_profit base) /\
  PrimFloat.ltb (delta r) 0 = PrimFloat.ltb (total_profit r) (baseline_total_profit base).
Proof.
  intros H. unfold improves, Py.gt. rewrite (simulate_delta _ _ _ _ _ H).
  apply Ratio.sub_sign.
Qed.

Lemma delta_sign_is_exact_witness :
  improves scenario_result_100 =
    Py.gt (total_profit scenario_result_100)
          (baseline_total_profit (baseline seq_sum scenario_trades)) /\
  PrimFloat.ltb (delta scenario_result_100) 0 =
    PrimFloat.ltb (total_profit scenario_result_100)
                  (baseline_total_profit (baseline seq_sum scenario_trades)).
Proof.
  apply (delta_sign_is_exact scenario_trades (sort_values (map MAE scenario_trades))
           (baseline seq_sum scenario_trades) 100 scenario_result_100).
  reflexivity.
Defined.

(** X15. The best result improves on the baseline exactly when some
    result does (no total being a NaN): if any percentile beats the
    baseline total, the reported best one has a positive delta. *)
Theorem best_improves_when_any_does
    (parse_number : string -> option float) (series_sum : list float -> float)
    (df : DataFrame) (threshold_pcts : list float)
    (base : Baseline) (results : list ThresholdResult) (best : ThresholdResult)
    (pct_improvement : float) :
  analyze_stop_loss parse_number series_sum df threshold_pcts
    = Py.Ok (Analysis base results best pct_improvement) ->
  Forall (fun r => PrimFloat.is_nan (total_profit r) = false) results ->
  (improves best = true <-> exists r, In r results /\ improves r = true).
Proof.
  unfold analyze_stop_loss.
  destruct (missing_cols df); [|discriminate].
  destruct (valid_trades parse_number df) as [|t ts] eqn:Et; [discriminate|].
  cbv zeta. set (trades := t :: ts). set (mae_sorted := sort_values (map MAE trades)).
  destruct (simulate_all trades mae_sorted (baseline series_sum trades) threshold_pcts)
    as [rs|e] eqn:Es; simpl; [|discriminate].
  destruct (Py.max_by total_profit rs) as [b|e] eqn:Eb; simpl; [|discriminate].
  intros H. injection H as <- <- <- <-. intros Htot.
  assert (Hin := max_by_In _ _ _ Eb).
  split; [eauto|].
  intros (r & Hr & Himp).
  apply simulate_all_returns in Es.
  assert (Hdelta : forall x, In x rs ->
            improves x = Py.gt (total_profit x)
                               (baseline_total_profit (baseline series_sum trades))).
  { intros x Hx. clear - Es Hx.
    induction Es as [|p y ps rs' Hy _ IH]; [destruct Hx|].
    destruct Hx as [<-|Hx]; [|now apply IH].
    now apply (simulate_improves trades mae_sorted _ p). }
  rewrite (Hdelta _ Hr) in Himp. rewrite (Hdelta _ Hin).
  assert (Htn : Forall (fun x => F64.nanb (total_profit x) = false) rs).
  { revert Htot. apply Forall_impl. intros x. now rewrite F64Facts.is_nan_nanb. }
  destruct rs as [|first rest]; [destruct Hr|].
  simpl in Eb. injection Eb as <-.
  destruct (max_loop_first_maximum _ total_profit rest first Htn)
    as (pre & post & Heq & Hpre & Hpost).
  set (best := Py.max_loop total_profit first rest) in *.
  assert (Hle : (F64.pos (total_profit r) <= F64.pos (total_profit best))%Z).
  { rewrite Heq in Hr. apply in_app_or in Hr. destruct Hr as [Hr|[<-|Hr]].
    - rewrite Forall_forall in Hpre. specialize (Hpre r Hr). lia.
    - lia.
    - rewrite Forall_forall in Hpost. now apply Hpost. }
  rewrite Forall_forall in Htn.
  unfold Py.gt in *. rewrite F64Facts.ltb_pos in *.
  rewrite (Htn best Hin). rewrite (Htn r) in Himp by (rewrite Heq; apply in_or_app;
    rewrite Heq in Hr; apply in_app_or in Hr; tauto).
  rewrite !andb_true_iff in *. destruct Himp as [[Hb _] Hlt].
  rewrite Z.ltb_lt in *. repeat split; auto. lia.
Qed.

Lemma best_improves_when_any_does_witness :
  improves scenario_result_100 = true <->
  exists r, In r [scenario_result_50; scenario_result_100] /\ improves r = true.
Proof.
  apply (best_improves_when_any_does no_text seq_sum (frame_of scenario_trades)
           [50; 100]%float (baseline seq_sum scenario_trades)
           [scenario_result_50; scenario_result_100] scenario_result_100
           (improvement scenario_result_100 (baseline seq_sum scenario_trades))).
  - reflexivity.
  - repeat constructor.
Defined.

(** ** What the loader changes *)

Lemma map_at_length {A : Type} (f : A -> A) (l : list A) : forall i,
  length (map_at i f l) = length l.
Proof. induction l as [|x l IH]; intros [|i]; simpl; auto. Qed.

Lemma nth_map_at_same {A : Type} (f : A -> A) (d : A) (l : list A) : forall i,
  (i < length l)%nat -> nth i (map_at i f l) d = f (nth i l d).
Proof.
  induction l as [|x l IH]; intros [|i] H; simpl in *; try lia; auto.
  apply IH. lia.
Qed.

Lemma nth_map_at_other {A : Type} (f : A -> A) (d : A) (l : list A) : forall i j,
  i <> j -> nth j (map_at i f l) d = nth j l d.
Proof.
  induction l as [|x l IH]; intros [|i] [|j] H; simpl; try congruence; auto.
Qed.

Lemma column_position_nth_error name cols : forall i,
  column_position name cols = Some i -> nth_error cols i = Some name.
Proof.
  induction cols as [|c cols IH]; simpl; intros i; [discriminate|].
  destruct (String.eqb_spec c name) as [->|Hne].
  - intros H. injection H as <-. reflexivity.
  - destruct (column_position name cols) as [k|]; simpl; [|discriminate].
    intros H. injection H as <-. simpl. now apply IH.
Qed.

Lemma nth_error_column_position name cols : NoDup cols -> forall i,
  nth_error cols i = Some name -> column_position name cols = Some i.
Proof.
  induction 1 as [|c cols Hc Hnd IH]; intros [|i]; simpl; try discriminate.
  - intros H. injection H as ->. now rewrite String.eqb_refl.
  - intros H. destruct (String.eqb_spec c name) as [->|Hne].
    + apply nth_error_In in H. contradiction.
    + now rewrite (IH i H).
Qed.

Section LoaderFacts.

Variable parse_number : string -> option float.
Variable float_str : float -> string.

Lemma column_cells_assign_same f df i :
  Forall (fun row => (i < length row)%nat) (df_rows df) ->
  column_cells (assign_cells f df i) i = map f (column_cells df i).
Proof.
  unfold column_cells, assign_cells. cbn [df_rows]. rewrite !map_map.
  intros H. apply map_ext_in. intros row Hrow. rewrite Forall_forall in H.
  apply nth_map_at_same. now apply H.
Qed.

Lemma column_cells_assign_other f df i j :
  i <> j -> column_cells (assign_cells f df i) j = column_cells df j.
Proof.
  unfold column_cells, assign_cells. cbn [df_rows]. rewrite !map_map.
  intros H. apply map_ext. intros row. now apply nth_map_at_other.
Qed.

Lemma assign_cells_rectangular f df i :
  rectangular df -> rectangular (assign_cells f df i).
Proof.
  unfold rectangular, assign_cells. cbn [df_rows df_columns]. intros H.
  apply Forall_map. revert H. apply Forall_impl. intros row.
  now rewrite map_at_length.
Qed.

Lemma is_numeric_dtype_text series :
  is_numeric_dtype series = negb (existsb is_text series).
Proof.
  unfold is_numeric_dtype. induction series as [|c series IH]; simpl; [reflexivity|].
  rewrite IH. now destruct (is_text c).
Qed.

(** The comparison of the count with half the length of the sample, as
    floats, decides a strict majority. *)
Lemma half_as_float k n :
  (k <= 100)%nat -> (n <= 100)%nat ->
  Py.gt (Py.float_of_len k) (Py.float_of_len n * 0.5) = (n <? 2 * k)%nat.
Proof.
  intros Hk Hn.
  assert (H : forallb (fun n => forallb (fun k =>
                Bool.eqb (Py.gt (Py.float_of_len k) (Py.float_of_len n * 0.5))
                         (n <? 2 * k)%nat) (seq 0 101)) (seq 0 101) = true)
    by (vm_compute; reflexivity).
  rewrite forallb_forall in H. specialize (H n).
  rewrite forallb_forall in H. apply eqb_prop. apply H; apply in_seq; lia.
Qed.

Lemma mostly_percent_majority sample :
  (length sample <= 100)%nat ->
  mostly_percent float_str sample =
  (length sample <?
   2 * length (filter (fun c => Str.endswith "%"%char (astype_str float_str c)) sample))%nat.
Proof.
  intros H. unfold mostly_percent. rewrite count_true_filter.
  apply half_as_float; [|assumption].
  etransitivity; [apply filter_length_le|assumption].
Qed.

Lemma convert_column_rule df col i :
  column_position col (df_columns df) = Some i ->
  convert_column parse_number float_str df col =
  if percent_majority float_str (column_cells df i)
  then assign_cells (coerce parse_number) (assign_cells (strip_percent float_str) df i) i
  else df.
Proof.
  intros Hi. unfold convert_column, percent_majority. rewrite Hi. cbv zeta.
  rewrite is_numeric_dtype_text.
  destruct (existsb is_text (column_cells df i)); cbn [negb andb]; [|reflexivity].
  set (sample := firstn 100 (dropna (column_cells df i))).
  assert (Hlen : (length sample <= 100)%nat) by apply firstn_le_length.
  rewrite <- (mostly_percent_majority sample Hlen).
  destruct sample; [|reflexivity].
  reflexivity.
Qed.

Lemma convert_column_columns df col :
  df_columns (convert_column parse_number float_str df col) = df_columns df.
Proof.
  unfold convert_column.
  destruct (column_position col (df_columns df)); [|reflexivity].
  cbv zeta. destruct (is_numeric_dtype _); [reflexivity|].
  destruct (firstn 100 _); [reflexivity|].
  destruct (mostly_percent _ _); reflexivity.
Qed.

Lemma convert_column_row_lengths df col :
  map (@length cell) (df_rows (convert_column parse_number float_str df col)) =
  map (@length cell) (df_rows df).
Proof.
  unfold convert_column.
  destruct (column_position col (df_columns df)); [|reflexivity].
  cbv zeta. destruct (is_numeric_dtype _); [reflexivity|].
  destruct (firstn 100 _); [reflexivity|].
  destruct (mostly_percent _ _); [|reflexivity].
  unfold assign_cells. cbn [df_rows]. rewrite !map_map.
  apply map_ext. intros row. now rewrite !map_at_length.
Qed.

Lemma convert_columns_shape cols : forall df,
  df_columns (fold_left (convert_column parse_number float_str) cols df) = df_columns df /\
  map (@length cell) (df_rows (fold_left (convert_column parse_number float_str) cols df)) =
  map (@length cell) (df_rows df).
Proof.
  induction cols as [|c cols IH]; intros df; simpl; [auto|].
  destruct (IH (convert_column parse_number float_str df c)) as [H1 H2].
  rewrite H1, H2, convert_column_columns, convert_column_row_lengths. auto.
Qed.

Lemma convert_column_rectangular df col :
  rectangular df -> rectangular (convert_column parse_number float_str df col).
Proof.
  unfold rectangular. rewrite convert_column_columns.
  intros H. assert (Hl := convert_column_row_lengths df col).
  revert Hl H. generalize (df_rows (convert_column parse_number float_str df col)).
  generalize (length (df_columns df)). intros n.
  induction (df_rows df) as [|row rows IH]; intros [|row' rows'] Hl H;
    simpl in Hl; try discriminate; constructor.
  - injection Hl as Hl _. inversion H; subst. congruence.
  - injection Hl as _ Hl. inversion H; subst. now apply IH.
Qed.

Lemma convert_column_cells df col i :
  rectangular df ->
  column_position col (df_columns df) = Some i ->
  forall j,
  column_cells (convert_column parse_number float_str df col) j =
  if (j =? i)%nat
  then if percent_majority float_str (column_cells df i)
       then map (fun c => coerce parse_number (strip_percent float_str c)) (column_cells df i)
       else column_cells df i
  else column_cells df j.
Proof.
  intros Hrect Hi j. rewrite (convert_column_rule df col i Hi).
  assert (Hlt : (i < length (df_columns df))%nat).
  { apply column_position_nth_error in Hi.
    apply nth_error_Some. congruence. }
  destruct (Nat.eqb_spec j i) as [->|Hne].
  - destruct (percent_majority float_str (column_cells df i)); [|reflexivity].
    rewrite column_cells_assign_same, column_cells_assign_same, map_map.
    + reflexivity.
    + revert Hrect. apply Forall_impl. intros row Hrow. lia.
    + assert (H := assign_cells_rectangular (strip_percent float_str) df i Hrect).
      revert H. apply Forall_impl. cbn [assign_cells df_columns]. intros row Hrow. lia.
  - destruct (percent_majority float_str (column_cells df i)); [|reflexivity].
    rewrite !column_cells_assign_other by congruence. reflexivity.
Qed.

Lemma convert_columns_cells labels : NoDup labels -> forall df,
  NoDup (df_columns df) -> rectangular df -> incl labels (df_columns df) ->
  forall i name, nth_error (df_columns df) i = Some name ->
  column_cells (fold_left (convert_column parse_number float_str) labels df) i =
  if existsb (String.eqb name) labels
  then if percent_majority float_str (column_cells df i)
       then map (fun c => coerce parse_number (strip_percent float_str c)) (column_cells df i)
       else column_cells df i
  else column_cells df i.
Proof.
  induction 1 as [|c labels Hc Hnd IH]; intros df Hcols Hrect Hincl i name Hi;
    [reflexivity|].
  cbn [fold_left existsb].
  assert (Hin : In c (df_columns df)) by (apply Hincl; now left).
  destruct (In_nth_error _ _ Hin) as (k & Hk).
  assert (Hpos := nth_error_column_position c _ Hcols k Hk).
  set (df1 := convert_column parse_number float_str df c).
  assert (Hcols1 : df_columns df1 = df_columns df) by apply convert_column_columns.
  rewrite (IH df1) with (name := name).
  - unfold df1. rewrite !(convert_column_cells df c k Hrect Hpos).
    destruct (String.eqb_spec name c) as [->|Hne].
    + assert (i = k).
      { apply (proj1 (NoDup_nth_error (df_columns df)) Hcols).
        - apply nth_error_Some. congruence.
        - congruence. }
      subst k. rewrite Nat.eqb_refl. cbn [orb].
      assert (Hex : existsb (String.eqb c) labels = false).
      { destruct (existsb (String.eqb c) labels) eqn:E; [|reflexivity].
        apply existsb_exists in E. destruct E as (x & Hx & Heq).
        apply String.eqb_eq in Heq. subst x. contradiction. }
      rewrite Hex. reflexivity.
    + assert (Hik : (i =? k)%nat = false).
      { apply Nat.eqb_neq. intros ->. congruence. }
      rewrite Hik. cbn [orb]. reflexivity.
  - now rewrite Hcols1.
  - now apply convert_column_rectangular.
  - rewrite Hcols1. intros x Hx. apply Hincl. now right.
  - now rewrite Hcols1.
Qed.

End LoaderFacts.

Lemma rstrip_app c s :
  Str.rstrip c (s ++ String c EmptyString) = Str.rstrip c s.
Proof.
  induction s as [|a s IH]; simpl.
  - now rewrite Ascii.eqb_refl.
  - now rewrite IH.
Qed.

Lemma rstrip_unchanged c s : Str.endswith c s = false -> Str.rstrip c s = s.
Proof.
  induction s as [|a s IH]; [reflexivity|].
  destruct s as [|b s].
  - simpl. intros ->. reflexivity.
  - intros H. change (Str.endswith c (String a (String b s)))
      with (Str.endswith c (String b s)) in H.
    change (Str.rstrip c (String a (String b s))) with
      (match Str.rstrip c (String b s) with
       | EmptyString => if Ascii.eqb a c then EmptyString else String a EmptyString
       | rest => String a rest
       end).
    now rewrite (IH H).
Qed.

(** X16. The loader keeps the shape of the table it read: the column
    labels, the number of rows and the number of cells of every row; so
    the required columns that are missing are the same before and
    after. *)
Theorem loader_keeps_shape
    (parse_number : string -> option float) (float_str : float -> string) (df : DataFrame) :
  df_columns (convert_percent_columns parse_number float_str df) = df_columns df /\
  map (@length cell) (df_rows (convert_percent_columns parse_number float_str df)) =
    map (@length cell) (df_rows df) /\
  length (df_rows (convert_percent_columns parse_number float_str df)) = length (df_rows df) /\
  missing_cols (convert_percent_columns parse_number float_str df) = missing_cols df.
Proof.
  unfold convert_percent_columns.
  destruct (convert_columns_shape parse_number float_str (df_columns df) df) as [H1 H2].
  split; [exact H1|]. split; [exact H2|]. split.
  - apply (f_equal (@length nat)) in H2. now rewrite !length_map in H2.
  - unfold missing_cols. now rewrite H1.
Qed.

(** X17. On a rectangular table with distinct labels the loader decides
    column by column: a column is replaced by its cells stripped of
    trailing percent signs and coerced to numbers when it holds text and
    strictly more than half of its first hundred non-missing cells end
    with a percent sign, and is returned as read otherwise (also when
    exactly half of them do). *)
Theorem loader_converts_by_majority
    (parse_number : string -> option float) (float_str : float -> string)
    (df : DataFrame) (i : nat) (name : string) :
  NoDup (df_columns df) -> rectangular df ->
  nth_error (df_columns df) i = Some name ->
  column_cells (convert_percent_columns parse_number float_str df) i =
  if percent_majority float_str (column_cells df i)
  then map (fun c => coerce parse_number (strip_percent float_str c)) (column_cells df i)
  else column_cells df i.
Proof.
  intros Hnd Hrect Hi. unfold convert_percent_columns.
  rewrite (convert_columns_cells parse_number float_str (df_columns df) Hnd df Hnd Hrect
             (incl_refl _) i name Hi).
  assert (H : existsb (String.eqb name) (df_columns df) = true).
  { apply existsb_exists. exists name. split; [now apply nth_error_In in Hi|].
    apply String.eqb_refl. }
  now rewrite H.
Qed.

Lemma loader_converts_by_majority_witness :
  column_cells (convert_percent_columns scenario_parser no_repr percent_frame) 0 =
  if percent_majority no_repr (column_cells percent_frame 0)
  then map (fun c => coerce scenario_parser (strip_percent no_repr c))
           (column_cells percent_frame 0)
  else column_cells percent_frame 0.
Proof.
  apply (loader_converts_by_majority scenario_parser no_repr percent_frame 0 "MAE").
  - repeat constructor; simpl; intuition discriminate.
  - repeat constructor.
  - reflexivity.
Defined.

(** X18. A percent cell of a converted column is read by the analysis
    as the number in front of the sign: where the cell holds the text
    [s%] ([s] not empty and not itself ending with a percent sign) the
    coerced series the analysis reads from the loaded table holds what
    [to_numeric] makes of [s]. *)
Theorem percent_cells_are_read_as_numbers
    (parse_number : string -> option float) (float_str : float -> string)
    (df : DataFrame) (i : nat) (name : string) (k : nat) (s : string) :
  NoDup (df_columns df) -> rectangular df ->
  nth_error (df_columns df) i = Some name ->
  percent_majority float_str (column_cells df i) = true ->
  nth_error (column_cells df i) k = Some (Text (s ++ "%")) ->
  s <> ""%string -> Str.endswith "%"%char s = false ->
  nth_error (map (numeric_field parse_number
                    (convert_percent_columns parse_number float_str df) name)
                 (df_rows (convert_percent_columns parse_number float_str df))) k =
  Some (to_numeric parse_number (Text s)).
Proof.
  intros Hnd Hrect Hi Hmaj Hk Hs Hend.
  set (df' := convert_percent_columns parse_number float_str df).
  assert (Hcols : df_columns df' = df_columns df).
  { unfold df', convert_percent_columns.
    apply (convert_columns_shape parse_number float_str (df_columns df) df). }
  assert (Hpos : column_position name (df_columns df') = Some i).
  { rewrite Hcols. now apply nth_error_column_position. }
  assert (Hread : map (numeric_field parse_number df' name) (df_rows df') =
                  map (to_numeric parse_number) (column_cells df' i)).
  { unfold column_cells. rewrite map_map. apply map_ext. intros row.
    unfold numeric_field. now rewrite Hpos. }
  rewrite Hread. unfold df', convert_percent_columns.
  rewrite (convert_columns_cells parse_number float_str (df_columns df) Hnd df Hnd Hrect
             (incl_refl _) i name Hi).
  assert (H : existsb (String.eqb name) (df_columns df) = true).
  { apply existsb_exists. exists name. split; [now apply nth_error_In in Hi|].
    apply String.eqb_refl. }
  rewrite H, Hmaj, map_map.
  rewrite nth_error_map, Hk. cbn [option_map]. f_equal.
  unfold coerce, strip_percent. cbn [to_numeric astype_str].
  rewrite rstrip_app, (rstrip_unchanged _ _ Hend).
  destruct (String.eqb_spec s ""); [contradiction|reflexivity].
Qed.

Lemma percent_cells_are_read_as_numbers_witness :
  nth_error (map (numeric_field scenario_parser
                    (convert_percent_columns scenario_parser no_repr percent_frame) "MAE")
                 (df_rows (convert_percent_columns scenario_parser no_repr percent_frame))) 1 =
  Some (to_numeric scenario_parser (Text "-5.0")).
Proof.
  apply (percent_cells_are_read_as_numbers scenario_parser no_repr percent_frame 0 "MAE" 1 "-5.0").
  - repeat constructor; simpl; intuition discriminate.
  - repeat constructor.
  - reflexivity.
  - reflexivity.
  - reflexivity.
  - discriminate.
  - reflexivity.
Defined.

(** X19. A table that holds no text is returned by the loader as it was
    read. *)
Theorem table_without_text_is_unchanged
    (parse_number : string -> option float) (float_str : float -> string) (df : DataFrame) :
  Forall (Forall (fun c => is_text c = false)) (df_rows df) ->
  convert_percent_columns parse_number float_str df = df.
Proof.
  intros Hno. unfold convert_percent_columns.
  assert (Hstep : forall col, convert_column parse_number float_str df col = df).
  { intros col. unfold convert_column.
    destruct (column_position col (df_columns df)) as [i|]; [|reflexivity].
    cbv zeta.
    assert (Hnum : is_numeric_dtype (column_cells df i) = true).
    { unfold is_numeric_dtype, column_cells. apply forallb_forall.
      intros c Hc. apply in_map_iff in Hc. destruct Hc as (row & <- & Hrow).
      rewrite Forall_forall in Hno. specialize (Hno row Hrow).
      destruct (nth_in_or_default i row Blank) as [Hin | ->]; [|reflexivity].
      rewrite Forall_forall in Hno. now rewrite (Hno _ Hin). }
    now rewrite Hnum. }
  induction (df_columns df) as [|c cols IH]; simpl; [reflexivity|].
  now rewrite Hstep.
Qed.

Lemma table_without_text_is_unchanged_witness :
  convert_percent_columns no_text no_repr (frame_of scenario_trades) = frame_of scenario_trades.
Proof.
  apply (table_without_text_is_unchanged no_text no_repr (frame_of scenario_trades)).
  repeat constructor.
Defined.

(** ** The exit status and the order of the percentiles *)

Lemma sorted_perm xs : Permutation xs (sorted xs).
Proof. exact (sort_values_perm xs). Qed.

Lemma sorted_ascending xs :
  Forall (fun p => PrimFloat.is_nan p = false) xs -> StronglySorted ascending (sorted xs).
Proof.
  intros H. apply (sort_values_ascending xs).
  revert H. apply Forall_impl. intros p. now rewrite F64Facts.is_nan_nanb.
Qed.


Lemma sorted_after {A : Type} (R : A -> A -> Prop) (l1 : list A) x l2 :
  StronglySorted R (l1 ++ x :: l2) -> Forall (R x) l2.
Proof.
  induction l1 as [|y l1 IH]; simpl; intros H; inversion H; subst; auto.
Qed.

Section MainFacts.

Variable path_exists : string -> bool.
Variable read_csv : string -> option DataFrame.
Variable parse_number : string -> option float.
Variable float_str : float -> string.
Variable series_sum : list float -> float.



Lemma loaded_table df :
  df_columns (convert_percent_columns parse_number float_str df) = df_columns df /\
  length (df_rows (convert_percent_columns parse_number float_str df)) = length (df_rows df).
Proof.
  unfold convert_percent_columns.
  destruct (convert_columns_shape parse_number float_str (df_columns df) df) as [H1 H2].
  split; [exact H1|].
  apply (f_equal (@length nat)) in H2. now rewrite !length_map in H2.
Qed.


(** X22. The percentiles are sorted before the analysis, so the results
    come in ascending order of percentile whatever the order they were
    given in, and among results of equal total the best one is the one
    of lowest percentile: every result has a strictly smaller total than
    the best or a percentile at least as large (no percentile and no
    total being a NaN). *)
Theorem ties_go_to_the_lowest_percentile
    (csv_path : string) (thresholds : list float)
    (base : Baseline) (results : list ThresholdResult) (best : ThresholdResult)
    (pct_improvement : float) :
  try_block path_exists read_csv parse_number float_str series_sum csv_path thresholds
    = inr (Analysis base results best pct_improvement) ->
  Forall (fun p => PrimFloat.is_nan p = false) thresholds ->
  Forall (fun r => PrimFloat.is_nan (total_profit r) = false) results ->
  Permutation thresholds (map percentile results) /\
  StronglySorted ascending (map percentile results) /\
  Forall (fun r => PrimFloat.ltb (total_profit r) (total_profit best) = true \/
                   PrimFloat.leb (percentile best) (percentile r) = true) results.
Proof.
  unfold try_block.
  destruct (load_trade_data _ _ _ _ _) as [e|df]; [discriminate|].
  destruct (analyze_stop_loss parse_number series_sum df (sorted thresholds))
    as [report|e] eqn:Ea; [|discriminate].
  intros H. injection H as ->. intros Hths Htot.
  unfold analyze_stop_loss in Ea.
  destruct (missing_cols df); [|discriminate].
  destruct (valid_trades parse_number df) as [|t ts]; [discriminate|].
  cbv zeta in Ea.
  destruct (simulate_all _ _ _ _) as [rs|e] eqn:Es; simpl in Ea; [|discriminate].
  destruct (Py.max_by total_profit rs) as [b|e] eqn:Eb; simpl in Ea; [|discriminate].
  injection Ea as <- <- <- <-.
  apply simulate_all_percentiles in Es.
  assert (Hsorted : StronglySorted ascending (map percentile rs))
    by (rewrite Es; now apply sorted_ascending).
  split; [rewrite Es; apply sorted_perm|]. split; [exact Hsorted|].
  assert (Hpn : Forall (fun r => F64.nanb (percentile r) = false) rs).
  { assert (H : Forall (fun p => F64.nanb p = false) (map percentile rs)).
    { rewrite Es. apply (Permutation_Forall (sorted_perm thresholds)).
      revert Hths. apply Forall_impl. intros p. now rewrite F64Facts.is_nan_nanb. }
    now apply (proj1 (Forall_map _ _ _)) in H. }
  assert (Htn : Forall (fun r => F64.nanb (total_profit r) = false) rs).
  { revert Htot. apply Forall_impl. intros r. now rewrite F64Facts.is_nan_nanb. }
  destruct rs as [|first rest]; [discriminate|].
  simpl in Eb. injection Eb as <-.
  destruct (max_loop_first_maximum _ total_profit rest first Htn)
    as (pre & post & Heq & Hpre & Hpost).
  set (best := Py.max_loop total_profit first rest) in *.
  rewrite Heq in Hsorted, Hpn, Htn |- *.
  assert (Hbp : F64.nanb (percentile best) = false).
  { apply Forall_app in Hpn. destruct Hpn as [_ Hpn]. now inversion Hpn. }
  assert (Hbt : F64.nanb (total_profit best) = false).
  { apply Forall_app in Htn. destruct Htn as [_ Htn]. now inversion Htn. }
  apply Forall_app. split.
  - apply Forall_app in Htn. destruct Htn as [Htn _].
    rewrite Forall_forall in Hpre, Htn |- *. intros r Hr. left.
    rewrite F64Facts.ltb_pos, (Htn r Hr), Hbt. cbn [negb andb].
    apply Z.ltb_lt. now apply Hpre.
  - rewrite map_app in Hsorted. cbn [map] in Hsorted.
    apply sorted_after in Hsorted.
    apply Forall_app in Hpn. destruct Hpn as [_ Hpn].
    constructor.
    + right. rewrite F64Facts.leb_pos, Hbp. cbn [negb andb]. apply Z.leb_le. lia.
    + inversion Hpn as [|? ? _ Hpost']; subst.
      apply (proj1 (Forall_map _ _ _)) in Hsorted.
      rewrite Forall_forall in Hsorted, Hpost' |- *. intros r Hr. right.
      rewrite F64Facts.leb_pos, Hbp, (Hpost' r Hr). cbn [negb andb].
      apply Z.leb_le. exact (Hsorted r Hr).
Qed.

End MainFacts.


Lemma ties_go_to_the_lowest_percentile_witness :
  Permutation [100; 50]%float (map percentile [scenario_result_50; scenario_result_100]) /\
  StronglySorted ascending (map percentile [scenario_result_50; scenario_result_100]) /\
  Forall (fun r => PrimFloat.ltb (total_profit r) (total_profit scenario_result_100) = true \/
                   PrimFloat.leb (percentile scenario_result_100) (percentile r) = true)
         [scenario_result_50; scenario_result_100].
Proof.
  apply (ties_go_to_the_lowest_percentile scenario_exists scenario_read_csv scenario_parser
           no_repr seq_sum "trades.csv" [100; 50]%float
           (baseline seq_sum scenario_trades)
           [scenario_result_50; scenario_result_100] scenario_result_100
           (improvement scenario_result_100 (baseline seq_sum scenario_trades))).
  - reflexivity.
  - repeat constructor.
  - repeat constructor.
Defined.

(** ** The exit status on standard output *)

Section ConsoleFacts.

Variable stdout_encodes : string -> bool.
Variable config_local : Console.Config.
Variable path_exists : string -> bool.
Variable read_csv : string -> option DataFrame.
Variable parse_number : string -> option float.
Variable float_str : float -> string.
Variable series_sum : list float -> float.


(** X23. The line that names the file is printed before the [try]
    block: when standard output cannot encode it the program ends with
    the error of [print] and returns no exit status.  When it can, the
    program exits with status 1 if the file does not exist, if the
    reader raises, if the table lacks one of the four required columns,
    or if the table has a valid row and standard output cannot encode
    the header of the results table. *)
Theorem main_on_console (csv_file : option string) (thresholds : option (list float)) :
  (stdout_encodes
     (Console.loading_line
        (match csv_file with Some p => p | None => Console.PATH_TO_CSV config_local end))
     = false ->
   Console.main stdout_encodes config_local path_exists read_csv parse_number float_str
     series_sum csv_file thresholds = Py.Raise Py.UnicodeEncodeError) /\
  (stdout_encodes
     (Console.loading_line
        (match csv_file with Some p => p | None => Console.PATH_TO_CSV config_local end))
     = true ->
   (path_exists
      (match csv_file with Some p => p | None => Console.PATH_TO_CSV config_local end)
      = false \/
    read_csv
      (match csv_file with Some p => p | None => Console.PATH_TO_CSV config_local end)
      = None \/
    exists df,
      read_csv
        (match csv_file with Some p => p | None => Console.PATH_TO_CSV config_local end)
        = Some df /\
      ((exists c, In c required_cols /\ ~ In c (df_columns df)) \/
       (missing_cols df = [] /\
        valid_trades parse_number (convert_percent_columns parse_number float_str df) <> [] /\
        stdout_encodes Console.results_header = false))) ->
   Console.main stdout_encodes config_local path_exists read_csv parse_number float_str
     series_sum csv_file thresholds = Py.Ok 1%Z).
Proof.
  unfold Console.main. cbv zeta. unfold Console.print. split; intros Hline; rewrite Hline.
  - reflexivity.
  - cbn [Py.bind]. unfold Console.try_block, load_trade_data.
    destruct (path_exists _); cbn [negb]; [|reflexivity].
    intros [H|[H|(df & Hread & H)]]; [discriminate|now rewrite H|].
    rewrite Hread.
    destruct (loaded_table parse_number float_str df) as [Hcols _].
    destruct H as [(c & Hc)|(Hm & Hv & Henc)].
    + assert (Hm : In c (missing_cols (convert_percent_columns parse_number float_str df))).
      { apply missing_cols_In. now rewrite Hcols. }
      unfold Console.analyze_stop_loss.
      destruct (missing_cols (convert_percent_columns parse_number float_str df));
        [destruct Hm|reflexivity].
    + rewrite analysis_on_other_stdout; [reflexivity|assumption| |assumption].
      unfold missing_cols. rewrite Hcols. exact Hm.
Qed.

End ConsoleFacts.


(** With the template's configuration and a standard output that
    encodes every text, the program is the computation. *)
Lemma main_on_utf8_stdout path_exists read_csv parse_number float_str series_sum
    csv_file thresholds :
  Console.main utf8_stdout template_config path_exists read_csv parse_number float_str
    series_sum csv_file thresholds =
  Py.Ok (main path_exists read_csv parse_number float_str series_sum csv_file thresholds).
Proof.
  unfold Console.main, main, Console.try_block, try_block. cbv zeta.
  cbn [Console.print utf8_stdout Py.bind template_config
       Console.PATH_TO_CSV Console.DEFAULT_THRESHOLDS].
  unfold Console.print, utf8_stdout. cbn [Py.bind].
  destruct (load_trade_data _ _ _ _ _); [reflexivity|].
  rewrite analysis_on_encoding_stdout by reflexivity. reflexivity.
Qed.

(** The scenario on a standard output that encodes ASCII only: the
    analysis raises at the header and the program exits with status
    1. *)
Example scenario_on_ascii_stdout :
  is_ascii Console.results_header = false /\
  Console.analyze_stop_loss ascii_stdout no_text seq_sum (frame_of scenario_trades)
    [50; 100]%float = Py.Raise Py.UnicodeEncodeError /\
  Console.main ascii_stdout template_config scenario_exists scenario_read_csv scenario_parser
    no_repr seq_sum (Some "trades.csv"%string) (Some [100; 50]%float) = Py.Ok 1%Z.
Proof. repeat split; reflexivity. Qed.
